(** * sedit: settings store, event bus, extension manager and debugger worker

    A shallow embedding of the parts of [sedit_linux_japanese.py] that carry
    the editor's lifecycle logic:

    - [Settings]   : [save_settings] over the module-level [SETTINGS] dict;
    - [EventBus]   : [add_event_listener], [remove_event_listener],
                     [emit_event] and [_safe_call];
    - [Extensions] : [ExtensionManager] ([enable], [disable], [load_all],
                     [_cleanup_resources], ...) and the [ExtensionAPI] facade;
    - [Debugger]   : [SimpleGuiBdb.user_line], [set_action], [_thread_runner],
                     [start_debug] and [toggle_breakpoint].
    - [ExtensionsMenu], [Editor], [Scan], [DebugPanel], [Builder] : the
                     check buttons of the extensions menu, [OpenFiles] and
                     [SaveFiles], [_scan_files], [poll_queue], and the grid
                     of the GUI builder.

    Python dicts that are only looked up by key are [gmap]s; the [info] dict
    of the extension manager, which the code iterates over, is an insertion
    ordered association list.  Exceptions are explicit: fallible code returns
    a [result]. *)

From Stdlib Require Import ZArith List Ascii String.
From stdpp Require Import gmap strings list fin_maps pretty.

Set Warnings "-register-all".

(* ===================================================================== *)
(** ** Python values, exceptions and results *)
(* ===================================================================== *)

(** JSON-like Python values, as stored in the settings document. *)
Inductive pyval : Type :=
  | VNone
  | VBool (b : bool)
  | VInt (z : Z)
  | VStr (s : string)
  | VList (l : list pyval)
  | VDict (l : list (string * pyval)).

(** Exceptions.  Every exception of the model is an instance of Python's
    [Exception] class; [BdbQuit] is the sentinel of the standard [bdb]
    module (a subclass of [Exception]), [PyError] is any other one, carrying
    the text that [str(e)] gives. *)
Inductive pyexc : Type :=
  | BdbQuit
  | PyError (text : string).

(** The outcome of running a piece of Python code. *)
Inductive result (A : Type) : Type :=
  | Return (a : A)
  | Raise (e : pyexc).
Arguments Return {A} a.
Arguments Raise {A} e.

Definition raised {A} (r : result A) : bool :=
  match r with Return _ => false | Raise _ => true end.

(** Callbacks are function objects: compared by identity, always truthy. *)
Definition callback := nat.

(* ===================================================================== *)
(** ** 1. Settings *)
(* ===================================================================== *)

Module Settings.

(** Truthiness of a dict: [if d:]. *)
Definition dict_truthy (d : gmap string pyval) : bool :=
  negb (bool_decide (d = ∅)).

(** [od.update(d)]: keys of [d] win, the other keys of [od] stay. *)
Definition dict_update (od d : gmap string pyval) : gmap string pyval :=
  d ∪ od.

(** The state [save_settings] works on: the module-level [SETTINGS] and
    the document that the last completed write left in the settings file
    ([None]: none yet).  A write that raises is not followed into the
    file: [os.makedirs] or [open] may raise and leave the file as it
    was, [json.dump] may raise after [open(..., 'w')] has emptied it.
    After a write that raised the field therefore still holds the last
    document written in full, which need not be what is on disk. *)
Record store : Type := mkStore {
  SETTINGS : gmap string pyval;
  settings_file : option (gmap string pyval)
}.

(** [save_settings(d)].  [write] is the outcome of the block
    [os.makedirs(...); with open(SETTINGS_PATH, 'w') ...: json.dump(od, f)]:
    it either returns or raises.  [SETTINGS = od] comes after it inside
    the same [try], and [except Exception: pass] swallows the failure. *)
Definition save_settings (write : result unit) (d : gmap string pyval)
    (st : store) : store :=
  let od := SETTINGS st in                       (* dict(SETTINGS or {}) *)
  let od := if dict_truthy d then dict_update od d else od in
  match write with
  | Return _ => {| SETTINGS := od; settings_file := Some od |}
  | Raise _ => st
  end.

(** [SETTINGS.get(key, default)] *)
Definition get_setting (key : string) (dflt : pyval) (st : store) : pyval :=
  default dflt (SETTINGS st !! key).

End Settings.

(* ===================================================================== *)
(** ** 2. Event bus *)
(* ===================================================================== *)

Module EventBus.

(** An entry of [EVENT_LISTENERS[event]]: [(callback, owner, threaded)]. *)
Record listener : Type := mkListener {
  l_cb : callback;
  l_owner : option string;
  l_threaded : bool
}.

#[export] Instance listener_eq_dec : EqDecision listener.
Proof. solve_decision. Defined.

(** [EVENT_LISTENERS = {}  # event -> [(callback, owner, threaded), ...]] *)
Abbreviation listeners := (gmap string (list listener)).

(** Truthiness of the optional arguments of [remove_event_listener]:
    a function object is truthy, [None] and the empty string are not. *)
Definition callback_truthy (c : option callback) : bool :=
  match c with Some _ => true | None => false end.

Definition owner_truthy (o : option string) : bool :=
  match o with
  | Some s => negb (String.eqb s "")
  | None => false
  end.

(** [EVENT_LISTENERS.setdefault(event, []).append((callback, owner, bool(threaded)))] *)
Definition add_event_listener (event : string) (cb : callback)
    (owner : option string) (threaded : bool) (m : listeners) : listeners :=
  <[event := default [] (m !! event) ++ [mkListener cb owner threaded]]> m.

(** The body of the [for cb, own, thd in lst] loop: does the entry go
    into [new]? *)
Definition keeps (cb_arg : option callback) (owner_arg : option string)
    (l : listener) : bool :=
  if callback_truthy cb_arg && negb (bool_decide (Some (l_cb l) = cb_arg))
  then true
  else if owner_truthy owner_arg && negb (bool_decide (l_owner l = owner_arg))
  then true
  else if negb (callback_truthy cb_arg) && negb (owner_truthy owner_arg)
  then true
  else false.

Definition remove_event_listener (event : string) (cb_arg : option callback)
    (owner_arg : option string) (m : listeners) : listeners :=
  match m !! event with
  | None => m
  | Some [] => m                                  (* if not lst: return *)
  | Some lst => <[event := List.filter (keeps cb_arg owner_arg) lst]> m
  end.

(** *** Dispatch

    What [emit_event] touches besides the listener table: the owner
    thread's idle queue ([root.after(0, ...)]), the worker threads it
    starts, the callbacks it runs itself, and the extension log. *)
Inductive how : Type :=
  | OnThread      (* threading.Thread(target=..., daemon=True).start() *)
  | OnOwner       (* root.after(0, ...) *)
  | Direct.       (* _safe_call(cb, ...) in the inner except *)

#[export] Instance how_eq_dec : EqDecision how.
Proof. solve_decision. Defined.

Record bus : Type := mkBus {
  EVENT_LISTENERS : listeners;
  dispatched : list (callback * how);
  log_lines : list (string * string)             (* (level, text) *)
}.

(** What the bus cannot decide by itself: whether [root.after] and
    [Thread.start] succeed for a callback, and what a callback does when
    it is finally called. *)
Record env : Type := mkEnv {
  after_ok : callback → bool;
  thread_ok : callback → bool;
  behaviour : callback → result unit
}.

Definition exc_text (e : pyexc) : string :=
  match e with BdbQuit => "" | PyError t => t end.

(** [log(msg_text, level)]: appends a line; it has its own
    [try/except] and never raises. *)
Definition log (text level : string) (b : bus) : bus :=
  mkBus (EVENT_LISTENERS b) (dispatched b) (log_lines b ++ [(level, text)]).

(** [_safe_call(cb, *args, **kwargs)] *)
Definition _safe_call (E : env) (cb : callback) (b : bus) : bus * result unit :=
  match behaviour E cb with
  | Return _ => (b, Return tt)
  | Raise e => (log ("Extension callback error: " +:+ exc_text e) "error" b, Return tt)
  end.

Definition record (cb : callback) (h : how) (b : bus) : bus :=
  mkBus (EVENT_LISTENERS b) (dispatched b ++ [(cb, h)]) (log_lines b).

(** [try: ... except Exception: pass] *)
Definition except_pass {S : Type} (r : S * result unit) : S * result unit :=
  match r with
  | (s, Return _) => (s, Return tt)
  | (s, Raise _) => (s, Return tt)
  end.

(** The body of the outer [try] of one iteration.  The thread's target
    is [lambda: _safe_call(cb, ...)]; it runs on the new thread, not
    here, so only its start is recorded. *)
Definition dispatch_one (E : env) (l : listener) (b : bus) : bus * result unit :=
  let cb := l_cb l in
  if l_threaded l then
    if thread_ok E cb then (record cb OnThread b, Return tt)
    else (b, Raise (PyError "can't start new thread"))
  else
    if after_ok E cb then (record cb OnOwner b, Return tt)
    else _safe_call E cb (record cb Direct b).

(** The [for] loop over the snapshot [list(EVENT_LISTENERS.get(event, []) or [])]:
    an exception leaving an iteration would end the loop and leave
    [emit_event]. *)
Fixpoint emit_loop (E : env) (ls : list listener) (b : bus) : bus * result unit :=
  match ls with
  | [] => (b, Return tt)
  | l :: rest =>
      match except_pass (dispatch_one E l b) with
      | (b', Return _) => emit_loop E rest b'
      | (b', Raise e) => (b', Raise e)
      end
  end.

Definition emit_event (E : env) (event : string) (b : bus) : bus * result unit :=
  emit_loop E (default [] (EVENT_LISTENERS b !! event)) b.

(** The entry one listener leaves in [dispatched], if any: none when its
    thread cannot be started. *)
Definition dispatch_of (E : env) (l : listener) : option (callback * how) :=
  if l_threaded l then
    if thread_ok E (l_cb l) then Some (l_cb l, OnThread) else None
  else Some (l_cb l, if after_ok E (l_cb l) then OnOwner else Direct).

End EventBus.

(* ===================================================================== *)
(** ** 3. Extension manager and API facade *)
(* ===================================================================== *)

Module Extensions.

(** *** Resources, hooks and extension modules *)

(** The two ways [_cleanup_resources] disposes of a resource. *)
Inductive capability : Type :=
  | Destroy       (* r.destroy() *)
  | Call.         (* r() *)

#[export] Instance capability_eq_dec : EqDecision capability.
Proof. solve_decision. Defined.

(** A registered resource: an object with an identity; [r_has_destroy] is
    [hasattr(r, 'destroy') and callable(r.destroy)], [r_callable] is
    [callable(r)], [r_outcome] is what the capability does once invoked. *)
Record resource : Type := mkResource {
  r_id : nat;
  r_has_destroy : bool;
  r_callable : bool;
  r_outcome : result unit
}.

(** What a [setup(api)] or [teardown(api)] hook does, as the sequence of
    facade calls it makes; [RaiseExc] is a [raise] in the hook's body. *)
Inductive api_call : Type :=
  | AddCommand (label : string) (cb : callback)   (* api.add_command, api.get_menu().add_command *)
  | RegisterResource (r : resource)               (* api.register_resource *)
  | On (event : string) (cb : callback)           (* api.on *)
  | Off (event : string) (cb : callback)          (* api.off *)
  | SetSetting (key : string) (value : pyval)     (* api.set_setting *)
  | Log (message level : string)                  (* api.log *)
  | RaiseExc (e : pyexc).

Definition hook : Type := list api_call.

(** A loaded module object: its optional hooks ([None]: the attribute is
    missing or not callable). *)
Record module : Type := mkModule {
  m_setup : option hook;
  m_teardown : option hook
}.

(** An entry of [ExtensionManager.info]; a key that is absent from the
    Python dict is [None] here, and for ['enabled'] it is [false], which
    is how every reader ([.get('enabled')]) sees it. *)
Record ext_info : Type := mkInfo {
  i_path : option string;
  i_enabled : bool;
  i_dir : option string;
  i_readme : option string;
  i_error : option string
}.

Definition empty_info : ext_info := mkInfo None false None None None.

Definition set_info_enabled (b : bool) (i : ext_info) : ext_info :=
  mkInfo (i_path i) b (i_dir i) (i_readme i) (i_error i).

(** *** Insertion-ordered dicts *)

Fixpoint alist_get {V} (k : string) (d : list (string * V)) : option V :=
  match d with
  | [] => None
  | (k', v) :: rest => if String.eqb k k' then Some v else alist_get k rest
  end.

(** [d[k] = v]: in place when the key exists, at the end otherwise. *)
Fixpoint alist_set {V} (k : string) (v : V) (d : list (string * V)) : list (string * V) :=
  match d with
  | [] => [(k, v)]
  | (k', v') :: rest =>
      if String.eqb k k' then (k', v) :: rest else (k', v') :: alist_set k v rest
  end.

(** *** The manager *)

Record ExtensionManager : Type := mkManager {
  loaded : gmap string (option module);          (* None: load failed *)
  info : list (string * ext_info);
  submenus : gmap string nat;                    (* name -> menu widget *)
  resources : gmap string (list resource);
  menu_items : gmap string (list (string * callback))
}.

(** An entry of the extension directory, as [_scan_files] and [importlib]
    see it: name, entry module path, its directory, whether a README.md
    lies next to it, and what loading the module gives. *)
Record ext_file : Type := mkFile {
  f_name : string;
  f_path : string;
  f_dir : string;
  f_has_readme : bool;
  f_import : result module
}.

Inductive menu_entry : Type :=
  | MCommand (label : string)
  | MSeparator
  | MCheck (label : string) (checked : bool)
  | MItem (label : string) (cb : callback)
  | MCascade (label : string) (menu : nat).

(** Everything the manager and the facade read or write. *)
Record world : Type := mkWorld {
  w_store : Settings.store;
  w_disk_ok : bool;                     (* does writing settings.json succeed *)
  w_bus : EventBus.bus;
  w_mgr : ExtensionManager;
  w_menu_ext : list menu_entry;         (* the derived extensions menu *)
  w_destroyed_menus : list nat;
  w_disposed : list (nat * capability); (* dispose invocations, oldest first *)
  w_ext_dir : list ext_file
}.

Definition with_store (f : Settings.store → Settings.store) (w : world) : world :=
  mkWorld (f (w_store w)) (w_disk_ok w) (w_bus w) (w_mgr w) (w_menu_ext w)
          (w_destroyed_menus w) (w_disposed w) (w_ext_dir w).

Definition with_bus (f : EventBus.bus → EventBus.bus) (w : world) : world :=
  mkWorld (w_store w) (w_disk_ok w) (f (w_bus w)) (w_mgr w) (w_menu_ext w)
          (w_destroyed_menus w) (w_disposed w) (w_ext_dir w).

Definition with_mgr (f : ExtensionManager → ExtensionManager) (w : world) : world :=
  mkWorld (w_store w) (w_disk_ok w) (w_bus w) (f (w_mgr w)) (w_menu_ext w)
          (w_destroyed_menus w) (w_disposed w) (w_ext_dir w).

Definition with_menu_ext (m : list menu_entry) (w : world) : world :=
  mkWorld (w_store w) (w_disk_ok w) (w_bus w) (w_mgr w) m
          (w_destroyed_menus w) (w_disposed w) (w_ext_dir w).

Definition with_destroyed_menu (n : nat) (w : world) : world :=
  mkWorld (w_store w) (w_disk_ok w) (w_bus w) (w_mgr w) (w_menu_ext w)
          (w_destroyed_menus w ++ [n]) (w_disposed w) (w_ext_dir w).

Definition with_disposed (d : nat * capability) (w : world) : world :=
  mkWorld (w_store w) (w_disk_ok w) (w_bus w) (w_mgr w) (w_menu_ext w)
          (w_destroyed_menus w) (w_disposed w ++ [d]) (w_ext_dir w).

Definition set_loaded (v : gmap string (option module)) (m : ExtensionManager) :=
  mkManager v (info m) (submenus m) (resources m) (menu_items m).
Definition set_info (v : list (string * ext_info)) (m : ExtensionManager) :=
  mkManager (loaded m) v (submenus m) (resources m) (menu_items m).
Definition set_submenus (v : gmap string nat) (m : ExtensionManager) :=
  mkManager (loaded m) (info m) v (resources m) (menu_items m).
Definition set_resources (v : gmap string (list resource)) (m : ExtensionManager) :=
  mkManager (loaded m) (info m) (submenus m) v (menu_items m).
Definition set_menu_items (v : gmap string (list (string * callback))) (m : ExtensionManager) :=
  mkManager (loaded m) (info m) (submenus m) (resources m) v.

(** *** Code that may raise: state passing with an exception result *)

Definition py (A : Type) : Type := world → world * result A.

#[export] Instance py_ret : MRet py := λ A a w, (w, Return a).

#[export] Instance py_bind : MBind py := λ A B k c w,
  match c w with
  | (w', Return a) => k a w'
  | (w', Raise e) => (w', Raise e)
  end.

Definition raise {A} (e : pyexc) : py A := λ w, (w, Raise e).

(** A statement that cannot raise. *)
Definition exec (f : world → world) : py unit := λ w, (f w, Return tt).

(** [try: c  except Exception as e: h e] *)
Definition try_except {A} (c : py A) (h : pyexc → py A) : py A := λ w,
  match c w with
  | (w', Return a) => (w', Return a)
  | (w', Raise e) => h e w'
  end.

(** [try: c  except Exception: pass] *)
Definition try_pass (c : py unit) : py unit := try_except c (λ _, mret tt).

Definition lift {A} (r : result A) : py A := λ w, (w, r).

(** Code that first reads the current state. *)
Definition reading {A} (f : world → py A) : py A := λ w, f w w.

(** *** Python helpers used on the settings values *)

Definition str_truthy (o : option string) : bool :=
  match o with
  | Some s => negb (String.eqb s "")
  | None => false
  end.

Definition pyval_truthy (v : pyval) : bool :=
  match v with
  | VNone => false
  | VBool b => b
  | VInt z => negb (Z.eqb z 0)
  | VStr s => negb (String.eqb s "")
  | VList l => match l with [] => false | _ => true end
  | VDict l => match l with [] => false | _ => true end
  end.

Definition is_str (name : string) (v : pyval) : bool :=
  match v with VStr s => String.eqb s name | _ => false end.

Definition substring (a b : string) : bool :=
  match String.index 0 a b with Some _ => true | None => false end.

(** [name in cur]; on a value that is no container it raises a
    [TypeError] whose text names the type of the value. *)
Definition contains (name : string) (cur : pyval) : result bool :=
  match cur with
  | VList l => Return (existsb (is_str name) l)
  | VStr s => Return (substring name s)
  | VDict l => Return (existsb (λ kv, String.eqb (fst kv) name) l)
  | VNone => Raise (PyError "argument of type 'NoneType' is not iterable")
  | VBool _ => Raise (PyError "argument of type 'bool' is not iterable")
  | VInt _ => Raise (PyError "argument of type 'int' is not iterable")
  end.

(** [v[:]] *)
Definition slice_copy (v : pyval) : result pyval :=
  match v with
  | VList l => Return (VList l)
  | VStr s => Return (VStr s)
  | _ => Raise (PyError "TypeError: object is not subscriptable")
  end.

(** [cur.append(name)] *)
Definition append (name : string) (cur : pyval) : result pyval :=
  match cur with
  | VList l => Return (VList (l ++ [VStr name]))
  | _ => Raise (PyError "AttributeError: append")
  end.

Fixpoint remove_first (name : string) (l : list pyval) : list pyval :=
  match l with
  | [] => []
  | v :: rest => if is_str name v then rest else v :: remove_first name rest
  end.

(** [cur.remove(name)], reached only when [name in cur] *)
Definition remove (name : string) (cur : pyval) : result pyval :=
  match cur with
  | VList l => Return (VList (remove_first name l))
  | _ => Raise (PyError "AttributeError: remove")
  end.

(** [SETTINGS.get('enabled_extensions', [])[:]] *)
Definition enabled_extensions_copy : py pyval :=
  reading (λ w, lift (slice_copy
    (Settings.get_setting "enabled_extensions" (VList []) (w_store w)))).

Definition save_settings (d : gmap string pyval) : py unit :=
  exec (λ w, with_store
               (Settings.save_settings
                  (if w_disk_ok w then Return tt else Raise (PyError "OSError")) d) w).

(** *** The derived menu: [build_extensions_menu] *)

Fixpoint insert_sorted {V} (kv : string * V) (l : list (string * V)) : list (string * V) :=
  match l with
  | [] => [kv]
  | kv' :: rest =>
      if String.leb (fst kv) (fst kv') then kv :: l else kv' :: insert_sorted kv rest
  end.

(** [sorted(ext_manager.info.items())]: by name, the names being distinct *)
Definition sorted_items {V} (d : list (string * V)) : list (string * V) :=
  foldr insert_sorted [] d.

Definition menu_of (m : ExtensionManager) (nm : string * ext_info) : list menu_entry :=
  let '(name, meta) := nm in
  [MCheck name (i_enabled meta)]
  ++ (if str_truthy (i_readme meta) then [MCommand "    Open README"]
      else if str_truthy (i_dir meta) then [MCommand "    Open Folder"]
      else [])
  ++ map (λ lc, MItem ("    " +:+ fst lc) (snd lc)) (default [] (menu_items m !! name)).

Definition derived_menu (m : ExtensionManager) : list menu_entry :=
  [MCommand "拡張機能フォルダを開く"; MCommand "拡張機能を再読み込み"; MSeparator]
  ++ concat (map (menu_of m) (sorted_items (info m))).

Definition build_extensions_menu : py unit :=
  exec (λ w, with_menu_ext (derived_menu (w_mgr w)) w).

(** *** Bookkeeping: [register_resource], [register_menu_item] *)

Definition register_resource (name : string) (r : resource) (m : ExtensionManager) :=
  set_resources (<[name := default [] (resources m !! name) ++ [r]]> (resources m)) m.

Definition register_menu_item (name label : string) (cb : callback) (m : ExtensionManager) :=
  set_menu_items (<[name := default [] (menu_items m !! name) ++ [(label, cb)]]> (menu_items m)) m.

(** *** [ExtensionAPI]: one facade call *)

Definition on_bus (f : EventBus.listeners → EventBus.listeners) (b : EventBus.bus) :=
  EventBus.mkBus (f (EventBus.EVENT_LISTENERS b)) (EventBus.dispatched b)
                 (EventBus.log_lines b).

Definition api_step (name : string) (c : api_call) : py unit :=
  match c with
  | AddCommand label cb => exec (with_mgr (register_menu_item name label cb))
  | RegisterResource r => exec (with_mgr (register_resource name r))
  | On event cb =>
      exec (with_bus (on_bus (EventBus.add_event_listener event cb (Some name) false)))
  | Off event cb =>
      exec (with_bus (on_bus (EventBus.remove_event_listener event (Some cb) (Some name))))
  | SetSetting key value => save_settings {[key := value]}
  | Log message level =>
      exec (with_bus (EventBus.log ("[" +:+ name +:+ "] " +:+ message) level))
  | RaiseExc e => raise e
  end.

(** [mod.setup(api)] / [mod.teardown(api)] with [api = ExtensionAPI(self, name)] *)
Fixpoint run_hook (name : string) (h : hook) : py unit :=
  match h with
  | [] => mret tt
  | c :: rest => api_step name c ;; run_hook name rest
  end.

(** [if hasattr(mod, 'hook') and callable(mod.hook): mod.hook(api)] *)
Definition run_optional (name : string) (h : option hook) : py unit :=
  match h with
  | Some h => run_hook name h
  | None => mret tt
  end.

(** *** [ExtensionManager] methods *)

(** [self.loaded.get(name)], with [if not mod] folded in: a module
    object is truthy, a missing key and [None] are not. *)
Definition loaded_get (name : string) (m : ExtensionManager) : option module :=
  match loaded m !! name with
  | Some (Some md) => Some md
  | _ => None
  end.

(** [self.info.get(name, {}).get('enabled')] *)
Definition info_enabled (name : string) (m : ExtensionManager) : bool :=
  match alist_get name (info m) with
  | Some i => i_enabled i
  | None => false
  end.

(** [self.info.setdefault(name, {})['enabled'] = b] *)
Definition mark_enabled (name : string) (b : bool) (m : ExtensionManager) :=
  set_info (alist_set name
              (set_info_enabled b (default empty_info (alist_get name (info m))))
              (info m)) m.

(** [r.destroy()] or [r()], whichever [_cleanup_resources] picks. *)
Definition dispose (r : resource) : py unit :=
  if r_has_destroy r then
    exec (with_disposed (r_id r, Destroy)) ;; lift (r_outcome r)
  else if r_callable r then
    exec (with_disposed (r_id r, Call)) ;; lift (r_outcome r)
  else mret tt.

Fixpoint cleanup_loop (rs : list resource) : py unit :=
  match rs with
  | [] => mret tt
  | r :: rest => try_pass (dispose r) ;; cleanup_loop rest
  end.

Definition _cleanup_resources (name : string) : py unit :=
  reading (λ w, cleanup_loop (default [] (resources (w_mgr w) !! name))) ;;
  exec (with_mgr (λ m, set_resources (<[name := []]> (resources m)) m)).

(** [get_submenu(name)]; the new [tk.Menu] is a widget that is neither
    among the live submenus nor among the destroyed ones. *)
Definition get_submenu (name : string) : py nat :=
  reading (λ w,
    match submenus (w_mgr w) !! name with
    | Some menu => mret menu
    | None =>
        let menu := size (submenus (w_mgr w)) + length (w_destroyed_menus w) in
        exec (with_menu_ext (w_menu_ext w ++ [MCascade name menu])) ;;
        exec (with_mgr (λ m, set_submenus (<[name := menu]> (submenus m)) m)) ;;
        mret menu
    end).

(** [if name in self.submenus: self.submenus[name].destroy(); del self.submenus[name]] *)
Definition destroy_submenu (name : string) : py unit :=
  reading (λ w,
    match submenus (w_mgr w) !! name with
    | Some menu =>
        exec (with_destroyed_menu menu) ;;
        exec (with_mgr (λ m, set_submenus (delete name (submenus m)) m))
    | None => mret tt
    end).

Definition enable (name : string) : py unit := reading (λ w,
  match loaded_get name (w_mgr w) with
  | None => raise (PyError "Extension not loaded")
  | Some md =>
      (* try: ... except Exception: raise *)
      (exec (with_mgr (λ m, set_resources
               (<[name := default [] (resources m !! name)]> (resources m)) m)) ;;
       exec (with_mgr (λ m, set_menu_items (<[name := []]> (menu_items m)) m)) ;;
       run_optional name (m_setup md) ;;
       exec (with_mgr (mark_enabled name true)) ;;
       cur ← enabled_extensions_copy ;
       isin ← lift (contains name cur) ;
       (if negb isin
        then cur' ← lift (append name cur) ;
             save_settings {["enabled_extensions" := cur']}
        else mret tt) ;;
       build_extensions_menu)
  end).

Definition disable (name : string) : py unit := reading (λ w,
  match loaded_get name (w_mgr w) with
  | None => mret tt
  | Some md =>
      try_pass
        (run_optional name (m_teardown md) ;;
         _cleanup_resources name ;;
         exec (with_mgr (λ m, set_menu_items (<[name := []]> (menu_items m)) m)) ;;
         destroy_submenu name ;;
         exec (with_mgr (mark_enabled name false)) ;;
         cur ← enabled_extensions_copy ;
         isin ← lift (contains name cur) ;
         (if (isin : bool)
          then cur' ← lift (remove name cur) ;
               save_settings {["enabled_extensions" := cur']}
          else mret tt) ;;
         build_extensions_menu)
  end).

(** *** [load_all] *)

(** First loop: [for en in list(self.info.keys())]. *)
Fixpoint disable_loop (names : list string) : py unit :=
  match names with
  | [] => mret tt
  | en :: rest =>
      reading (λ w, if info_enabled en (w_mgr w) then try_pass (disable en)
                    else mret tt) ;;
      disable_loop rest
  end.

(** One iteration of [for name, path in files.items()]. *)
Definition load_one (enabled : pyval) (f : ext_file) : py unit :=
  let name := f_name f in
  try_except
    (md ← lift (f_import f) ;
     exec (with_mgr (λ m, set_loaded (<[name := Some md]> (loaded m)) m)) ;;
     isin ← lift (contains name enabled) ;
     exec (with_mgr (λ m, set_info
             (alist_set name
                (mkInfo (Some (f_path f)) isin (Some (f_dir f))
                        (if f_has_readme f
                         then Some (f_dir f +:+ "/README.md") else None)
                        None)
                (info m)) m)))
    (λ e,
     exec (with_mgr (λ m, set_loaded (<[name := None]> (loaded m)) m)) ;;
     exec (with_mgr (λ m, set_info
             (alist_set name
                (mkInfo (Some (f_path f)) false
                        (if negb (String.eqb (f_path f) "")
                         then Some (f_dir f) else None)
                        None (Some (EventBus.exc_text e)))
                (info m)) m)) ;;
     exec (with_bus (EventBus.log
             ("Failed to load extension " +:+ name +:+ ": " +:+ EventBus.exc_text e)
             "error"))).

Fixpoint load_loop (enabled : pyval) (files : list ext_file) : py unit :=
  match files with
  | [] => mret tt
  | f :: rest => load_one enabled f ;; load_loop enabled rest
  end.

(** Last loop: [for name, meta in list(self.info.items())]; [meta] is
    the dict object that [self.info[name]] still holds. *)
Fixpoint enable_loop (names : list string) : py unit :=
  match names with
  | [] => mret tt
  | name :: rest =>
      reading (λ w, if info_enabled name (w_mgr w) then try_pass (enable name)
                    else mret tt) ;;
      enable_loop rest
  end.

(** [SETTINGS.get('enabled_extensions', []) or []] *)
Definition enabled_or_empty (w : world) : pyval :=
  let v := Settings.get_setting "enabled_extensions" (VList []) (w_store w) in
  if pyval_truthy v then v else VList [].

(** The reload proper, after the enabled extensions have been disabled. *)
Definition reload : py unit :=
  exec (with_mgr (λ m, mkManager ∅ [] (submenus m) ∅ ∅)) ;;
  reading (λ w, load_loop (enabled_or_empty w) (w_ext_dir w)) ;;
  reading (λ w, enable_loop (map fst (info (w_mgr w)))).

Definition load_all : py unit :=
  reading (λ w, disable_loop (map fst (info (w_mgr w)))) ;; reload.

(** *** Reading a hook's script *)

(** The exception a hook ends with, if its script has a [raise]. *)
Fixpoint first_raise (h : hook) : option pyexc :=
  match h with
  | [] => None
  | RaiseExc e :: _ => Some e
  | _ :: rest => first_raise rest
  end.

Definition hook_raise (h : option hook) : option pyexc := h ≫= first_raise.

(** The calls a hook makes before it raises or ends. *)
Fixpoint executed (h : hook) : hook :=
  match h with
  | [] => []
  | RaiseExc _ :: _ => []
  | c :: rest => c :: executed rest
  end.

Definition command_of (c : api_call) : option (string * callback) :=
  match c with AddCommand label cb => Some (label, cb) | _ => None end.

Definition resource_of (c : api_call) : option resource :=
  match c with RegisterResource r => Some r | _ => None end.

(** The menu items and the resources a hook registers. *)
Definition commands_of (h : option hook) : list (string * callback) :=
  omap command_of (executed (default [] h)).

Definition registered_of (h : option hook) : list resource :=
  omap resource_of (executed (default [] h)).

(** The dispose capability of a resource, if it has one, and the entry
    its invocation leaves in [w_disposed]. *)
Definition disposal (r : resource) : option (nat * capability) :=
  if r_has_destroy r then Some (r_id r, Destroy)
  else if r_callable r then Some (r_id r, Call)
  else None.

(** [c] changes the [proj] part of the world only along [R]. *)
Definition preserves {A X} (R : relation X) (proj : world → X) (c : py A) : Prop :=
  ∀ w, R (proj w) (proj (fst (c w))).

End Extensions.

(* ===================================================================== *)
(** ** 4. Debugger worker *)
(* ===================================================================== *)

Module Debugger.

(** The value handed to [set_action]. *)
Inductive action : Type :=
  | step
  | next
  | continue
  | quit
  | other (a : string).

(** The tuples the worker puts on the queue. *)
Inductive message : Type :=
  | stopped (fname : string) (lineno : Z)
  | error (tb : string)
  | finished
  | exited.

#[export] Instance message_eq_dec : EqDecision message.
Proof. solve_decision. Defined.

Definition is_stopped (m : message) : bool :=
  match m with stopped _ _ => true | _ => false end.

(** *** The traced program

    [compile(source, filename, 'exec')] either raises or gives the code
    of a module, which [Bdb.run] executes under [sys.settrace].  The
    worker's own code sees the program only through the calls of
    [user_line]; two kinds of module are modelled.

    [Code body] is a straight line of simple statements, statement [i]
    on line [i + 1], each of which completes or raises an [Exception];
    its line events and what [Bdb] decides on them are modelled
    statement by statement ([exec_lines] below).  The empty list is the
    module of an empty or comment-only source.

    [Traced p] is any other program: blank lines, loops, [try]
    statements, calls into Python code, imports.  Where [user_line] is
    called for it is decided by the interpreter and by
    [Bdb.trace_dispatch], from the program, from the breakpoints the
    [Bdb] instance holds, and from which of [set_step], [set_next] and
    [set_continue] the earlier calls of [user_line] made.  [p] gives
    that decision: [p breaks replies] is what comes once the stops so
    far have been answered by [replies], either the next call of
    [user_line], with the file of the frame and the line, or the end of
    the run. *)
Inductive stmt : Type :=
  | Pass
  | RaiseStmt (e : pyexc).

(** How a run goes on once no line is reported any more. *)
Inductive ending : Type :=
  | Finishes                    (* the module runs to its end *)
  | Uncaught (e : pyexc)        (* an [Exception] leaves the module *)
  | Escapes (text : string)     (* a [BaseException] that is no [Exception]
                                   leaves it: [SystemExit], [KeyboardInterrupt] *)
  | RunsOn.                     (* the module never ends *)

(** What a call of [user_line] did to the tracer before it returned. *)
Inductive reply : Type :=
  | Stepped                     (* [set_step()] *)
  | Nexted                      (* [set_next(frame)] *)
  | Continued                   (* [set_continue()] *)
  | Unchanged.                  (* none of them *)

(** At a stop, [on_quit] is how the run goes on when [user_line] raises
    there.  The interpreter switches tracing off when the trace function
    raises, and the exception surfaces at the line: [BdbQuit] is an
    [Exception], so a handler of the program may catch it, and [finally]
    clauses run; whatever the program does then is not traced. *)
Inductive node : Type :=
  | Stop (co_filename : string) (lineno : Z) (on_quit : ending)
  | Done (e : ending).

Definition tracee : Type := list (string * Z) → list reply → node.

Inductive source : Type :=
  | Unparsable (text : string)
  | Code (body : list stmt)
  | Traced (p : tracee).

(** What [compile] returns. *)
Inductive code : Type :=
  | Lines (body : list stmt)
  | Tracee (p : tracee).

(** [compile(source, filename, 'exec')], [filename] being a string: a
    source that does not parse raises ([SyntaxError], or [ValueError]
    for a null byte), with the text the traceback ends with. *)
Definition compile (src : source) : result code :=
  match src with
  | Unparsable text => Raise (PyError text)
  | Code body => Return (Lines body)
  | Traced p => Return (Tracee p)
  end.

(** *** The standard library's [bdb] and [linecache], as far as the
    worker uses them (CPython, Lib/bdb.py and Lib/linecache.py). *)

Fixpoint last_is (c : ascii) (s : string) : bool :=
  match s with
  | EmptyString => false
  | String a EmptyString => Ascii.eqb a c
  | String _ rest => last_is c rest
  end.

(** [filename.startswith('<') and filename.endswith('>')] *)
Definition pseudo_file (filename : string) : bool :=
  match filename with
  | String a rest => Ascii.eqb a "<"%char && last_is ">"%char rest
  | EmptyString => false
  end.

(** What the debugger window shares with its sessions. *)
Record window : Type := mkWindow {
  q : list message;                      (* queue.Queue(), oldest first *)
  out : list string;                     (* lines of the output pane *)
  bplist : list (string * Z);            (* bdb.Breakpoint.bplist, process wide *)
  abspath : string → string;             (* os.path.abspath, normalised *)
  file_line : string → Z → string        (* lines of the files on disk *)
}.

(** [Bdb.canonic]: names in angle brackets stay as they are. *)
Definition canonic (w : window) (filename : string) : string :=
  if pseudo_file filename then filename else abspath w filename.

(** [linecache.getline]: a name in angle brackets has no lines. *)
Definition linecache_getline (w : window) (filename : string) (lineno : Z) : string :=
  if pseudo_file filename then "" else file_line w filename lineno.

(** How [stop_here] answers for the module's frame: after [reset],
    [set_step] and [set_next(frame)] every line stops; after
    [set_continue] none does. *)
Inductive stop_mode : Type :=
  | EveryLine
  | BreaksOnly.

(** The part of a [bdb.Bdb] instance that matters here. *)
Record Bdb : Type := mkBdb {
  breaks : list (string * Z);            (* Bdb.breaks *)
  mode : stop_mode;
  quitting : bool
}.

(** [Bdb.__init__] ends with [_load_breaks()], which copies the process
    wide breakpoint list into the new instance. *)
Definition Bdb_init (w : window) : Bdb := mkBdb (bplist w) EveryLine false.

(** [Bdb.set_break(filename, lineno)]: the breakpoint is recorded in the
    instance and in the process wide list, unless [linecache] has no such
    line, in which case an error text is returned and nothing changes. *)
Definition set_break (w : window) (b : Bdb) (fname : string) (lineno : Z)
    : Bdb * window * option string :=
  let fname := canonic w fname in
  if String.eqb (linecache_getline w fname lineno) "" then
    (b, w, Some ("Line " +:+ fname +:+ ":" +:+ pretty lineno +:+ " does not exist"))
  else
    (mkBdb (breaks b ++ [(fname, lineno)]) (mode b) (quitting b),
     mkWindow (q w) (out w) (bplist w ++ [(fname, lineno)]) (abspath w) (file_line w),
     None).

(** [_set_stopinfo], which also clears [quitting]. *)
Definition set_mode (m : stop_mode) (b : Bdb) : Bdb := mkBdb (breaks b) m false.

Definition reset : Bdb → Bdb := set_mode EveryLine.
Definition set_step : Bdb → Bdb := set_mode EveryLine.
Definition set_next : Bdb → Bdb := set_mode EveryLine.
Definition set_continue : Bdb → Bdb := set_mode BreaksOnly.

Definition stop_here (b : Bdb) : bool :=
  match mode b with EveryLine => true | BreaksOnly => false end.

Definition break_here (fname : string) (lineno : Z) (b : Bdb) : bool :=
  bool_decide ((fname, lineno) ∈ breaks b).

(** *** [SimpleGuiBdb] *)

Record SimpleGuiBdb : Type := mkGui {
  base : Bdb;
  filename : string;
  _next_action : option action;
  _stop_requested : bool
}.

Definition SimpleGuiBdb_init (w : window) (fname : string) : SimpleGuiBdb :=
  mkGui (Bdb_init w) fname None false.

Definition on_base (f : Bdb → Bdb) (g : SimpleGuiBdb) : SimpleGuiBdb :=
  mkGui (f (base g)) (filename g) (_next_action g) (_stop_requested g).

(** [set_action]: [self._next_action = action; self._wait_event.set()] *)
Definition set_action (a : action) (g : SimpleGuiBdb) : SimpleGuiBdb :=
  mkGui (base g) (filename g) (Some a) (_stop_requested g).

Definition request_stop (g : SimpleGuiBdb) : SimpleGuiBdb :=
  mkGui (base g) (filename g) (_next_action g) true.

(** How a piece of the worker's code ends: it completes; it raises an
    [Exception]; it raises a [BaseException] that is no [Exception]; it
    stays parked on [_wait_event.wait()] because no directive comes; or
    the traced program keeps running for ever. *)
Inductive flow : Type :=
  | Normal
  | Exc (e : pyexc)
  | Esc (text : string)
  | Parked
  | Running.

(** A running session: the tracer, the [set_action] calls the controller
    is going to make (one wakes one parked [user_line]), and the messages
    put on the queue so far. *)
Record session : Type := mkSession {
  gui_bdb : SimpleGuiBdb;
  directives : list action;
  stream : list message
}.

Definition put (m : message) (s : session) : session :=
  mkSession (gui_bdb s) (directives s) (stream s ++ [m]).

(** [user_line(frame)]; [co_filename] and [lineno] are
    [frame.f_code.co_filename] and [frame.f_lineno]. *)
Definition user_line (w : window) (co_filename : string) (lineno : Z) (s : session)
    : session * flow :=
  if _stop_requested (gui_bdb s) then (s, Exc BdbQuit)
  else
    let fname := canonic w co_filename in
    let s := put (stopped fname lineno) s in
    match directives s with
    | [] => (s, Parked)
    | a :: rest =>
        let g := set_action a (gui_bdb s) in
        match a with
        | step => (mkSession (on_base set_step g) rest (stream s), Normal)
        | next => (mkSession (on_base set_next g) rest (stream s), Normal)
        | continue => (mkSession (on_base set_continue g) rest (stream s), Normal)
        | quit => (mkSession (request_stop g) rest (stream s), Exc BdbQuit)
        | other _ => (mkSession g rest (stream s), Normal)
        end
    end.

(** [Bdb.dispatch_line] for a line of the module, whose code carries the
    file name given to [compile]. *)
Definition dispatch_line (w : window) (lineno : Z) (s : session) : session * flow :=
  let b := base (gui_bdb s) in
  if stop_here b || break_here (canonic w (filename (gui_bdb s))) lineno b then
    match user_line w (filename (gui_bdb s)) lineno s with
    | (s', Normal) =>
        if quitting (base (gui_bdb s')) then (s', Exc BdbQuit) else (s', Normal)
    | r => r
    end
  else (s, Normal).

(** The statements of a straight-line module under [sys.settrace]: the
    line event comes before the statement runs, and an exception raised
    by the trace function surfaces in the traced code, which does not
    catch it. *)
Fixpoint exec_lines (w : window) (lineno : Z) (body : list stmt) (s : session)
    : session * flow :=
  match body with
  | [] => (s, Normal)
  | st :: rest =>
      match dispatch_line w lineno s with
      | (s', Normal) =>
          match st with
          | Pass => exec_lines w (lineno + 1) rest s'
          | RaiseStmt e => (s', Exc e)
          end
      | r => r
      end
  end.

(** A module without statements still has one line event, on line 0,
    before it returns. *)
Definition exec_module (w : window) (body : list stmt) (s : session)
    : session * flow :=
  match body with
  | [] => dispatch_line w 0 s
  | _ => exec_lines w 1 body s
  end.

Definition ends (e : ending) : flow :=
  match e with
  | Finishes => Normal
  | Uncaught e => Exc e
  | Escapes text => Esc text
  | RunsOn => Running
  end.

Definition reply_of (a : action) : reply :=
  match a with
  | step => Stepped
  | next => Nexted
  | continue => Continued
  | quit | other _ => Unchanged
  end.

(** A [Traced] module under [sys.settrace]: [user_line] is called where
    the program's description says, [h] being the replies given so far.
    When [user_line] raises, nothing is traced any more and the run goes
    on to the [on_quit] of the stop. *)
Fixpoint exec_traced (w : window) (p : list reply → node) (h : list reply)
    (ds : list action) (g : SimpleGuiBdb) (out : list message) {struct ds}
    : session * flow :=
  match p h with
  | Done e => (mkSession g ds out, ends e)
  | Stop co_filename lineno on_quit =>
      match ds with
      | [] =>
          match user_line w co_filename lineno (mkSession g [] out) with
          | (s', Exc BdbQuit) => (s', ends on_quit)
          | r => r
          end
      | a :: ds' =>
          match user_line w co_filename lineno (mkSession g (a :: ds') out) with
          | (s', Normal) =>
              exec_traced w p (h ++ [reply_of a]) ds' (gui_bdb s') (stream s')
          | (s', Exc BdbQuit) => (s', ends on_quit)
          | r => r
          end
      end
  end.

(** [exec(cmd, globals, locals)] in [Bdb.run], after [sys.settrace]. *)
Definition exec (w : window) (cmd : code) (s : session) : session * flow :=
  match cmd with
  | Lines body => exec_module w body s
  | Tracee p =>
      exec_traced w (p (breaks (base (gui_bdb s)))) [] (directives s) (gui_bdb s)
                  (stream s)
  end.

Definition set_quitting (s : session) : session :=
  mkSession (on_base (λ b, mkBdb (breaks b) (mode b) true) (gui_bdb s))
            (directives s) (stream s).

(** [Bdb.run]:
    [try: exec(cmd, ...)  except BdbQuit: pass  finally: self.quitting = True] *)
Definition run (w : window) (cmd : code) (s : session) : session * flow :=
  let s := mkSession (on_base reset (gui_bdb s)) (directives s) (stream s) in
  match exec w cmd s with
  | (s', Parked) => (s', Parked)
  | (s', Running) => (s', Running)
  | (s', Exc BdbQuit) => (set_quitting s', Normal)
  | (s', f) => (set_quitting s', f)
  end.

Definition nl : string := String "010"%char EmptyString.

(** [traceback.format_exc()]: the header line, then the frames and the
    exception as text.  For an exception of the traced program, or of
    [compile], the text of a [PyError] is the line its traceback ends
    with: the name of the class, a colon, and the message. *)
Definition format_exc (e : pyexc) : string :=
  "Traceback (most recent call last):" +:+ nl
  +:+ match e with BdbQuit => "bdb.BdbQuit" | PyError t => t end +:+ nl.

(** The [try] block of [_thread_runner]: [compile], then [gui_bdb.run]. *)
Definition traced_run (w : window) (src : source) (fname : string)
    (ds : list action) : session * flow :=
  let s := mkSession (SimpleGuiBdb_init w fname) ds [] in
  match compile src with
  | Raise e => (s, Exc e)
  | Return cmd => run w cmd s
  end.

(** [_thread_runner(source, filename)], given the directives to come:
    the messages it puts on the queue and how the thread ends.  The
    [finally] clause runs on every way out of the [try] block; what
    [except Exception] does not catch leaves the thread after it. *)
Definition _thread_runner (w : window) (src : source) (fname : string)
    (ds : list action) : list message * flow :=
  let '(s, f) := traced_run w src fname ds in
  match f with
  | Parked => (stream s, Parked)
  | Running => (stream s, Running)
  | Normal => (stream (put finished s), Normal)
  | Exc BdbQuit => (stream (put finished (put exited s)), Normal)
  | Exc e => (stream (put finished (put (error (format_exc e)) s)), Normal)
  | Esc text => (stream (put finished s), Esc text)
  end.

(** What [compile(source, None, 'exec')] raises, whatever the source. *)
Definition no_filename : string :=
  "TypeError: expected str, bytes or os.PathLike object, not NoneType".

(** [start_debug]; [file] is the module global of that name, which is
    [None] until a file has been opened or saved.  The key exists, so
    [globals().get('file', '<string>')] is then [None], not
    ['<string>'], and the worker's [compile] raises. *)
Definition start_debug (src : source) (file : option string) (ds : list action)
    (w : window) : window * flow :=
  let w := mkWindow (q w) (out w ++ ["Debugger started"]) (bplist w)
                    (abspath w) (file_line w) in
  let '(msgs, f) :=
    match file with
    | Some fname => _thread_runner w src fname ds
    | None => _thread_runner w (Unparsable no_filename) "" ds
    end in
  (mkWindow (q w ++ msgs) (out w) (bplist w) (abspath w) (file_line w), f).

(** [toggle_breakpoint]; [cursor] is [int(text.index('insert').split('.')[0])]. *)
Definition toggle_breakpoint (cursor : result Z) (w : window) : window :=
  match cursor with
  | Raise _ => w
  | Return line =>
      let b := Bdb_init w in
      let '(_, w, _) := set_break w b (canonic w "<string>") line in
      mkWindow (q w) (out w ++ ["Set breakpoint " +:+ pretty line]) (bplist w)
               (abspath w) (file_line w)
  end.

(** *** Reading a session *)

(** The worker is running: no quit was asked for, and none is among
    the directives to come. *)
Definition running (s : session) : Prop :=
  _stop_requested (gui_bdb s) = false
  ∧ quitting (base (gui_bdb s)) = false
  ∧ Forall (λ a, a ≠ quit) (directives s).

(** From [s] to [s'] the worker only reported stops, at most [n] of
    them, each answered by one directive. *)
Definition only_stops (n : nat) (s s' : session) : Prop :=
  ∃ stops, stream s' = stream s ++ stops
           ∧ Forall (λ m, is_stopped m = true) stops
           ∧ length (directives s) ≤ n + length (directives s').

(** The source raises: it does not compile, or its execution ends, on
    whatever stops it is stepped through, with an [Exception] other than
    [BdbQuit] that nothing in it catches. *)
Definition raises (w : window) (src : source) : Prop :=
  match src with
  | Unparsable _ => True
  | Code body => ∃ n text rest, body = replicate n Pass ++ RaiseStmt (PyError text) :: rest
  | Traced p => ∀ h e, p (bplist w) h = Done e → ∃ text, e = Uncaught (PyError text)
  end.

(** The source raises no exception: it compiles, and its execution
    comes to its end on whatever stops it is stepped through. *)
Definition completes (w : window) (src : source) : Prop :=
  match src with
  | Unparsable _ => False
  | Code body => ∃ n, body = replicate n Pass
  | Traced p => ∀ h e, p (bplist w) h = Done e → e = Finishes
  end.

End Debugger.

(* ===================================================================== *)
(** ** 5. Sample extensions and sessions *)
(* ===================================================================== *)

Module Scenario.
Import Extensions.

(** A timer handle: it has a [destroy] method, which returns. *)
Definition timer : resource := mkResource 1 true false (Return tt).

(** [greeter]: [setup] adds one menu item and registers the timer. *)
Definition greeter : module :=
  mkModule (Some [AddCommand "Say Hi" 7; RegisterResource timer])
           (Some [Log "bye" "info"]).

(** The same, with a [teardown] that raises. *)
Definition bad_teardown : module :=
  mkModule (Some [AddCommand "Say Hi" 7; RegisterResource timer])
           (Some [RaiseExc (PyError "teardown failed")]).

(** A [setup] that registers the timer and then raises. *)
Definition bad_setup : module :=
  mkModule (Some [RegisterResource timer; RaiseExc (PyError "setup failed")])
           None.

Definition greeter_file (md : module) : ext_file :=
  mkFile "greeter" "extensions/greeter.py" "extensions" false (Return md).

(** The editor once its start-up [load_all] has run, with one extension
    file in the directory and [enabled] as the persisted enabled list. *)
Definition boot (md : module) (enabled : list pyval) : world :=
  fst (load_all
         (mkWorld (Settings.mkStore {["enabled_extensions" := VList enabled]} None)
                  true (EventBus.mkBus ∅ [] []) (mkManager ∅ [] ∅ ∅ ∅)
                  [] [] [] [greeter_file md])).

(** A debugger window with nothing on its queue and no breakpoints. *)
Definition window0 : Debugger.window :=
  Debugger.mkWindow [] [] [] (λ f, "/home/user/" +:+ f) (λ _ _, "").

End Scenario.

(* ===================================================================== *)
(** ** 6. The extensions menu, the file commands and the settings file *)
(* ===================================================================== *)

Module ExtensionsMenu.
Import Extensions.


End ExtensionsMenu.

Module Facade.
Import Extensions.

(** [ex[self.name] = obj] on the value [SETTINGS] holds under
    ['extensions']: item assignment works on a dict only. *)
Definition item_set (name : string) (obj : pyval) (cur : pyval) : result pyval :=
  match cur with
  | VDict l => Return (VDict (alist_set name obj l))
  | VList _ => Raise (PyError "TypeError: list indices must be integers or slices, not str")
  | _ => Raise (PyError "TypeError: object does not support item assignment")
  end.

(** In-place change of the object stored under [key]: the file on disk
    does not follow. *)
Definition mutate (key : string) (v : pyval) (st : Settings.store) : Settings.store :=
  Settings.mkStore (<[key := v]> (Settings.SETTINGS st)) (Settings.settings_file st).

(** [ExtensionAPI.set_extension_settings(obj)].  [ex] is the very dict
    that [SETTINGS] holds when the key exists, so the assignment changes
    [SETTINGS] before [save_settings] runs; when the key is missing, [ex]
    is a fresh dict that only [save_settings] can store. *)
Definition set_extension_settings (name : string) (obj : pyval) : py unit :=
  reading (λ w,
    match Settings.SETTINGS (w_store w) !! "extensions" with
    | Some cur =>
        ex ← lift (item_set name obj cur) ;
        exec (with_store (mutate "extensions" ex)) ;;
        save_settings {["extensions" := ex]}
    | None =>
        ex ← lift (item_set name obj (VDict [])) ;
        save_settings {["extensions" := ex]}
    end).

(** [ExtensionAPI.get_extension_settings()]:
    [SETTINGS.get('extensions', {}).get(self.name, {})] *)
Definition get_extension_settings (name : string) : py pyval :=
  reading (λ w,
    match Settings.SETTINGS (w_store w) !! "extensions" with
    | Some (VDict l) => mret (default (VDict []) (alist_get name l))
    | Some _ => raise (PyError "AttributeError: get")
    | None => mret (VDict [])
    end).

End Facade.

Module Editor.
Import Extensions.

(** [load_settings()]: what [json.load] gives for the file as the last
    completed write of [save_settings] left it, [{}] when there is no
    file. *)
Definition load_settings (st : Settings.store) : gmap string pyval :=
  default ∅ (Settings.settings_file st).

Definition cr : ascii := "013"%char.
Definition lf : ascii := "010"%char.

(** Reading in text mode with the default [newline=None]: [\r\n] and a
    lone [\r] come back as [\n].  Writing on Linux changes nothing. *)
Fixpoint universal_newlines (s : string) : string :=
  match s with
  | EmptyString => EmptyString
  | String c rest =>
      if Ascii.eqb c cr then
        String lf (match rest with
                   | String c' rest' =>
                       if Ascii.eqb c' lf then universal_newlines rest'
                       else universal_newlines rest
                   | EmptyString => EmptyString
                   end)
      else String c (universal_newlines rest)
  end.

(** [c in s] for a character [c]. *)
Fixpoint has_char (c : ascii) (s : string) : bool :=
  match s with
  | EmptyString => false
  | String a rest => Ascii.eqb a c || has_char c rest
  end.

(** How [with open(fp, 'w', ...) as f: f.write(...)] goes: it completes,
    [open] raises and the file is untouched, or [f.write] raises after
    [open] has truncated the file, leaving [remains] in it. *)
Inductive write_outcome : Type :=
  | Written
  | OpenFailed (e : pyexc)
  | WriteFailed (e : pyexc) (remains : string).

(** What the file commands read and write.  A path names one file. *)
Record editor : Type := mkEditor {
  e_world : world;
  e_text : string;                     (* text.get('1.0', 'end-1c') *)
  e_title : string;                    (* root.title() *)
  e_file : option string;              (* the module-level [file] *)
  e_highlight : bool;                  (* highlight_var.get() *)
  e_disk : string → result string;     (* a file's text, or what reading it raises *)
  e_write : string → write_outcome;
  e_dialogs : list (string * string)   (* msg.showerror(title, message) *)
}.

Definition on_world (w : world) (ed : editor) : editor :=
  mkEditor w (e_text ed) (e_title ed) (e_file ed) (e_highlight ed)
           (e_disk ed) (e_write ed) (e_dialogs ed).

Definition showerror (title message : string) (ed : editor) : editor :=
  mkEditor (e_world ed) (e_text ed) (e_title ed) (e_file ed) (e_highlight ed)
           (e_disk ed) (e_write ed) (e_dialogs ed ++ [(title, message)]).

(** [emit_event(event, ...)] on the editor's bus. *)
Definition emit (E : EventBus.env) (event : string) : py unit := λ w,
  let '(b, r) := EventBus.emit_event E event (w_bus w) in
  (with_bus (λ _, b) w, r).

(** [highlight_text()], as far as the model sees it: the tags of the text
    widget are not part of the state, the [text_changed] event is. *)
Definition highlight_text (E : EventBus.env) : py unit :=
  try_pass (emit E "text_changed").

(** [recent.insert(0, fp)] *)
Definition insert_front (name : string) (cur : pyval) : result pyval :=
  match cur with
  | VList l => Return (VList (VStr name :: l))
  | _ => Raise (PyError "AttributeError: insert")
  end.

(** [recent[:20]] *)
Definition first20 (cur : pyval) : result pyval :=
  match cur with
  | VList l => Return (VList (take 20 l))
  | VStr s => Return (VStr (String.substring 0 20 s))
  | _ => Raise (PyError "TypeError: object is not subscriptable")
  end.

(** The end of the [try] block of [OpenFiles]: the last file, the list of
    recent files and the [file_opened] event. *)
Definition remember (E : EventBus.env) (fp : string) : py unit :=
  save_settings {["last_file" := VStr fp]} ;;
  recent ← reading (λ w, lift (slice_copy
             (Settings.get_setting "recent_files" (VList []) (w_store w)))) ;
  isin ← lift (contains fp recent) ;
  recent ← (if (isin : bool) then lift (remove fp recent) else mret recent) ;
  recent ← lift (insert_front fp recent) ;
  top ← lift (first20 recent) ;
  save_settings {["recent_files" := top]} ;;
  emit E "file_opened".

(** [OpenFiles()]; [fp] is the answer of [fd.askopenfilename()], empty
    when the dialog was cancelled. *)
Definition OpenFiles (E : EventBus.env) (fp : string) (ed : editor) : editor :=
  if String.eqb fp "" then ed
  else
    match e_disk ed fp with
    | Raise e => showerror "読み込みエラー" (EventBus.exc_text e) ed
    | Return raw =>
        let ed := mkEditor (e_world ed) (universal_newlines raw)
                           ("sedit [" +:+ fp +:+ "]") (Some fp) (e_highlight ed)
                           (e_disk ed) (e_write ed) (e_dialogs ed) in
        let '(w, r) := ((if e_highlight ed then highlight_text E else mret tt) ;;
                        remember E fp) (e_world ed) in
        match r with
        | Return _ => on_world w ed
        | Raise e => showerror "読み込みエラー" (EventBus.exc_text e) (on_world w ed)
        end
    end.

(** [SaveFiles()]; [fp] is the answer of [fd.asksaveasfilename()]. *)
Definition SaveFiles (E : EventBus.env) (fp : string) (ed : editor) : editor :=
  if String.eqb fp "" then ed
  else
    let disk_with (content : string) : string → result string :=
      λ p, if String.eqb p fp then Return content else e_disk ed p in
    match e_write ed fp with
    | OpenFailed e => showerror "保存エラー" (EventBus.exc_text e) ed
    | WriteFailed e remains =>
        showerror "保存エラー" (EventBus.exc_text e)
          (mkEditor (e_world ed) (e_text ed) (e_title ed) (e_file ed)
                    (e_highlight ed) (disk_with remains) (e_write ed) (e_dialogs ed))
    | Written =>
        let ed := mkEditor (e_world ed) (e_text ed) ("sedit [" +:+ fp +:+ "]")
                           (Some fp) (e_highlight ed) (disk_with (e_text ed))
                           (e_write ed) (e_dialogs ed) in
        let '(w, r) := emit E "file_saved" (e_world ed) in
        match r with
        | Return _ => on_world w ed
        | Raise e => showerror "保存エラー" (EventBus.exc_text e) (on_world w ed)
        end
    end.

End Editor.

(* ===================================================================== *)
(** ** 7. Scanning the extension directory *)
(* ===================================================================== *)

Module Scan.
Import Extensions.

(** An entry of the extension directory: a plain file, or a directory
    with the names [os.listdir] gives for it, in that order. *)
Inductive node : Type :=
  | FileNode
  | DirNode (children : list string).

(** [s.endswith(suffix)] *)
Fixpoint ends_with (suffix s : string) : bool :=
  if String.eqb suffix s then true
  else match s with
       | EmptyString => false
       | String _ rest => ends_with suffix rest
       end.

(** [os.path.join(a, b)] for a relative [b] and an [a] without a
    trailing separator. *)
Definition join (a b : string) : string := a +:+ "/" +:+ b.

Fixpoint all_dots (s : string) : bool :=
  match s with
  | EmptyString => true
  | String c rest => Ascii.eqb c "."%char && all_dots rest
  end.

(** The part of [s] before its last dot, if it has one. *)
Fixpoint before_last_dot (s : string) : option string :=
  match s with
  | EmptyString => None
  | String c rest =>
      match before_last_dot rest with
      | Some b => Some (String c b)
      | None => if Ascii.eqb c "."%char then Some EmptyString else None
      end
  end.

(** [os.path.splitext(entry)[0]] for a name without separators: the
    extension starts at the last dot, unless only dots come before it. *)
Definition splitext_root (entry : string) : string :=
  match before_last_dot entry with
  | Some b => if all_dots b then entry else b
  | None => entry
  end.

(** [os.path.isdir(os.path.join(self.ext_dir, name))] *)
Definition isdir (listing : list (string * node)) (name : string) : bool :=
  match alist_get name listing with
  | Some (DirNode _) => true
  | _ => false
  end.

(** The entry module of a directory: the first of [{entry}.py],
    [main.py], [__init__.py] that exists, else the first listed name that
    ends in [.py]. *)
Definition entry_module (full entry : string) (children : list string) : option string :=
  match List.find (λ c, bool_decide (c ∈ children))
                  [entry +:+ ".py"; "main.py"; "__init__.py"] with
  | Some c => Some (join full c)
  | None =>
      match List.find (ends_with ".py") children with
      | Some f => Some (join full f)
      | None => None
      end
  end.

(** One iteration of [for entry in os.listdir(self.ext_dir)]. *)
Definition scan_entry (ext_dir : string) (listing : list (string * node))
    (res : list (string * string)) (e : string * node) : list (string * string) :=
  let '(entry, nd) := e in
  let full := join ext_dir entry in
  match nd with
  | DirNode children =>
      match entry_module full entry children with
      | Some found => alist_set entry found res
      | None => res
      end
  | FileNode =>
      if ends_with ".py" entry then
        let name := splitext_root entry in
        if isdir listing name then res
        else alist_set name (join ext_dir entry) res
      else res
  end.

(** [_scan_files()]; [listing] is [os.listdir(self.ext_dir)] with what
    each name is. *)
Definition _scan_files (ext_dir : string) (listing : list (string * node))
    : list (string * string) :=
  foldl (scan_entry ext_dir listing) [] listing.

End Scan.

(* ===================================================================== *)
(** ** 8. The debugger window and the GUI builder's grid *)
(* ===================================================================== *)

Module DebugPanel.
Import Debugger.

(** The line [poll_queue] adds to the output pane for one message (the
    trailing newline of each insert is left out, as for the other lines
    of [out]). *)
Definition render (m : message) : string :=
  match m with
  | stopped fname lineno => "Stopped at " +:+ fname +:+ ":" +:+ pretty lineno
  | error tb => tb
  | finished => "Finished"
  | exited => "Debugger exited"
  end.

(** The debugger window together with the argument of the last
    [_highlight_current] call. *)
Record panel : Type := mkPanel {
  p_window : window;
  highlighted : option (string * Z)
}.

(** The body of the [while True] loop for one message. *)
Definition show (p : panel) (m : message) : panel :=
  let w := p_window p in
  mkPanel (mkWindow (q w) (out w ++ [render m]) (bplist w) (abspath w) (file_line w))
          (match m with
           | stopped fname lineno => Some (fname, lineno)
           | _ => highlighted p
           end).

(** [poll_queue]: [q.get_nowait()] until [queue.Empty]. *)
Definition poll_queue (p : panel) : panel :=
  let w := p_window p in
  foldl show
        (mkPanel (mkWindow [] (out w) (bplist w) (abspath w) (file_line w))
                 (highlighted p))
        (q w).

(** The worker's [q.put] calls between two polls. *)
Definition arrive (msgs : list message) (p : panel) : panel :=
  let w := p_window p in
  mkPanel (mkWindow (q w ++ msgs) (out w) (bplist w) (abspath w) (file_line w))
          (highlighted p).

End DebugPanel.

Module Builder.

Definition grid_size : Z := 16.

(** [round(v / d)] for integers [v] and [d > 0], the quotient being
    exact in floating point: [round] goes to the nearest integer, a tie
    to the even one. *)
Definition round_div (v d : Z) : Z :=
  let q := (v / d)%Z in
  let r := (v mod d)%Z in
  if (2 * r <? d)%Z then q
  else if (d <? 2 * r)%Z then (q + 1)%Z
  else if Z.even q then q else (q + 1)%Z.

(** [def snap(v): return int(round(v / grid_size) * grid_size)], for the
    whole-pixel coordinates the builder passes to it.  The division is
    done in floating point: it is exact, and [snap] is what the code
    computes, as long as a float holds the coordinate exactly
    ([in_range]); beyond that the quotient is rounded before [round]
    sees it. *)
Definition snap (v : Z) : Z := (round_div v grid_size * grid_size)%Z.

(** The whole numbers up to [2 ^ 53]: a float holds each of them, and
    their quotients by 16, exactly. *)
Definition in_range (v : Z) : Prop := (- 2 ^ 53 ≤ v ≤ 2 ^ 53)%Z.

(** [on_motion]: the new position of a dragged item, from its position
    [cur] and the pointer's offset from where the drag began. *)
Definition dragged (cur delta : Z) : Z := snap (cur + delta).

(** [handle_motion]: the new size of the canvas item,
    [max(16, snap(start_w + dx))] by [max(8, snap(start_h + dy))]. *)
Definition resized (start_w start_h dx dy : Z) : Z * Z :=
  (Z.max 16 (snap (start_w + dx)), Z.max 8 (snap (start_h + dy))).

(** [max(1, int(neww/8))] and [max(1, int(newh/16))]: the width in
    characters and the height in lines given to an Entry or Text. *)
Definition chars_of (neww : Z) : Z := Z.max 1 (Z.quot neww 8).
Definition lines_of (newh : Z) : Z := Z.max 1 (Z.quot newh 16).

End Builder.

(* ===================================================================== *)
(** ** 9. Reading the bus, the manager and a session *)
(* ===================================================================== *)

Module Observed.
Import EventBus.

(** The line [_safe_call] writes for a listener that [emit_event] had to
    call itself and that raised. *)
Definition error_logged (E : env) (l : listener) : option (string * string) :=
  if l_threaded l then None
  else if after_ok E (l_cb l) then None
  else match behaviour E (l_cb l) with
       | Raise e => Some ("error", "Extension callback error: " +:+ exc_text e)
       | Return _ => None
       end.

(** Is [l] a subscription of callback [cb] made by [owner]? *)
Definition subscription_of (cb : callback) (owner : string) (l : listener) : bool :=
  bool_decide (l_cb l = cb ∧ l_owner l = Some owner).

End Observed.

Module Views.
Import Extensions.

(** What the manager holds for one extension. *)
Definition slice (name : string) (w : world) :=
  (loaded (w_mgr w) !! name, alist_get name (info (w_mgr w)),
   resources (w_mgr w) !! name, menu_items (w_mgr w) !! name,
   submenus (w_mgr w) !! name).

(** Every extension that is marked enabled has a module object. *)
Definition enabled_are_loaded (m : ExtensionManager) : Prop :=
  ∀ name, info_enabled name m = true → is_Some (loaded_get name m).

(** The descriptor [load_all] leaves for a file whose loading raised [e]. *)
Definition failed_info (f : ext_file) (e : pyexc) : ext_info :=
  mkInfo (Some (f_path f)) false
         (if negb (String.eqb (f_path f) "") then Some (f_dir f) else None)
         None (Some (EventBus.exc_text e)).

(** What one iteration of the loading loop leaves for the file's name:
    the module, unless the import or the [name in enabled] test raised,
    and the descriptor. *)
Definition entry_of (enabled : pyval) (f : ext_file) : option module * ext_info :=
  match f_import f, contains (f_name f) enabled with
  | Return md, Return isin =>
      (Some md,
       mkInfo (Some (f_path f)) isin (Some (f_dir f))
              (if f_has_readme f then Some (f_dir f +:+ "/README.md") else None) None)
  | Return _, Raise e | Raise e, _ => (None, failed_info f e)
  end.

(** What [OpenFiles] does to the world before it turns to the settings. *)
Definition highlighted_world (E : EventBus.env) (ed : Editor.editor) : world :=
  if Editor.e_highlight ed
  then with_bus (λ _, fst (EventBus.emit_event E "text_changed" (w_bus (Editor.e_world ed))))
                (Editor.e_world ed)
  else Editor.e_world ed.

(** A hook that makes no [set_setting] call. *)
Definition no_set_setting (h : option hook) : bool :=
  forallb (λ c, match c with SetSetting _ _ => false | _ => true end) (default [] h).

End Views.

Module Stepping.
Import Debugger.

(** Directives after which the tracer stops on the next line again:
    [step], [next] (the module has one frame) and any value [user_line]
    does not know, which leaves the stop mode as it was. *)
Definition is_stepping (a : action) : bool :=
  match a with
  | step | next | other _ => true
  | continue | quit => false
  end.

(** [n] stops on consecutive lines, the first on line [first]. *)
Definition stops (fname : string) (first : Z) (n : nat) : list message :=
  map (λ i, stopped fname (first + Z.of_nat i)) (seq 0 n).
Arguments stops : simpl never.

(** The tracer stops on every line and nobody asked to quit. *)
Definition single_stepping (g : SimpleGuiBdb) : Prop :=
  mode (base g) = EveryLine ∧ quitting (base g) = false ∧ _stop_requested g = false.

(** The same session with more directives to come. *)
Definition more (ds : list action) (s : session) : session :=
  mkSession (gui_bdb s) (directives s ++ ds) (stream s).

(** What the worker puts on the queue once the [try] block has ended
    with [f]. *)
Definition report (f : flow) : list message :=
  match f with
  | Normal | Esc _ | Exc BdbQuit => [finished]
  | Exc e => [error (format_exc e); finished]
  | Parked | Running => []
  end.

(** What [Bdb.run] and then the worker make of the end of [exec]:
    [Bdb.run] swallows [BdbQuit], and [except Exception] the other
    exceptions. *)
Definition after_run (f : flow) : flow :=
  match f with Exc _ => Normal | f => f end.

End Stepping.

(* ===================================================================== *)
(** ** Sample programs for the debugger *)
(* ===================================================================== *)

Module Programs.
Import Debugger.

Definition mode_after (r : reply) (m : stop_mode) : stop_mode :=
  match r with
  | Stepped | Nexted => EveryLine
  | Continued => BreaksOnly
  | Unchanged => m
  end.

(** A program that runs in the frame of the module alone, given by the
    line events of its run, each with what a [BdbQuit] raised on it leads
    to, and by how the run ends.  [Bdb] stops on a line event when it is
    stepping or the line has a breakpoint. *)
Fixpoint line_events (co_filename canonical : string) (breaks : list (string * Z))
    (m : stop_mode) (events : list (Z * ending)) (fin : ending) (h : list reply)
    : node :=
  match events with
  | [] => Done fin
  | (lineno, on_quit) :: rest =>
      if match m with EveryLine => true | BreaksOnly => false end
         || bool_decide ((canonical, lineno) ∈ breaks)
      then
        match h with
        | [] => Stop co_filename lineno on_quit
        | r :: h' =>
            line_events co_filename canonical breaks (mode_after r m) rest fin h'
        end
      else line_events co_filename canonical breaks m rest fin h
  end.

Definition one_frame (w : window) (fname : string) (events : list (Z * ending))
    (fin : ending) : tracee :=
  λ breaks h, line_events fname (canonic w fname) breaks EveryLine events fin h.

(** [[
try:
    x = 1
except Exception:
    raise ValueError("later")
]]
    A [BdbQuit] raised on line 2 is caught by the handler, which raises
    in its turn; the [try] line is outside the guarded block. *)
Definition guarded (w : window) (fname : string) : tracee :=
  one_frame w fname
    [(1%Z, Uncaught BdbQuit); (2%Z, Uncaught (PyError "ValueError: later"))]
    Finishes.

(** [[
pass
raise SystemExit(3)
]] *)
Definition leaving (w : window) (fname : string) : tracee :=
  one_frame w fname [(1%Z, Uncaught BdbQuit); (2%Z, Uncaught BdbQuit)]
            (Escapes "SystemExit: 3").

(** Two statements with blank lines between them, on lines 1 and 4. *)
Definition gaps (w : window) (fname : string) : tracee :=
  one_frame w fname [(1%Z, Uncaught BdbQuit); (4%Z, Uncaught BdbQuit)] Finishes.

End Programs.

(* ===================================================================== *)
(** ** 10. More sample data *)
(* ===================================================================== *)

Module Samples.
Import Extensions.

(** An environment in which [root.after] and [Thread.start] succeed. *)
Definition calm : EventBus.env :=
  EventBus.mkEnv (λ _, true) (λ _, true) (λ _, Return tt).

Definition two_listeners : EventBus.bus :=
  EventBus.mkBus
    {["file_opened" := [EventBus.mkListener 3 (Some "greeter") false;
                        EventBus.mkListener 4 None true]]} [] [].

(** An extension file whose import raises. *)
Definition broken_file : ext_file :=
  mkFile "broken" "extensions/broken.py" "extensions" false
         (Raise (PyError "SyntaxError: invalid syntax")).

(** The editor before its start-up [load_all], with two extension files. *)
Definition two_files : world :=
  mkWorld (Settings.mkStore {["enabled_extensions" := VList [VStr "greeter"]]} None)
          true (EventBus.mkBus ∅ [] []) (mkManager ∅ [] ∅ ∅ ∅)
          [] [] [] [Scenario.greeter_file Scenario.greeter; broken_file].

(** An extension directory: a package next to a file of the same name, a
    directory without Python files, and plain files. *)
Definition ext_listing : list (string * Scan.node) :=
  [("a.py", Scan.FileNode); ("a", Scan.DirNode ["x.txt"]);
   ("b", Scan.DirNode ["z.py"; "main.py"]); ("c.tar.py", Scan.FileNode);
   ("notes.txt", Scan.FileNode)].

(** An editor with one file on disk and one earlier entry in the list of
    recent files. *)
Definition desk : Editor.editor :=
  Editor.mkEditor
    (mkWorld (Settings.mkStore {["recent_files" := VList [VStr "old.py"]]} None)
             true two_listeners (mkManager ∅ [] ∅ ∅ ∅) [] [] [] [])
    "print(1)" "sedit" None true
    (λ p, if String.eqb p "notes.py" then Return "x = 1"
          else Raise (PyError "[Errno 2] No such file or directory"))
    (λ _, Editor.Written) [].

End Samples.

Section Settings_facts.
Import Settings.

Lemma dict_update_lookup_old (od d : gmap string pyval) (k : string) :
  d !! k = None → dict_update od d !! k = od !! k.
Proof.
  intros Hk. unfold dict_update. rewrite lookup_union_r; done.
Qed.

Lemma dict_update_lookup_new (od d : gmap string pyval) (k : string) (v : pyval) :
  d !! k = Some v → dict_update od d !! k = Some v.
Proof.
  intros Hk. unfold dict_update. by apply lookup_union_Some_l.
Qed.

Lemma dict_truthy_false (d : gmap string pyval) :
  dict_truthy d = false → d = ∅.
Proof.
  unfold dict_truthy. case_bool_decide; [done | discriminate].
Qed.

(** C10: a successful [save_settings(d)] merges: every key that is not in
    [d] keeps its value (and every key of [d] takes [d]'s value); when the
    write raises, the store, and so the in-memory settings map, is exactly
    what it was before the call. *)
Theorem save_settings_merge_or_untouched
    (st : store) (d : gmap string pyval) (write : result unit) :
  match write with
  | Return _ =>
      (∀ k, d !! k = None →
            SETTINGS (save_settings write d st) !! k = SETTINGS st !! k)
      ∧ (∀ k v, d !! k = Some v →
            SETTINGS (save_settings write d st) !! k = Some v)
  | Raise _ => save_settings write d st = st
  end.
Proof.
  destruct write as [[]|e]; [|reflexivity].
  unfold save_settings; simpl.
  destruct (dict_truthy d) eqn:Hd; split; intros k; intros.
  - by apply dict_update_lookup_old.
  - by apply dict_update_lookup_new.
  - reflexivity.
  - apply dict_truthy_false in Hd. subst d. by rewrite lookup_empty in H.
Qed.

End Settings_facts.

(* ===================================================================== *)
(** ** Event bus: removal without a filter, and dispatch *)
(* ===================================================================== *)

Section EventBus_facts.
Import EventBus.

Lemma keeps_no_filter (l : listener) : keeps None None l = true.
Proof. reflexivity. Qed.

Lemma filter_keeps_no_filter (lst : list listener) :
  List.filter (keeps None None) lst = lst.
Proof.
  induction lst as [|l lst IH]; simpl; [done|].
  by rewrite IH.
Qed.

(** C1 (as amended): called with neither a callback nor an owner,
    [remove_event_listener] removes nothing: the third branch of its loop
    keeps every entry, so the table is what it was. *)
Theorem remove_event_listener_no_filter_keeps_all
    (event : string) (m : listeners) :
  remove_event_listener event None None m = m.
Proof.
  unfold remove_event_listener.
  destruct (m !! event) as [[|l lst]|] eqn:Hm; try done.
  rewrite filter_keeps_no_filter. by apply insert_id.
Qed.

(** C1 (as stated) fails: one listener on ["text_changed"], removal with
    neither argument, and the listener is still there. *)
Lemma remove_event_listener_no_filter_not_empty :
  let m : listeners := {["text_changed" := [mkListener 1 None false]]} in
  remove_event_listener "text_changed" None None m !! "text_changed"
    = Some [mkListener 1 None false]
  ∧ remove_event_listener "text_changed" None None m !! "text_changed" ≠ Some [].
Proof.
  assert (remove_event_listener "text_changed" None None
            {["text_changed" := [mkListener 1 None false]]} !! "text_changed"
          = Some [mkListener 1 None false]) as H by (by vm_compute).
  simpl. rewrite H. split; [done | discriminate].
Qed.

Lemma except_pass_returns {S : Type} (r : S * result unit) :
  except_pass r = (fst r, Return tt).
Proof. by destruct r as [s [[]|e]]. Qed.

Lemma dispatch_one_listeners (E : env) (l : listener) (b : bus) :
  EVENT_LISTENERS (fst (dispatch_one E l b)) = EVENT_LISTENERS b.
Proof.
  unfold dispatch_one, _safe_call.
  destruct (l_threaded l), (thread_ok E (l_cb l)), (after_ok E (l_cb l));
    try done; by destruct (behaviour E (l_cb l)).
Qed.

Lemma dispatch_one_dispatched (E : env) (l : listener) (b : bus) :
  dispatched (fst (dispatch_one E l b))
    = dispatched b ++ option_list (dispatch_of E l).
Proof.
  unfold dispatch_one, dispatch_of, _safe_call.
  destruct (l_threaded l), (thread_ok E (l_cb l)), (after_ok E (l_cb l));
    simpl; rewrite ?app_nil_r; try done; by destruct (behaviour E (l_cb l)).
Qed.

Lemma emit_loop_spec (E : env) (ls : list listener) (b : bus) :
  snd (emit_loop E ls b) = Return tt
  ∧ EVENT_LISTENERS (fst (emit_loop E ls b)) = EVENT_LISTENERS b
  ∧ dispatched (fst (emit_loop E ls b))
      = dispatched b ++ omap (dispatch_of E) ls.
Proof.
  revert b. induction ls as [|l ls IH]; intros b; simpl.
  - by rewrite app_nil_r.
  - rewrite except_pass_returns.
    destruct (IH (fst (dispatch_one E l b))) as (Hr & Hl & Hd).
    rewrite Hr, Hl, Hd, dispatch_one_listeners, dispatch_one_dispatched.
    repeat split; [].
    rewrite <- app_assoc. f_equal. by destruct (dispatch_of E l).
Qed.

(** C6: [emit_event] returns normally whatever the listeners do; it
    leaves the listener table as it was, so a listener that throws stays
    registered; every listener of the event is dispatched (the threaded
    ones provided their thread can be started); and which listeners are
    dispatched, and how, does not depend on what any listener does when
    it runs. *)
Theorem emit_event_isolates_listeners (E : env) (event : string) (b : bus) :
  let r := emit_event E event b in
  snd r = Return tt
  ∧ EVENT_LISTENERS (fst r) = EVENT_LISTENERS b
  ∧ (∀ l, l ∈ default [] (EVENT_LISTENERS b !! event) →
          (l_threaded l = true → thread_ok E (l_cb l) = true) →
          ∃ h, (l_cb l, h) ∈ dispatched (fst r))
  ∧ (∀ beh' : callback → result unit,
        dispatched (fst (emit_event (mkEnv (after_ok E) (thread_ok E) beh') event b))
        = dispatched (fst r)).
Proof.
  unfold emit_event; simpl.
  set (ls := default [] (EVENT_LISTENERS b !! event)).
  destruct (emit_loop_spec E ls b) as (Hr & Hl & Hd).
  split; [done|]. split; [done|]. split.
  - intros l Hin Hth. rewrite Hd.
    destruct (dispatch_of E l) as [[cb h]|] eqn:Hof.
    + exists h. apply elem_of_app. right.
      apply list_elem_of_omap. exists l. split; [done|].
      rewrite Hof. f_equal. f_equal.
      unfold dispatch_of in Hof.
      destruct (l_threaded l), (thread_ok E (l_cb l)); congruence.
    + unfold dispatch_of in Hof.
      destruct (l_threaded l); [|done].
      rewrite Hth in Hof; done.
  - intros beh'.
    destruct (emit_loop_spec (mkEnv (after_ok E) (thread_ok E) beh') ls b)
      as (_ & _ & Hd').
    rewrite Hd, Hd'. f_equal.
Qed.

End EventBus_facts.

(* ===================================================================== *)
(** ** Extension manager: what each step leaves alone *)
(* ===================================================================== *)

Section Preserves.
Import Extensions.
Context {X : Type} (R : relation X) `{!PreOrder R} (proj : world → X).

Lemma preserves_ret {A} (a : A) : preserves R proj (mret a).
Proof. intros w. reflexivity. Qed.

Lemma preserves_raise {A} (e : pyexc) : preserves R proj (raise e : py A).
Proof. intros w. reflexivity. Qed.

Lemma preserves_lift {A} (r : result A) : preserves R proj (lift r).
Proof. intros w. reflexivity. Qed.

Lemma preserves_exec (f : world → world) :
  (∀ w, R (proj w) (proj (f w))) → preserves R proj (exec f).
Proof. intros Hf w. apply Hf. Qed.

Lemma preserves_bind {A B} (c : py A) (k : A → py B) :
  preserves R proj c → (∀ a, preserves R proj (k a)) →
  preserves R proj (c ≫= k).
Proof.
  intros Hc Hk w. unfold mbind, py_bind.
  specialize (Hc w). destruct (c w) as [w' [a|e]]; simpl in *; [|done].
  etrans; [exact Hc | apply Hk].
Qed.

Lemma preserves_reading {A} (f : world → py A) :
  (∀ w0, preserves R proj (f w0)) → preserves R proj (reading f).
Proof. intros Hf w. apply Hf. Qed.

Lemma preserves_try_except {A} (c : py A) (h : pyexc → py A) :
  preserves R proj c → (∀ e, preserves R proj (h e)) →
  preserves R proj (try_except c h).
Proof.
  intros Hc Hh w. unfold try_except.
  specialize (Hc w). destruct (c w) as [w' [a|e]]; simpl in *; [done|].
  etrans; [exact Hc | apply Hh].
Qed.

Lemma preserves_try_pass (c : py unit) :
  preserves R proj c → preserves R proj (try_pass c).
Proof.
  intros Hc. apply preserves_try_except; [done|].
  intros e. apply preserves_ret.
Qed.

End Preserves.

(** Splits a goal [preserves R proj c] along the structure of [c]; what is
    left are the plain state updates. *)
Ltac frame_step :=
  lazymatch goal with
  | |- PreOrder _ => apply _
  | |- ∀ _, _ => intros ?
  | |- Extensions.preserves _ _ (mbind _ _) => apply preserves_bind
  | |- Extensions.preserves _ _ (mret _) => apply preserves_ret
  | |- Extensions.preserves _ _ (Extensions.raise _) => apply preserves_raise
  | |- Extensions.preserves _ _ (Extensions.lift _) => apply preserves_lift
  | |- Extensions.preserves _ _ (Extensions.try_pass _) => apply preserves_try_pass
  | |- Extensions.preserves _ _ (Extensions.try_except _ _) => apply preserves_try_except
  | |- Extensions.preserves _ _ (Extensions.reading _) => apply preserves_reading
  | |- Extensions.preserves _ _ (Extensions.exec _) => apply preserves_exec
  | |- Extensions.preserves _ _ (match ?x with _ => _ end) => destruct x
  end.

Ltac frame := repeat frame_step; try reflexivity.

Section Extensions_facts.
Import Extensions.

Lemma preserves_weaken {A X} (R R' : relation X) (proj : world → X) (c : py A) :
  (∀ x y, R x y → R' x y) → preserves R proj c → preserves R' proj c.
Proof. intros HR Hc w. apply HR, Hc. Qed.

(** A hook run for [name] reaches the world through the facade only. *)
Lemma run_hook_frame {X} (proj : world → X) (name : string) (h : hook) :
  (∀ w f, proj (with_bus f w) = proj w) →
  (∀ w f, proj (with_store f w) = proj w) →
  (∀ w label cb, proj (with_mgr (register_menu_item name label cb) w) = proj w) →
  (∀ w r, proj (with_mgr (register_resource name r) w) = proj w) →
  preserves eq proj (run_hook name h).
Proof.
  intros Hbus Hstore Hmenu Hres.
  induction h as [|c h IH]; simpl; frame; [|exact IH].
  destruct c; simpl; unfold save_settings; frame; by rewrite ?Hbus, ?Hstore, ?Hmenu, ?Hres.
Qed.

Lemma run_optional_frame {X} (proj : world → X) (name : string) (h : option hook) :
  (∀ w f, proj (with_bus f w) = proj w) →
  (∀ w f, proj (with_store f w) = proj w) →
  (∀ w label cb, proj (with_mgr (register_menu_item name label cb) w) = proj w) →
  (∀ w r, proj (with_mgr (register_resource name r) w) = proj w) →
  preserves eq proj (run_optional name h).
Proof.
  intros. destruct h; simpl; [by apply run_hook_frame | frame].
Qed.

Lemma cleanup_loop_frame {X} (proj : world → X) (rs : list resource) :
  (∀ w d, proj (with_disposed d w) = proj w) →
  preserves eq proj (cleanup_loop rs).
Proof.
  intros Hd. induction rs as [|r rs IH]; simpl; frame; [|exact IH].
  unfold dispose. frame; by rewrite Hd.
Qed.

Lemma alist_get_set_ne {V} (k k' : string) (v : V) (d : list (string * V)) :
  k ≠ k' → alist_get k' (alist_set k v d) = alist_get k' d.
Proof.
  intros Hne. induction d as [|[k0 v0] d IH]; simpl.
  - destruct (String.eqb_spec k' k); congruence.
  - destruct (String.eqb_spec k k0); simpl.
    + subst k0. destruct (String.eqb_spec k' k); congruence.
    + by rewrite IH.
Qed.

Lemma alist_get_set_eq {V} (k : string) (v : V) (d : list (string * V)) :
  alist_get k (alist_set k v d) = Some v.
Proof.
  induction d as [|[k0 v0] d IH]; simpl.
  - by rewrite String.eqb_refl.
  - destruct (String.eqb_spec k k0) as [->|Hne]; simpl.
    + by rewrite String.eqb_refl.
    + destruct (String.eqb_spec k k0); [done | exact IH].
Qed.

(** [disable] *)
Lemma disable_loaded (name : string) :
  preserves eq (λ w, loaded (w_mgr w)) (disable name).
Proof.
  unfold disable, _cleanup_resources, destroy_submenu, enabled_extensions_copy,
    build_extensions_menu, save_settings.
  frame.
  - by apply run_optional_frame.
  - by apply cleanup_loop_frame.
Qed.

Lemma disable_resources_other (name other : string) :
  name ≠ other →
  preserves eq (λ w, resources (w_mgr w) !! other) (disable name).
Proof.
  intros Hne.
  unfold disable, _cleanup_resources, destroy_submenu, enabled_extensions_copy,
    build_extensions_menu, save_settings.
  frame.
  - apply run_optional_frame; try done.
    intros w r. simpl. by rewrite lookup_insert_ne.
  - by apply cleanup_loop_frame.
  - simpl. by rewrite lookup_insert_ne.
Qed.

Lemma disable_info_enabled_other (name other : string) :
  name ≠ other →
  preserves eq (λ w, info_enabled other (w_mgr w)) (disable name).
Proof.
  intros Hne.
  unfold disable, _cleanup_resources, destroy_submenu, enabled_extensions_copy,
    build_extensions_menu, save_settings.
  frame.
  - by apply run_optional_frame.
  - by apply cleanup_loop_frame.
  - unfold info_enabled. simpl. by rewrite alist_get_set_ne.
Qed.

Lemma cleanup_loop_disposed_grows (rs : list resource) :
  preserves prefix w_disposed (cleanup_loop rs).
Proof.
  induction rs as [|r rs IH]; simpl; frame; [|exact IH].
  unfold dispose. frame; simpl; by apply prefix_app_r.
Qed.

Lemma disable_disposed_grows (name : string) :
  preserves prefix w_disposed (disable name).
Proof.
  unfold disable, _cleanup_resources, destroy_submenu, enabled_extensions_copy,
    build_extensions_menu, save_settings.
  frame.
  - apply (preserves_weaken eq); [by intros ?? -> | by apply run_optional_frame].
  - apply cleanup_loop_disposed_grows.
Qed.


(** *** What a hook's run does *)

Lemma bind_run {A B} (c : py A) (k : A → py B) (w : world) :
  (c ≫= k) w = match c w with
               | (w', Return a) => k a w'
               | (w', Raise e) => (w', Raise e)
               end.
Proof. reflexivity. Qed.

Lemma bind_exec {B} (f : world → world) (k : unit → py B) (w : world) :
  (exec f ≫= k) w = k tt (f w).
Proof. reflexivity. Qed.

Lemma api_step_result (name : string) (c : api_call) (w : world) :
  snd (api_step name c w)
  = match c with RaiseExc e => Raise e | _ => Return tt end.
Proof. by destruct c. Qed.

Lemma run_hook_result (name : string) (h : hook) (w : world) :
  snd (run_hook name h w)
  = match first_raise h with Some e => Raise e | None => Return tt end.
Proof.
  revert w. induction h as [|c h IH]; intros w; simpl; [done|].
  rewrite bind_run. pose proof (api_step_result name c w) as Hc.
  destruct (api_step name c w) as [w' [[]|e]]; simpl in Hc.
  - rewrite IH. by destruct c.
  - by destruct c; simplify_eq.
Qed.

Lemma run_hook_menu_items (name : string) (h : hook) (w : world)
    (l : list (string * callback)) :
  menu_items (w_mgr w) !! name = Some l →
  menu_items (w_mgr (fst (run_hook name h w))) !! name
  = Some (l ++ omap command_of (executed h)).
Proof.
  revert w l. induction h as [|c h IH]; intros w l Hl; simpl.
  - by rewrite app_nil_r.
  - rewrite bind_run.
    destruct c; simpl; unfold save_settings, exec, raise; simpl;
      try (by rewrite (IH _ l)); try (by rewrite app_nil_r).
    rewrite (IH _ (l ++ [(label, cb)])).
    + by rewrite <- app_assoc.
    + simpl. rewrite Hl. simpl. by rewrite lookup_insert_eq.
Qed.

Lemma run_hook_resources (name : string) (h : hook) (w : world) :
  default [] (resources (w_mgr (fst (run_hook name h w))) !! name)
  = default [] (resources (w_mgr w) !! name) ++ omap resource_of (executed h).
Proof.
  revert w. induction h as [|c h IH]; intros w; simpl.
  - by rewrite app_nil_r.
  - rewrite bind_run.
    destruct c; simpl; unfold save_settings, exec, raise; simpl;
      try (by rewrite IH); try (by rewrite app_nil_r).
    rewrite IH. simpl. rewrite lookup_insert_eq. simpl.
    by rewrite <- app_assoc.
Qed.

Lemma cleanup_loop_result (rs : list resource) (w : world) :
  snd (cleanup_loop rs w) = Return tt.
Proof.
  revert w. induction rs as [|r rs IH]; intros w; simpl; [done|].
  rewrite bind_run. unfold try_pass, try_except.
  destruct (dispose r w) as [w' [[]|e]]; simpl; apply IH.
Qed.

Lemma dispose_disposed (r : resource) (w : world) :
  w_disposed (fst (dispose r w)) = w_disposed w ++ option_list (disposal r).
Proof.
  unfold dispose, disposal.
  destruct (r_has_destroy r), (r_callable r); simpl; rewrite ?app_nil_r;
    try done; rewrite bind_run; simpl; by destruct (r_outcome r).
Qed.

Lemma cleanup_loop_disposed (rs : list resource) (w : world) :
  w_disposed (fst (cleanup_loop rs w)) = w_disposed w ++ omap disposal rs.
Proof.
  revert w. induction rs as [|r rs IH]; intros w; simpl.
  - by rewrite app_nil_r.
  - rewrite bind_run. unfold try_pass, try_except.
    pose proof (dispose_disposed r w) as Hd.
    destruct (dispose r w) as [w' [[]|e]]; simpl in *; rewrite IH, Hd;
      rewrite <- app_assoc; f_equal; by destruct (disposal r).
Qed.


Lemma try_pass_result (c : py unit) (w : world) : snd (try_pass c w) = Return tt.
Proof. unfold try_pass, try_except. by destruct (c w) as [w' [[]|e]]. Qed.

Lemma run_optional_result (name : string) (h : option hook) (w : world) :
  snd (run_optional name h w)
  = match hook_raise h with Some e => Raise e | None => Return tt end.
Proof. destruct h as [h|]; simpl; [apply run_hook_result | done]. Qed.

Lemma run_optional_menu_items (name : string) (h : option hook) (w : world)
    (l : list (string * callback)) :
  menu_items (w_mgr w) !! name = Some l →
  menu_items (w_mgr (fst (run_optional name h w))) !! name
  = Some (l ++ commands_of h).
Proof.
  destruct h as [h|]; simpl; [apply run_hook_menu_items|].
  intros ->. unfold commands_of. simpl. by rewrite app_nil_r.
Qed.

Lemma run_optional_resources (name : string) (h : option hook) (w : world) :
  default [] (resources (w_mgr (fst (run_optional name h w))) !! name)
  = default [] (resources (w_mgr w) !! name) ++ registered_of h.
Proof.
  destruct h as [h|]; simpl; [apply run_hook_resources|].
  unfold registered_of. simpl. by rewrite app_nil_r.
Qed.

(** *** [enable] *)

Lemma enable_not_loaded (name : string) (w : world) :
  loaded_get name (w_mgr w) = None →
  enable name w = (w, Raise (PyError "Extension not loaded")).
Proof. intros Hl. unfold enable, reading. by rewrite Hl. Qed.

Lemma enable_setup_raises (name : string) (w : world) (md : module) (e : pyexc) :
  loaded_get name (w_mgr w) = Some md →
  hook_raise (m_setup md) = Some e →
  snd (enable name w) = Raise e
  ∧ info (w_mgr (fst (enable name w))) = info (w_mgr w).
Proof.
  intros Hl He. unfold enable, reading. rewrite Hl.
  rewrite !bind_exec, bind_run.
  match goal with |- context [run_optional name (m_setup md) ?w1] =>
    pose proof (run_optional_result name (m_setup md) w1) as Hr;
    pose proof (run_optional_frame (λ w, info (w_mgr w)) name (m_setup md)
                  ltac:(done) ltac:(done) ltac:(done) ltac:(done) w1) as Hi;
    destruct (run_optional name (m_setup md) w1) as [w2 r]
  end.
  simpl in *. rewrite He in Hr. subst r. simpl. by split.
Qed.

Lemma enable_menu_items (name : string) (w : world) (md : module) :
  loaded_get name (w_mgr w) = Some md →
  menu_items (w_mgr (fst (enable name w))) !! name = Some (commands_of (m_setup md)).
Proof.
  intros Hl. unfold enable, reading. rewrite Hl.
  rewrite !bind_exec, bind_run.
  match goal with |- context [run_optional name (m_setup md) ?w1] =>
    pose proof (run_optional_menu_items name (m_setup md) w1 []) as Hm;
    destruct (run_optional name (m_setup md) w1) as [w2 r]
  end.
  simpl in Hm. rewrite lookup_insert_eq in Hm. specialize (Hm eq_refl).
  destruct r as [[]|e]; [|exact Hm].
  match goal with |- context [fst (?c w2)] =>
    assert (preserves eq (λ w, menu_items (w_mgr w)) c) as Hp
  end.
  { unfold enabled_extensions_copy, build_extensions_menu, save_settings. frame. }
  rewrite <- (Hp w2). exact Hm.
Qed.


(** *** [disable] *)

Lemma disable_result (name : string) (w : world) : snd (disable name w) = Return tt.
Proof.
  unfold disable, reading. destruct (loaded_get name (w_mgr w)); [|done].
  apply try_pass_result.
Qed.

Lemma loaded_get_disable (name other : string) (w : world) :
  loaded_get other (w_mgr (fst (disable name w))) = loaded_get other (w_mgr w).
Proof. unfold loaded_get. by rewrite <- (disable_loaded name w). Qed.

(** A teardown that raises ends [disable] on the spot: the exception is
    swallowed and nothing after the hook runs. *)
Lemma disable_teardown_raises (name : string) (w : world) (md : module) (e : pyexc) :
  loaded_get name (w_mgr w) = Some md →
  hook_raise (m_teardown md) = Some e →
  disable name w = (fst (run_optional name (m_teardown md) w), Return tt).
Proof.
  intros Hl He. unfold disable, reading. rewrite Hl.
  unfold try_pass, try_except. rewrite bind_run.
  pose proof (run_optional_result name (m_teardown md) w) as Hr.
  destruct (run_optional name (m_teardown md) w) as [w1 r]. simpl in *.
  rewrite He in Hr. by subst r.
Qed.

Lemma try_pass_fst (c : py unit) (w : world) : fst (try_pass c w) = fst (c w).
Proof. unfold try_pass, try_except. by destruct (c w) as [w' [[]|e]]. Qed.

Lemma bind_tail_preserved {A B X} (proj : world → X) (c : py A) (k : A → py B)
    (w : world) :
  (∀ a, preserves eq proj (k a)) →
  proj (fst ((c ≫= k) w)) = proj (fst (c w)).
Proof.
  intros Hk. rewrite bind_run.
  destruct (c w) as [w' [a|e]]; simpl; [symmetry; apply Hk | done].
Qed.

Lemma cleanup_resources_result (name : string) (w : world) :
  snd (_cleanup_resources name w) = Return tt.
Proof.
  unfold _cleanup_resources, reading. rewrite bind_run.
  pose proof (cleanup_loop_result (default [] (resources (w_mgr w) !! name)) w) as Hr.
  destruct (cleanup_loop _ w) as [w' r]. simpl in Hr. by subst r.
Qed.

Lemma cleanup_resources_disposed (name : string) (w : world) :
  w_disposed (fst (_cleanup_resources name w))
  = w_disposed w ++ omap disposal (default [] (resources (w_mgr w) !! name)).
Proof.
  unfold _cleanup_resources.
  rewrite (bind_tail_preserved w_disposed); [|intros; frame].
  apply cleanup_loop_disposed.
Qed.

(** A teardown that returns is followed by the disposal of everything
    registered for the extension, the teardown's own registrations
    included. *)
Lemma disable_disposes (name : string) (w : world) (md : module) :
  loaded_get name (w_mgr w) = Some md →
  hook_raise (m_teardown md) = None →
  w_disposed (fst (disable name w))
  = w_disposed w
    ++ omap disposal (default [] (resources (w_mgr w) !! name)
                      ++ registered_of (m_teardown md)).
Proof.
  intros Hl He. unfold disable, reading. rewrite Hl.
  rewrite try_pass_fst, bind_run.
  pose proof (run_optional_result name (m_teardown md) w) as Hr.
  pose proof (run_optional_resources name (m_teardown md) w) as Hres.
  pose proof (run_optional_frame w_disposed name (m_teardown md)
                ltac:(done) ltac:(done) ltac:(done) ltac:(done) w) as Hd.
  destruct (run_optional name (m_teardown md) w) as [w1 r]. simpl in *.
  rewrite He in Hr. subst r.
  rewrite (bind_tail_preserved w_disposed).
  - by rewrite cleanup_resources_disposed, Hres, Hd.
  - intros _. unfold destroy_submenu, enabled_extensions_copy,
      build_extensions_menu, save_settings. frame.
Qed.

Lemma enable_disposed (name : string) : preserves eq w_disposed (enable name).
Proof.
  unfold enable, enabled_extensions_copy, build_extensions_menu, save_settings.
  frame. by apply run_optional_frame.
Qed.

(** *** [load_all] *)

Lemma disable_loop_result (names : list string) (w : world) :
  snd (disable_loop names w) = Return tt.
Proof.
  revert w. induction names as [|en names IH]; intros w; simpl; [done|].
  rewrite bind_run. unfold reading at 1.
  destruct (info_enabled en (w_mgr w)); simpl; [|apply IH].
  pose proof (try_pass_result (disable en) w) as Hr.
  destruct (try_pass (disable en) w) as [w' r]. simpl in Hr. subst r. apply IH.
Qed.

Lemma disable_loop_disposed_grows (names : list string) :
  preserves prefix w_disposed (disable_loop names).
Proof.
  induction names as [|en names IH]; simpl; frame;
    [apply disable_disposed_grows | exact IH].
Qed.

Lemma load_one_disposed (enabled : pyval) (f : ext_file) :
  preserves eq w_disposed (load_one enabled f).
Proof. unfold load_one. frame. Qed.

Lemma reload_disposed : preserves eq w_disposed reload.
Proof.
  unfold reload. frame.
  - induction (w_ext_dir w0) as [|f fs IH]; simpl; frame;
      [apply load_one_disposed | exact IH].
  - induction (map fst (info (w_mgr w0))) as [|n ns IH]; simpl; frame;
      [apply enable_disposed | exact IH].
Qed.

Lemma load_loop_result (enabled : pyval) (files : list ext_file) (w : world) :
  snd (load_loop enabled files w) = Return tt.
Proof.
  revert w. induction files as [|f files IH]; intros w; simpl; [done|].
  rewrite bind_run.
  assert (snd (load_one enabled f w) = Return tt) as Hone.
  { unfold load_one, try_except. rewrite bind_run. unfold lift at 1.
    destruct (f_import f) as [md|e]; [|done].
    rewrite bind_exec, bind_run. unfold lift at 1.
    by destruct (contains (f_name f) enabled). }
  destruct (load_one enabled f w) as [w' r]. simpl in Hone. subst r. apply IH.
Qed.

Lemma enable_loop_result (names : list string) (w : world) :
  snd (enable_loop names w) = Return tt.
Proof.
  revert w. induction names as [|n names IH]; intros w; simpl; [done|].
  rewrite bind_run. unfold reading at 1.
  destruct (info_enabled n (w_mgr w)); simpl; [|apply IH].
  pose proof (try_pass_result (enable n) w) as Hr.
  destruct (try_pass (enable n) w) as [w' r]. simpl in Hr. subst r. apply IH.
Qed.

Lemma reload_result (w : world) : snd (reload w) = Return tt.
Proof.
  unfold reload. rewrite bind_exec, bind_run. unfold reading at 1.
  match goal with |- context [load_loop ?en ?fs ?w1] =>
    pose proof (load_loop_result en fs w1) as Hr;
    destruct (load_loop en fs w1) as [w2 r]
  end.
  simpl in Hr. subst r. apply enable_loop_result.
Qed.

Lemma load_all_disposed (w : world) :
  w_disposed (fst (load_all w))
  = w_disposed (fst (disable_loop (map fst (info (w_mgr w))) w)).
Proof.
  unfold load_all.
  rewrite (bind_tail_preserved w_disposed); [done|].
  intros _. apply reload_disposed.
Qed.

Lemma alist_get_in_keys {V} (k : string) (v : V) (d : list (string * V)) :
  alist_get k d = Some v → k ∈ map fst d.
Proof.
  induction d as [|[k0 v0] d IH]; simpl; [done|].
  destruct (String.eqb_spec k k0) as [->|Hne]; intros H.
  - apply list_elem_of_here.
  - apply list_elem_of_further. by apply IH.
Qed.

(** The first loop of [load_all]: an enabled, loaded extension whose
    teardown returns gets every disposable resource disposed of. *)
Lemma disable_loop_disposes (name : string) (md : module) (r : resource)
    (d : nat * capability) (names : list string) (w : world) :
  name ∈ names →
  loaded_get name (w_mgr w) = Some md →
  info_enabled name (w_mgr w) = true →
  hook_raise (m_teardown md) = None →
  r ∈ default [] (resources (w_mgr w) !! name) →
  disposal r = Some d →
  ∃ pre post,
    w_disposed (fst (disable_loop names w)) = w_disposed w ++ pre ++ d :: post.
Proof.
  intros Hin Hl Hen Htd Hr Hd. revert w Hin Hl Hen Hr.
  induction names as [|en names IH]; intros w Hin Hl Hen Hr.
  - by apply elem_of_nil in Hin.
  - simpl. rewrite bind_run. unfold reading at 1.
    destruct (decide (en = name)) as [->|Hne].
    + rewrite Hen.
      pose proof (try_pass_result (disable name) w) as Hres.
      pose proof (try_pass_fst (disable name) w) as Hfst.
      destruct (try_pass (disable name) w) as [w' res]. simpl in *. subst res.
      destruct (disable_loop_disposed_grows names w') as [post' Hpost].
      rewrite Hpost, Hfst, (disable_disposes name w md Hl Htd), omap_app.
      assert (d ∈ omap disposal (default [] (resources (w_mgr w) !! name))) as Hd'.
      { apply list_elem_of_omap. eauto. }
      apply list_elem_of_split in Hd' as (l1 & l2 & ->).
      exists l1, (l2 ++ omap disposal (registered_of (m_teardown md)) ++ post').
      by rewrite <- !app_assoc.
    + assert (name ∈ names) as Hin'.
      { apply elem_of_cons in Hin as [?|?]; [congruence | done]. }
      assert (∃ w', (if info_enabled en (w_mgr w) then try_pass (disable en)
                     else mret tt) w = (w', Return tt)
                    ∧ loaded_get name (w_mgr w') = loaded_get name (w_mgr w)
                    ∧ info_enabled name (w_mgr w') = info_enabled name (w_mgr w)
                    ∧ resources (w_mgr w') !! name = resources (w_mgr w) !! name
                    ∧ w_disposed w `prefix_of` w_disposed w') as (w' & Hstep & Hl' & Hen' & Hr' & Hp).
      { destruct (info_enabled en (w_mgr w)).
        - pose proof (try_pass_result (disable en) w) as Hres.
          pose proof (try_pass_fst (disable en) w) as Hfst.
          destruct (try_pass (disable en) w) as [w' res]. simpl in *. subst res w'.
          eexists; split; [done|].
          split; [apply loaded_get_disable|].
          split; [symmetry; by apply (disable_info_enabled_other en name)|].
          split; [symmetry; by apply (disable_resources_other en name)|].
          apply disable_disposed_grows.
        - exists w. by repeat split. }
      rewrite Hstep.
      destruct (IH w' Hin') as (pre & post & Heq); [congruence..|].
      destruct Hp as [k Hk].
      exists (k ++ pre), post. rewrite Heq, Hk. by rewrite <- !app_assoc.
Qed.

(** *** What [enable], [disable] and [load_all] guarantee *)

(** C2 (the code departs from it): [greeter] is enabled, has a submenu,
    and its [teardown] raises.  [disable] returns normally, and nothing
    that comes after the hook has run: the timer is still registered and
    was never disposed of, the menu item and the submenu are still there,
    the extension is still marked enabled and still in the persisted
    list. *)
Theorem disable_stops_at_raising_teardown :
  let w := fst (get_submenu "greeter"
                  (fst (enable "greeter" (Scenario.boot Scenario.bad_teardown [])))) in
  let w' := fst (disable "greeter" w) in
  snd (disable "greeter" w) = Return tt
  ∧ resources (w_mgr w') !! "greeter" = Some [Scenario.timer]
  ∧ w_disposed w' = []
  ∧ menu_items (w_mgr w') !! "greeter" = Some [("Say Hi", 7)]
  ∧ submenus (w_mgr w') !! "greeter" = Some 0
  ∧ w_destroyed_menus w' = []
  ∧ info_enabled "greeter" (w_mgr w') = true
  ∧ Settings.SETTINGS (w_store w') !! "enabled_extensions"
    = Some (VList [VStr "greeter"])
  ∧ Settings.settings_file (w_store w')
    = Some {["enabled_extensions" := VList [VStr "greeter"]]}.
Proof. vm_compute. repeat split. Qed.

(** C4 (as amended): a resource registered, before [load_all] is called,
    for a loaded extension that is marked enabled and whose [teardown]
    returns, and that has a [destroy] method or is callable, has that
    capability invoked during the call. *)
Theorem load_all_disposes_enabled (w : world) (name : string) (md : module)
    (r : resource) (d : nat * capability) :
  loaded_get name (w_mgr w) = Some md →
  info_enabled name (w_mgr w) = true →
  hook_raise (m_teardown md) = None →
  r ∈ default [] (resources (w_mgr w) !! name) →
  disposal r = Some d →
  snd (load_all w) = Return tt
  ∧ ∃ pre post, w_disposed (fst (load_all w)) = w_disposed w ++ pre ++ d :: post.
Proof.
  intros Hl Hen Htd Hr Hd. split.
  - unfold load_all. rewrite bind_run. unfold reading at 1.
    pose proof (disable_loop_result (map fst (info (w_mgr w))) w) as Hres.
    destruct (disable_loop _ w) as [w' res]. simpl in Hres. subst res.
    apply reload_result.
  - rewrite load_all_disposed.
    apply (disable_loop_disposes name md r); try done.
    unfold info_enabled in Hen.
    destruct (alist_get name (info (w_mgr w))) as [i|] eqn:Hi; [|done].
    by apply (alist_get_in_keys name i).
Qed.

Lemma load_all_disposes_enabled_witness :
  let w := fst (enable "greeter" (Scenario.boot Scenario.greeter [])) in
  snd (load_all w) = Return tt
  ∧ ∃ pre post,
      w_disposed (fst (load_all w)) = w_disposed w ++ pre ++ (1, Destroy) :: post.
Proof.
  apply (load_all_disposes_enabled _ "greeter" Scenario.greeter Scenario.timer);
    vm_compute; first [reflexivity | apply list_elem_of_here].
Defined.

(** C4 (as stated) fails: [setup] registers the timer and raises, so the
    extension holds a resource without being marked enabled; the next
    [load_all] does not disable it, drops the registry, and the timer's
    [destroy] is never called. *)
Lemma load_all_drops_resource_of_failed_enable :
  let w := fst (enable "greeter" (Scenario.boot Scenario.bad_setup [])) in
  resources (w_mgr w) !! "greeter" = Some [Scenario.timer]
  ∧ disposal Scenario.timer = Some (1, Destroy)
  ∧ snd (load_all w) = Return tt
  ∧ w_disposed (fst (load_all w)) = []
  ∧ resources (w_mgr (fst (load_all w))) !! "greeter" = None.
Proof. vm_compute. repeat split. Qed.

(** C5 (as amended): [enable] raises "Extension not loaded" and changes
    nothing when the extension is unknown or failed to load; when [setup]
    raises, the exception reaches the caller, the [info] table, and with
    it the extension's enabled flag, is what it was before the call, and
    the menu items [setup] registered before raising stay registered. *)
Theorem enable_failure_modes (name : string) (w : world) :
  (loaded_get name (w_mgr w) = None →
     enable name w = (w, Raise (PyError "Extension not loaded")))
  ∧ (∀ md e, loaded_get name (w_mgr w) = Some md →
             hook_raise (m_setup md) = Some e →
             snd (enable name w) = Raise e
             ∧ info (w_mgr (fst (enable name w))) = info (w_mgr w)
             ∧ menu_items (w_mgr (fst (enable name w))) !! name
               = Some (commands_of (m_setup md))).
Proof.
  split; [apply enable_not_loaded|].
  intros md e Hl He.
  destruct (enable_setup_raises name w md e Hl He) as [Hr Hi].
  by rewrite (enable_menu_items name w md Hl).
Qed.

(** C5 (as stated) fails: [greeter] is in the persisted enabled list and
    its [setup] raises.  [load_all] marks it enabled before calling
    [enable]; that call, and any later one, raises and leaves the
    extension marked enabled. *)
Lemma enable_raises_yet_marked_enabled :
  let w := Scenario.boot Scenario.bad_setup [VStr "greeter"] in
  snd (enable "greeter" w) = Raise (PyError "setup failed")
  ∧ info_enabled "greeter" (w_mgr (fst (enable "greeter" w))) = true.
Proof. vm_compute. by split. Qed.

(** C8: with [E] loaded, [disable(E)] followed by [enable(E)] leaves
    under [E] the menu items that [enable(E)] leaves on any state in which
    [E] is loaded, a fresh one included: those its [setup] registers. *)
Theorem disable_enable_same_menu_items (name : string) (md : module)
    (w fresh : world) :
  loaded_get name (w_mgr w) = Some md →
  loaded_get name (w_mgr fresh) = Some md →
  menu_items (w_mgr (fst (enable name (fst (disable name w))))) !! name
  = menu_items (w_mgr (fst (enable name fresh))) !! name
  ∧ menu_items (w_mgr (fst (enable name fresh))) !! name
    = Some (commands_of (m_setup md)).
Proof.
  intros Hl Hf.
  rewrite (enable_menu_items name fresh md Hf).
  rewrite (enable_menu_items name _ md); [done|].
  by rewrite loaded_get_disable.
Qed.

Lemma disable_enable_same_menu_items_witness :
  let fresh := Scenario.boot Scenario.greeter [] in
  let w := fst (enable "greeter" fresh) in
  menu_items (w_mgr (fst (enable "greeter" (fst (disable "greeter" w))))) !! "greeter"
  = menu_items (w_mgr (fst (enable "greeter" fresh))) !! "greeter"
  ∧ menu_items (w_mgr (fst (enable "greeter" fresh))) !! "greeter"
    = Some (commands_of (m_setup Scenario.greeter)).
Proof.
  apply (disable_enable_same_menu_items "greeter" Scenario.greeter);
    vm_compute; reflexivity.
Defined.

End Extensions_facts.

(* ===================================================================== *)
(** ** Debugger worker: streams of status messages *)
(* ===================================================================== *)

Section Debugger_facts.
Import Debugger.

Lemma only_stops_refl (s : session) : only_stops 0 s s.
Proof. exists []. rewrite app_nil_r. by repeat split. Qed.

Lemma only_stops_trans (n m : nat) (s1 s2 s3 : session) :
  only_stops n s1 s2 → only_stops m s2 s3 → only_stops (n + m) s1 s3.
Proof.
  intros (st1 & H1 & F1 & L1) (st2 & H2 & F2 & L2).
  exists (st1 ++ st2). rewrite H2, H1, <- app_assoc.
  split; [done|]. split; [by apply Forall_app|]. lia.
Qed.

Lemma user_line_answered (w : window) (f : string) (lineno : Z) (s : session) :
  running s → directives s ≠ [] →
  ∃ s', user_line w f lineno s = (s', Normal)
        ∧ running s' ∧ only_stops 1 s s'
        ∧ filename (gui_bdb s') = filename (gui_bdb s)
        ∧ breaks (base (gui_bdb s')) = breaks (base (gui_bdb s)).
Proof.
  intros (Hstop & Hquit & Hds) Hne. unfold user_line. rewrite Hstop. simpl.
  destruct (directives s) as [|a rest] eqn:Hd; [done|].
  apply Forall_cons in Hds as [Ha Hrest].
  assert (∀ g, _stop_requested g = _stop_requested (gui_bdb s) →
               quitting (base g) = false →
               filename g = filename (gui_bdb s) →
               breaks (base g) = breaks (base (gui_bdb s)) →
               let s' := mkSession g rest
                           (stream s ++ [stopped (canonic w f) lineno]) in
               running s' ∧ only_stops 1 s s'
               ∧ filename (gui_bdb s') = filename (gui_bdb s)
               ∧ breaks (base (gui_bdb s')) = breaks (base (gui_bdb s))) as Hgen.
  { intros g Hg1 Hg2 Hg3 Hg4 s'. subst s'. repeat split; simpl; try done.
    - congruence.
    - eexists. split; [done|]. split; [by repeat constructor|].
      rewrite Hd. simpl. lia. }
  destruct a; try done; eexists; (split; [reflexivity|]); by apply Hgen.
Qed.

Lemma dispatch_line_answered (w : window) (lineno : Z) (s : session) :
  running s → directives s ≠ [] →
  ∃ s', dispatch_line w lineno s = (s', Normal)
        ∧ running s' ∧ only_stops 1 s s'
        ∧ filename (gui_bdb s') = filename (gui_bdb s)
        ∧ breaks (base (gui_bdb s')) = breaks (base (gui_bdb s)).
Proof.
  intros Hrun Hne. unfold dispatch_line.
  destruct (stop_here _ || break_here _ _ _).
  - destruct (user_line_answered w (filename (gui_bdb s)) lineno s Hrun Hne)
      as (s' & -> & Hrun' & Hstops & Hf & Hb).
    exists s'. destruct Hrun' as (? & Hq & ?). rewrite Hq. by repeat split.
  - exists s. repeat split; try apply Hrun.
    destruct (only_stops_refl s) as (st & ? & ? & ?).
    exists st. repeat split; try done. lia.
Qed.

(** A line event of a session nobody quits: the line is passed, or the
    worker parks on it. *)
Lemma dispatch_line_running (w : window) (lineno : Z) (s : session) :
  running s →
  ∃ s', (dispatch_line w lineno s = (s', Normal) ∧ running s')
        ∨ dispatch_line w lineno s = (s', Parked).
Proof.
  intros Hrun. destruct (directives s) as [|a rest] eqn:Hd.
  - unfold dispatch_line. destruct (stop_here _ || break_here _ _ _).
    + unfold user_line. destruct Hrun as (-> & _ & _). simpl. rewrite Hd.
      eexists. by right.
    + exists s. by left.
  - destruct (dispatch_line_answered w lineno s Hrun) as (s' & Hs & Hrun' & _).
    { by rewrite Hd. }
    exists s'. by left.
Qed.

Lemma exec_lines_app (w : window) (l1 l2 : list stmt) (lineno : Z) (s : session) :
  exec_lines w lineno (l1 ++ l2) s
  = match exec_lines w lineno l1 s with
    | (s', Normal) => exec_lines w (lineno + Z.of_nat (length l1)) l2 s'
    | r => r
    end.
Proof.
  revert lineno s. induction l1 as [|st l1 IH]; intros lineno s; simpl.
  - by rewrite Z.add_0_r.
  - destruct (dispatch_line w lineno s) as [s' []]; try done.
    destruct st; [|done].
    rewrite IH. by replace (lineno + 1 + Z.of_nat (length l1))%Z
                     with (lineno + Z.pos (Pos.of_succ_nat (length l1)))%Z by lia.
Qed.

Lemma exec_lines_pass (w : window) (n : nat) (lineno : Z) (s : session) :
  running s → n ≤ length (directives s) →
  ∃ s', exec_lines w lineno (replicate n Pass) s = (s', Normal)
        ∧ running s' ∧ only_stops n s s'.
Proof.
  revert lineno s. induction n as [|n IH]; intros lineno s Hrun Hlen; simpl.
  - exists s. split; [done|]. split; [done|]. apply only_stops_refl.
  - assert (directives s ≠ []) as Hne by (destruct (directives s); simpl in *; [lia|done]).
    destruct (dispatch_line_answered w lineno s Hrun Hne)
      as (s1 & -> & Hrun1 & Hst1 & _).
    assert (n ≤ length (directives s1)) as Hlen1.
    { destruct Hst1 as (? & ? & ? & ?). lia. }
    destruct (IH (lineno + 1)%Z s1 Hrun1 Hlen1) as (s2 & -> & Hrun2 & Hst2).
    exists s2. repeat split; try apply Hrun2.
    apply (only_stops_trans 1 n s s1 s2); done.
Qed.

(** Lines that complete, in a session nobody quits: the worker passes
    them all or parks on one of them. *)
Lemma exec_lines_completes (w : window) (n : nat) (lineno : Z) (s : session) :
  running s →
  ∃ s', (exec_lines w lineno (replicate n Pass) s = (s', Normal) ∧ running s')
        ∨ exec_lines w lineno (replicate n Pass) s = (s', Parked).
Proof.
  revert lineno s. induction n as [|n IH]; intros lineno s Hrun; simpl.
  - exists s. by left.
  - destruct (dispatch_line_running w lineno s Hrun) as (s1 & [[-> Hrun1] | ->]).
    + apply IH, Hrun1.
    + exists s1. by right.
Qed.

(** Lines that complete and then one that raises [e]: the worker parks
    before the raise, or [e] leaves the module. *)
Lemma exec_lines_raises (w : window) (n : nat) (e : pyexc) (rest : list stmt)
    (lineno : Z) (s : session) :
  running s →
  ∃ s', exec_lines w lineno (replicate n Pass ++ RaiseStmt e :: rest) s = (s', Parked)
        ∨ exec_lines w lineno (replicate n Pass ++ RaiseStmt e :: rest) s = (s', Exc e).
Proof.
  intros Hrun. rewrite exec_lines_app.
  destruct (exec_lines_completes w n lineno s Hrun) as (s1 & [[-> Hrun1] | ->]).
  - simpl.
    destruct (dispatch_line_running w (lineno + Z.of_nat (length (replicate n Pass))) s1
                Hrun1) as (s2 & [[-> _] | ->]); exists s2; [by right | by left].
  - exists s1. by left.
Qed.

(** A traced program in a session nobody quits: the worker parks on a
    stop, or the run comes to one of the ends the program has. *)
Lemma exec_traced_running (w : window) (p : list reply → node) (ds : list action) :
  Forall (λ a, a ≠ quit) ds →
  ∀ h g out, _stop_requested g = false →
  ∃ s', exec_traced w p h ds g out = (s', Parked)
        ∨ ∃ h' e, p h' = Done e ∧ exec_traced w p h ds g out = (s', ends e).
Proof.
  induction 1 as [|a ds Ha Hds IH]; intros h g out Hg; simpl.
  - destruct (p h) as [f l oq|e] eqn:Hp.
    + unfold user_line. simpl. rewrite Hg. eexists. by left.
    + eexists. right. by exists h, e.
  - destruct (p h) as [f l oq|e] eqn:Hp.
    + unfold user_line. simpl. rewrite Hg.
      destruct a; try done; simpl; by apply IH.
    + eexists. right. by exists h, e.
Qed.

Lemma format_exc_nonempty (e : pyexc) : format_exc e ≠ "".
Proof. destruct e; discriminate. Qed.

(** *** What the worker puts on the queue while the program runs *)

Lemma user_line_stream (w : window) (f : string) (lineno : Z) (s : session) :
  ∃ stops, stream (fst (user_line w f lineno s)) = stream s ++ stops
           ∧ Forall (λ m, is_stopped m = true) stops.
Proof.
  unfold user_line. destruct (_stop_requested (gui_bdb s)).
  - exists []. by rewrite app_nil_r.
  - exists [stopped (canonic w f) lineno].
    split; [|by repeat constructor].
    simpl. by destruct (directives s) as [|[] ?].
Qed.

Lemma dispatch_line_stream (w : window) (lineno : Z) (s : session) :
  ∃ stops, stream (fst (dispatch_line w lineno s)) = stream s ++ stops
           ∧ Forall (λ m, is_stopped m = true) stops.
Proof.
  unfold dispatch_line. destruct (stop_here _ || break_here _ _ _).
  - destruct (user_line_stream w (filename (gui_bdb s)) lineno s) as (stops & Hs & Hf).
    exists stops. split; [|done].
    destruct (user_line w (filename (gui_bdb s)) lineno s) as [s' []]; try done.
    simpl in *. by destruct (quitting (base (gui_bdb s'))).
  - exists []. by rewrite app_nil_r.
Qed.

Lemma exec_lines_stream (w : window) (body : list stmt) (lineno : Z) (s : session) :
  ∃ stops, stream (fst (exec_lines w lineno body s)) = stream s ++ stops
           ∧ Forall (λ m, is_stopped m = true) stops.
Proof.
  revert lineno s. induction body as [|st body IH]; intros lineno s; simpl.
  - exists []. by rewrite app_nil_r.
  - destruct (dispatch_line_stream w lineno s) as (st1 & Hs1 & Hf1).
    destruct (dispatch_line w lineno s) as [s' []]; simpl in *; eauto.
    destruct st; simpl; eauto.
    destruct (IH (lineno + 1)%Z s') as (st2 & Hs2 & Hf2).
    exists (st1 ++ st2). rewrite Hs2, Hs1, <- app_assoc.
    split; [done | by apply Forall_app].
Qed.

Lemma exec_traced_stream (w : window) (p : list reply → node) (ds : list action) :
  ∀ h g out,
  ∃ stops, stream (fst (exec_traced w p h ds g out)) = out ++ stops
           ∧ Forall (λ m, is_stopped m = true) stops.
Proof.
  induction ds as [|a ds IH]; intros h g out; simpl.
  - destruct (p h) as [f l oq|e]; [|exists []; by rewrite app_nil_r].
    destruct (user_line_stream w f l (mkSession g [] out)) as (stops & Hs & Hf).
    exists stops. split; [|done].
    by destruct (user_line w f l (mkSession g [] out)) as [s' [|[]| | |]].
  - destruct (p h) as [f l oq|e]; [|exists []; by rewrite app_nil_r].
    destruct (user_line_stream w f l (mkSession g (a :: ds) out)) as (st1 & Hs1 & Hf1).
    destruct (user_line w f l (mkSession g (a :: ds) out)) as [s' [|[]| | |]];
      simpl in *; eauto.
    destruct (IH (h ++ [reply_of a]) (gui_bdb s') (stream s')) as (st2 & Hs2 & Hf2).
    exists (st1 ++ st2). rewrite Hs2, Hs1, <- app_assoc.
    split; [done | by apply Forall_app].
Qed.

Lemma exec_stream (w : window) (cmd : code) (s : session) :
  ∃ stops, stream (fst (exec w cmd s)) = stream s ++ stops
           ∧ Forall (λ m, is_stopped m = true) stops.
Proof.
  destruct cmd as [body|p]; simpl.
  - destruct body; [apply dispatch_line_stream | apply exec_lines_stream].
  - apply exec_traced_stream.
Qed.

Lemma run_never_quits (w : window) (cmd : code) (s : session) :
  snd (run w cmd s) ≠ Exc BdbQuit.
Proof.
  unfold run. by destruct (exec _ _ _) as [s' [|[|t]|t| |]].
Qed.

Lemma run_stream (w : window) (cmd : code) (s : session) :
  ∃ stops, stream (fst (run w cmd s)) = stream s ++ stops
           ∧ Forall (λ m, is_stopped m = true) stops.
Proof.
  unfold run.
  match goal with |- context [exec w cmd ?s0] =>
    destruct (exec_stream w cmd s0) as (stops & Hs & Hf);
    destruct (exec w cmd s0) as [s' [|[|t]|t| |]]
  end; exists stops; by split.
Qed.

Lemma traced_run_stream (w : window) (src : source) (fname : string)
    (ds : list action) :
  Forall (λ m, is_stopped m = true) (stream (fst (traced_run w src fname ds))).
Proof.
  unfold traced_run. destruct (compile src) as [cmd|e]; [|constructor].
  by destruct (run_stream w cmd (mkSession (SimpleGuiBdb_init w fname) ds []))
    as (stops & -> & Hf).
Qed.

Lemma traced_run_never_quits (w : window) (src : source) (fname : string)
    (ds : list action) :
  snd (traced_run w src fname ds) ≠ Exc BdbQuit.
Proof.
  unfold traced_run. destruct src; simpl; [done| |]; apply run_never_quits.
Qed.

(** The worker, by the way its [try] block ends. *)
Lemma thread_runner_cases (w : window) (src : source) (fname : string)
    (ds : list action) :
  let sts := stream (fst (traced_run w src fname ds)) in
  match snd (traced_run w src fname ds) with
  | Normal => _thread_runner w src fname ds = (sts ++ [finished], Normal)
  | Exc BdbQuit => False
  | Exc (PyError t) =>
      _thread_runner w src fname ds
      = (sts ++ [error (format_exc (PyError t)); finished], Normal)
  | Esc t => _thread_runner w src fname ds = (sts ++ [finished], Esc t)
  | Parked => _thread_runner w src fname ds = (sts, Parked)
  | Running => _thread_runner w src fname ds = (sts, Running)
  end.
Proof.
  pose proof (traced_run_never_quits w src fname ds) as Hq.
  unfold _thread_runner.
  destruct (traced_run w src fname ds) as [s [|[|t]|t| |]]; simpl in *; try done.
  by rewrite <- app_assoc.
Qed.

Lemma stops_exclude (m : message) (sts : list message) :
  is_stopped m = false → Forall (λ m, is_stopped m = true) sts → m ∉ sts.
Proof.
  intros Hm Hf Hin. rewrite Forall_forall in Hf. apply Hf in Hin. congruence.
Qed.

Lemma raises_run (w : window) (src : source) (fname : string) (ds : list action) :
  raises w src → Forall (λ a, a ≠ quit) ds →
  snd (traced_run w src fname ds) = Parked
  ∨ ∃ text, snd (traced_run w src fname ds) = Exc (PyError text).
Proof.
  intros Hsrc Hds. unfold traced_run.
  set (s0 := mkSession (SimpleGuiBdb_init w fname) ds []).
  destruct src as [text|body|p]; simpl.
  - right. by exists text.
  - destruct Hsrc as (n & text & rest & ->). unfold run, exec, exec_module.
    set (s1 := mkSession (on_base reset (gui_bdb s0)) (directives s0) (stream s0)).
    assert (running s1) as Hrun by (by repeat split).
    destruct (exec_lines_raises w n (PyError text) rest 1 s1 Hrun) as (s2 & [H|H]).
    + left. destruct n; simpl in *; by rewrite H.
    + right. exists text. destruct n; simpl in *; by rewrite H.
  - simpl in Hsrc. unfold run, exec. simpl.
    destruct (exec_traced_running w (p (bplist w)) ds Hds []
                (on_base reset (SimpleGuiBdb_init w fname)) [] eq_refl)
      as (s2 & [-> | (h' & e & Hp & ->)]); [by left|].
    destruct (Hsrc _ _ Hp) as (text & ->). right. by exists text.
Qed.

Lemma completes_run (w : window) (src : source) (fname : string) (ds : list action) :
  completes w src → Forall (λ a, a ≠ quit) ds →
  snd (traced_run w src fname ds) = Parked ∨ snd (traced_run w src fname ds) = Normal.
Proof.
  intros Hsrc Hds. unfold traced_run.
  set (s0 := mkSession (SimpleGuiBdb_init w fname) ds []).
  destruct src as [text|body|p]; simpl; [done| |].
  - destruct Hsrc as (n & ->). unfold run, exec, exec_module.
    set (s1 := mkSession (on_base reset (gui_bdb s0)) (directives s0) (stream s0)).
    assert (running s1) as Hrun by (by repeat split).
    destruct n as [|n].
    + simpl. destruct (dispatch_line_running w 0 s1 Hrun) as (s2 & [[-> _] | ->]);
        [by right | by left].
    + destruct (exec_lines_completes w (S n) 1 s1 Hrun) as (s2 & [[H _] | H]);
        simpl in *; rewrite H; [by right | by left].
  - simpl in Hsrc. unfold run, exec. simpl.
    destruct (exec_traced_running w (p (bplist w)) ds Hds []
                (on_base reset (SimpleGuiBdb_init w fname)) [] eq_refl)
      as (s2 & [-> | (h' & e & Hp & ->)]); [by left|].
    rewrite (Hsrc _ _ Hp). by right.
Qed.

(** C3 (as amended): the source raises (it does not compile, or its
    execution ends with an uncaught [Exception] other than [BdbQuit]),
    no directive is [quit], and every stop is answered, so that the
    worker is not left waiting on one.  The worker then reports stops,
    one [error] message with a non-empty trace, and after it [finished],
    which the [finally] clause always puts last. *)
Theorem raising_source_errors_then_finishes (w : window) (src : source)
    (fname : string) (ds : list action) :
  raises w src →
  Forall (λ a, a ≠ quit) ds →
  snd (_thread_runner w src fname ds) ≠ Parked →
  ∃ stops tb,
    _thread_runner w src fname ds = (stops ++ [error tb; finished], Normal)
    ∧ Forall (λ m, is_stopped m = true) stops
    ∧ tb ≠ "".
Proof.
  intros Hsrc Hds Hpark.
  pose proof (thread_runner_cases w src fname ds) as Hcases.
  pose proof (traced_run_stream w src fname ds) as Hsts.
  destruct (raises_run w src fname ds Hsrc Hds) as [Hp | (text & Hp)];
    rewrite Hp in Hcases; simpl in Hcases.
  - by rewrite Hcases in Hpark.
  - eexists _, _. split; [exact Hcases|]. split; [done | apply format_exc_nonempty].
Qed.

Lemma raising_source_errors_then_finishes_witness :
  ∃ stops tb,
    _thread_runner Scenario.window0
      (Code (replicate 2 Pass ++ RaiseStmt (PyError "ValueError: boom") :: [Pass]))
      "prog.py" [step; next; continue]
    = (stops ++ [error tb; finished], Normal)
    ∧ Forall (λ m, is_stopped m = true) stops
    ∧ tb ≠ "".
Proof.
  apply (raising_source_errors_then_finishes Scenario.window0
           (Code (replicate 2 Pass ++ RaiseStmt (PyError "ValueError: boom") :: [Pass]))
           "prog.py" [step; next; continue]).
  - by exists 2, "ValueError: boom", [Pass].
  - repeat constructor; discriminate.
  - vm_compute. discriminate.
Defined.

(** C3 (as stated) fails: a one-line source that raises, saved as
    [prog.py], the stop on line 1 answered by [step]; the worker reports
    the error and then [finished]. *)
Lemma raising_source_still_finishes :
  let r := _thread_runner Scenario.window0
             (Code [RaiseStmt (PyError "ValueError: boom")]) "prog.py" [step] in
  r = ([stopped "/home/user/prog.py" 1;
        error (format_exc (PyError "ValueError: boom"));
        finished], Normal)
  ∧ finished ∈ fst r.
Proof.
  split; [reflexivity|].
  apply (bool_decide_unpack _). by vm_compute.
Qed.

(** *** The [except bdb.BdbQuit] clause of [_thread_runner] is dead *)

(** Whatever the source and the directives, [exited] is never put on
    the queue: [Bdb.run] has already caught the [BdbQuit] that
    [_thread_runner] is waiting for. *)
Lemma worker_never_reports_exited (w : window) (src : source) (fname : string)
    (ds : list action) :
  exited ∉ fst (_thread_runner w src fname ds).
Proof.
  pose proof (thread_runner_cases w src fname ds) as Hcases.
  pose proof (traced_run_stream w src fname ds) as Hsts.
  pose proof (stops_exclude exited _ eq_refl Hsts) as Hno.
  simpl in Hcases.
  destruct (snd (traced_run w src fname ds)) as [|[|t]|t| |]; try done;
    rewrite Hcases; simpl; try done;
    intros Hin; apply elem_of_app in Hin as [Hin|Hin]; try done;
    repeat (apply elem_of_cons in Hin as [?|Hin]; [done|]);
    by apply elem_of_nil in Hin.
Qed.

(** C7 (the code departs from it): the worker is parked on line 2 of a
    three-line source saved as [prog.py] and gets [quit].  [user_line]
    raises [BdbQuit], [Bdb.run] catches it, so [_thread_runner] sees a
    normal return: it reports [finished], and [exited] is not put on the
    queue, in this session or in any other. *)
Theorem quit_reports_finished_not_exited :
  _thread_runner Scenario.window0 (Code [Pass; Pass; Pass]) "prog.py" [step]
  = ([stopped "/home/user/prog.py" 1; stopped "/home/user/prog.py" 2], Parked)
  ∧ _thread_runner Scenario.window0 (Code [Pass; Pass; Pass]) "prog.py" [step; quit]
    = ([stopped "/home/user/prog.py" 1; stopped "/home/user/prog.py" 2; finished],
       Normal)
  ∧ ∀ w src fname ds, exited ∉ fst (_thread_runner w src fname ds).
Proof.
  split; [reflexivity|]. split; [reflexivity|].
  apply worker_never_reports_exited.
Qed.

(** *** [toggle_breakpoint] *)

(** ["<string>"] has no lines for [linecache], so [set_break] records
    nothing: only the output pane changes. *)
Lemma toggle_breakpoint_fields (cursor : result Z) (w : window) :
  q (toggle_breakpoint cursor w) = q w
  ∧ bplist (toggle_breakpoint cursor w) = bplist w
  ∧ abspath (toggle_breakpoint cursor w) = abspath w.
Proof. by destruct cursor. Qed.

Lemma canonic_ext (w1 w2 : window) (f : string) :
  abspath w1 = abspath w2 → canonic w1 f = canonic w2 f.
Proof. intros H. unfold canonic. by rewrite H. Qed.

Lemma user_line_ext (w1 w2 : window) (f : string) (lineno : Z) (s : session) :
  abspath w1 = abspath w2 → user_line w1 f lineno s = user_line w2 f lineno s.
Proof. intros H. unfold user_line. by rewrite (canonic_ext w1 w2 _ H). Qed.

Lemma dispatch_line_ext (w1 w2 : window) (lineno : Z) (s : session) :
  abspath w1 = abspath w2 → dispatch_line w1 lineno s = dispatch_line w2 lineno s.
Proof.
  intros H. unfold dispatch_line.
  by rewrite (user_line_ext w1 w2 _ _ _ H), (canonic_ext w1 w2 _ H).
Qed.

Lemma exec_lines_ext (w1 w2 : window) (body : list stmt) (lineno : Z) (s : session) :
  abspath w1 = abspath w2 →
  exec_lines w1 lineno body s = exec_lines w2 lineno body s.
Proof.
  intros H. revert lineno s. induction body as [|st body IH]; intros lineno s; simpl;
    [done|].
  rewrite (dispatch_line_ext w1 w2 _ _ H).
  destruct (dispatch_line w2 lineno s) as [s' []]; try done.
  destruct st; [apply IH | done].
Qed.

Lemma exec_traced_ext (w1 w2 : window) (p : list reply → node) (ds : list action) :
  abspath w1 = abspath w2 →
  ∀ h g out, exec_traced w1 p h ds g out = exec_traced w2 p h ds g out.
Proof.
  intros H. induction ds as [|a ds IH]; intros h g out; simpl;
    destruct (p h) as [f l oq|e]; try done; rewrite (user_line_ext w1 w2 _ _ _ H);
    try done.
  by destruct (user_line w2 f l _) as [s' []].
Qed.

Lemma thread_runner_ext (w1 w2 : window) (src : source) (fname : string)
    (ds : list action) :
  bplist w1 = bplist w2 → abspath w1 = abspath w2 →
  _thread_runner w1 src fname ds = _thread_runner w2 src fname ds.
Proof.
  intros Hb Ha.
  assert (traced_run w1 src fname ds = traced_run w2 src fname ds) as Hrun.
  { unfold traced_run, run, exec, exec_module, SimpleGuiBdb_init, Bdb_init.
    rewrite Hb. destruct src as [text|body|p]; simpl; [done| |].
    - destruct body; [by rewrite (dispatch_line_ext w1 w2 _ _ Ha)|].
      by rewrite (exec_lines_ext w1 w2 _ _ _ Ha).
    - by rewrite (exec_traced_ext w1 w2 _ _ Ha). }
  unfold _thread_runner. by rewrite Hrun.
Qed.

Lemma toggle_breakpoint_session (cursor : result Z) (w : window) (src : source)
    (file : option string) (ds : list action) :
  q (fst (start_debug src file ds (toggle_breakpoint cursor w)))
  = q (fst (start_debug src file ds w))
  ∧ snd (start_debug src file ds (toggle_breakpoint cursor w))
    = snd (start_debug src file ds w).
Proof.
  destruct (toggle_breakpoint_fields cursor w) as (Hq & Hb & Ha).
  unfold start_debug.
  set (w1 := mkWindow (q (toggle_breakpoint cursor w)) _ _ _ _).
  set (w2 := mkWindow (q w) _ _ _ _).
  assert (∀ src' f, _thread_runner w1 src' f ds = _thread_runner w2 src' f ds) as Hext.
  { intros. by apply thread_runner_ext. }
  destruct file as [fname|]; rewrite Hext;
    destruct (_thread_runner w2 _ _ ds) as [msgs f]; simpl; by rewrite Hq.
Qed.

Lemma start_debug_named (src : source) (fname : string) (ds : list action)
    (w : window) :
  let w1 := mkWindow (q w) (out w ++ ["Debugger started"]) (bplist w)
                     (abspath w) (file_line w) in
  q (fst (start_debug src (Some fname) ds w)) = q w ++ fst (_thread_runner w1 src fname ds)
  ∧ snd (start_debug src (Some fname) ds w) = snd (_thread_runner w1 src fname ds).
Proof. unfold start_debug. by destruct (_thread_runner _ src fname ds). Qed.

(** C9 (as amended): toggling a breakpoint before a session leaves the
    queue of any session started afterwards, and the way its worker
    ends, what they would have been without it.  A session started
    afterwards on a buffer that has a file name and whose source raises
    no exception, every stop being answered by a directive other than
    quit, reports stops and then [finished]. *)
Theorem toggle_breakpoint_leaves_session_alone (cursor : result Z) (w : window)
    (src : source) (fname : string) (ds : list action) :
  completes w src →
  Forall (λ a, a ≠ quit) ds →
  let after := start_debug src (Some fname) ds (toggle_breakpoint cursor w) in
  snd after ≠ Parked →
  (∀ src' file' ds',
      q (fst (start_debug src' file' ds' (toggle_breakpoint cursor w)))
      = q (fst (start_debug src' file' ds' w))
      ∧ snd (start_debug src' file' ds' (toggle_breakpoint cursor w))
        = snd (start_debug src' file' ds' w))
  ∧ snd after = Normal
  ∧ ∃ stops, q (fst after) = q w ++ stops ++ [finished]
             ∧ Forall (λ m, is_stopped m = true) stops.
Proof.
  intros Hsrc Hds after Hpark. split; [intros; apply toggle_breakpoint_session|].
  subst after. revert Hpark.
  destruct (toggle_breakpoint_session cursor w src (Some fname) ds) as [-> ->].
  destruct (start_debug_named src fname ds w) as [-> ->].
  set (w1 := mkWindow _ _ _ _ _).
  assert (completes w1 src) as Hsrc1 by (by destruct src).
  pose proof (thread_runner_cases w1 src fname ds) as Hcases.
  pose proof (traced_run_stream w1 src fname ds) as Hsts.
  destruct (completes_run w1 src fname ds Hsrc1 Hds) as [Hp | Hp];
    rewrite Hp in Hcases; simpl in Hcases; rewrite Hcases; simpl; [done|].
  intros _. split; [done|]. by eexists.
Qed.

Lemma toggle_breakpoint_leaves_session_alone_witness :
  let w := Scenario.window0 in
  let after := start_debug (Code (replicate 2 Pass)) (Some "prog.py") [step; continue]
                           (toggle_breakpoint (Return 2%Z) w) in
  (∀ src' file' ds',
      q (fst (start_debug src' file' ds' (toggle_breakpoint (Return 2%Z) w)))
      = q (fst (start_debug src' file' ds' w))
      ∧ snd (start_debug src' file' ds' (toggle_breakpoint (Return 2%Z) w))
        = snd (start_debug src' file' ds' w))
  ∧ snd after = Normal
  ∧ ∃ stops, q (fst after) = q w ++ stops ++ [finished]
             ∧ Forall (λ m, is_stopped m = true) stops.
Proof.
  apply (toggle_breakpoint_leaves_session_alone (Return 2%Z) Scenario.window0
           (Code (replicate 2 Pass)) "prog.py" [step; continue]).
  - by exists 2.
  - repeat constructor; discriminate.
  - vm_compute. discriminate.
Defined.

(** C9 (as stated) fails: line 7 is toggled, then a session on ten lines
    saved as [prog.py] is single-stepped.  It runs to [finished], and on
    the way it stops on line 7, as on every other line. *)
Lemma toggled_line_still_stops :
  let r := start_debug (Code (replicate 10 Pass)) (Some "prog.py") (replicate 10 step)
                       (toggle_breakpoint (Return 7%Z) Scenario.window0) in
  snd r = Normal
  ∧ last (q (fst r)) = Some finished
  ∧ stopped "/home/user/prog.py" 7 ∈ q (fst r).
Proof.
  split; [reflexivity|]. split; [reflexivity|].
  apply (bool_decide_unpack _). by vm_compute.
Qed.

End Debugger_facts.

(* ===================================================================== *)
(** ** Event bus: subscriptions, removal by filter, what a dispatch leaves *)
(* ===================================================================== *)

Section EventBus_more.
Import EventBus Observed.

Lemma keeps_false_iff (cb_arg : option callback) (owner_arg : option string)
    (l : listener) :
  keeps cb_arg owner_arg l = false
  ↔ (callback_truthy cb_arg = true ∨ owner_truthy owner_arg = true)
    ∧ (callback_truthy cb_arg = true → cb_arg = Some (l_cb l))
    ∧ (owner_truthy owner_arg = true → owner_arg = l_owner l).
Proof.
  unfold keeps.
  destruct (callback_truthy cb_arg), (owner_truthy owner_arg); simpl;
    repeat case_bool_decide; simpl; intuition congruence.
Qed.

Lemma owner_truthy_named (name : string) : name ≠ "" → owner_truthy (Some name) = true.
Proof. intros Hne. simpl. by destruct (String.eqb_spec name ""). Qed.

Lemma keeps_subscription (cb : callback) (name : string) (l : listener) :
  name ≠ "" →
  keeps (Some cb) (Some name) l = negb (subscription_of cb name l).
Proof.
  intros Hne. unfold keeps, subscription_of.
  rewrite (owner_truthy_named name Hne). simpl.
  repeat case_bool_decide; simpl; try done;
    match goal with
    | H : ¬ (_ ∧ _) |- _ => exfalso; apply H; split; congruence
    | H : _ ∧ _ |- _ => destruct H; congruence
    end.
Qed.

Lemma filter_all {A} (f : A → bool) (l : list A) :
  (∀ x, x ∈ l → f x = true) → List.filter f l = l.
Proof.
  induction l as [|x l IH]; simpl; intros H; [done|].
  rewrite (H x) by apply list_elem_of_here.
  f_equal. apply IH. intros y Hy. by apply H, list_elem_of_further.
Qed.

Lemma remove_event_listener_lookup (event : string) (cb_arg : option callback)
    (owner_arg : option string) (m : listeners) :
  default [] (remove_event_listener event cb_arg owner_arg m !! event)
  = List.filter (keeps cb_arg owner_arg) (default [] (m !! event)).
Proof.
  unfold remove_event_listener.
  destruct (m !! event) as [[|l0 lst]|] eqn:Hm; rewrite ?Hm; try done.
  by rewrite lookup_insert_eq.
Qed.

Lemma remove_event_listener_other (event other : string) (cb_arg : option callback)
    (owner_arg : option string) (m : listeners) :
  other ≠ event →
  remove_event_listener event cb_arg owner_arg m !! other = m !! other.
Proof.
  intros Hne. unfold remove_event_listener.
  destruct (m !! event) as [[|l0 lst]|]; try done. by rewrite lookup_insert_ne.
Qed.

(** X1: [api.on(event, cb)] followed by [api.off(event, cb)], for an
    extension with a non-empty name: what stays subscribed to the event
    are the earlier entries that are not subscriptions of the same callback
    by the same extension, in their order; so when there was no such entry
    the list is what it was, and subscriptions of the callback by other
    owners are never touched.  Other events are left alone. *)
Theorem subscribe_then_unsubscribe_round_trip (event name : string) (cb : callback)
    (threaded : bool) (m : listeners) :
  name ≠ "" →
  let m' := remove_event_listener event (Some cb) (Some name)
              (add_event_listener event cb (Some name) threaded m) in
  default [] (m' !! event)
  = List.filter (λ l, negb (subscription_of cb name l)) (default [] (m !! event))
  ∧ ((∀ l, l ∈ default [] (m !! event) → subscription_of cb name l = false) →
       default [] (m' !! event) = default [] (m !! event))
  ∧ (∀ other, other ≠ event → m' !! other = m !! other).
Proof.
  intros Hne m'. subst m'.
  rewrite remove_event_listener_lookup. unfold add_event_listener at 1 2.
  rewrite lookup_insert_eq.
  set (old := default [] (m !! event)).
  assert (List.filter (keeps (Some cb) (Some name))
            (default [] (Some (old ++ [mkListener cb (Some name) threaded])))
          = List.filter (λ l, negb (subscription_of cb name l)) old) as Hf.
  { unfold default, id. rewrite List.filter_app. simpl.
    rewrite (keeps_subscription cb name _ Hne).
    unfold subscription_of at 1. simpl. rewrite bool_decide_eq_true_2 by done. simpl.
    rewrite app_nil_r. apply List.filter_ext. intros l. by apply keeps_subscription. }
  rewrite Hf. split; [done|]. split.
  - intros Hnone. apply filter_all. intros l Hl. by rewrite (Hnone l Hl).
  - intros other Ho. rewrite remove_event_listener_other by done.
    unfold add_event_listener. by rewrite lookup_insert_ne.
Qed.

Lemma subscribe_then_unsubscribe_round_trip_witness :
  let m := EVENT_LISTENERS Samples.two_listeners in
  let m' := remove_event_listener "file_opened" (Some 3) (Some "timer")
              (add_event_listener "file_opened" 3 (Some "timer") false m) in
  default [] (m' !! "file_opened")
  = List.filter (λ l, negb (subscription_of 3 "timer" l)) (default [] (m !! "file_opened"))
  ∧ ((∀ l, l ∈ default [] (m !! "file_opened") → subscription_of 3 "timer" l = false) →
       default [] (m' !! "file_opened") = default [] (m !! "file_opened"))
  ∧ (∀ other, other ≠ "file_opened" → m' !! other = m !! other).
Proof.
  apply (subscribe_then_unsubscribe_round_trip "file_opened" "timer" 3 false
           (EVENT_LISTENERS Samples.two_listeners)).
  discriminate.
Defined.

(** X2: [remove_event_listener(event, callback, owner)] drops exactly the
    entries that match every filter that was supplied, provided at least
    one was: an entry is registered afterwards iff it was registered
    before and it is not such a match. *)
Theorem remove_event_listener_removes_matches (event : string)
    (cb_arg : option callback) (owner_arg : option string) (m : listeners)
    (l : listener) :
  l ∈ default [] (remove_event_listener event cb_arg owner_arg m !! event)
  ↔ l ∈ default [] (m !! event)
    ∧ ¬ ((callback_truthy cb_arg = true ∨ owner_truthy owner_arg = true)
         ∧ (callback_truthy cb_arg = true → cb_arg = Some (l_cb l))
         ∧ (owner_truthy owner_arg = true → owner_arg = l_owner l)).
Proof.
  rewrite <- keeps_false_iff, remove_event_listener_lookup.
  rewrite !list_elem_of_In, filter_In.
  split; intros [H1 H2]; split; try done.
  - by rewrite H2.
  - by destruct (keeps cb_arg owner_arg l).
Qed.

Lemma filter_sublist {A} (f : A → bool) (l : list A) : sublist (List.filter f l) l.
Proof.
  induction l as [|x l IH]; simpl; [constructor|].
  destruct (f x); by constructor.
Qed.

(** X3: [remove_event_listener] only ever shrinks the list of one event:
    what is left is a sub-list of what was there, in the same order; the
    lists of the other events are untouched; and for an event without
    listeners the table stays exactly as it was (no empty entry is
    created). *)
Theorem remove_event_listener_only_shrinks (event : string)
    (cb_arg : option callback) (owner_arg : option string) (m : listeners) :
  sublist (default [] (remove_event_listener event cb_arg owner_arg m !! event))
          (default [] (m !! event))
  ∧ (∀ other, other ≠ event →
       remove_event_listener event cb_arg owner_arg m !! other = m !! other)
  ∧ (default [] (m !! event) = [] →
       remove_event_listener event cb_arg owner_arg m = m).
Proof.
  split; [|split].
  - rewrite remove_event_listener_lookup. apply filter_sublist.
  - intros other Hne. by apply remove_event_listener_other.
  - unfold remove_event_listener. by destruct (m !! event) as [[|l0 lst]|].
Qed.

Lemma dispatch_one_log (E : env) (l : listener) (b : bus) :
  log_lines (fst (dispatch_one E l b)) = log_lines b ++ option_list (error_logged E l).
Proof.
  unfold dispatch_one, error_logged, _safe_call.
  destruct (l_threaded l), (thread_ok E (l_cb l)), (after_ok E (l_cb l));
    simpl; rewrite ?app_nil_r; try done;
    destruct (behaviour E (l_cb l)); simpl; by rewrite ?app_nil_r.
Qed.

Lemma emit_loop_log (E : env) (ls : list listener) (b : bus) :
  log_lines (fst (emit_loop E ls b)) = log_lines b ++ omap (error_logged E) ls.
Proof.
  revert b. induction ls as [|l ls IH]; intros b; simpl.
  - by rewrite app_nil_r.
  - rewrite except_pass_returns. rewrite IH, dispatch_one_log, <- app_assoc.
    f_equal. by destruct (error_logged E l).
Qed.

(** X4: the only lines [emit_event] adds to the log are the error lines
    of [_safe_call], one for each listener that it had to call itself
    (not threaded, [root.after] failed) and that raised, in the order of
    registration; a thread that cannot be started leaves no line. *)
Theorem emit_event_logs_failed_direct_calls (E : env) (event : string) (b : bus) :
  log_lines (fst (emit_event E event b))
  = log_lines b ++ omap (error_logged E) (default [] (EVENT_LISTENERS b !! event)).
Proof. apply emit_loop_log. Qed.

Lemma emit_loop_calm (E : env) (ls : list listener) (b : bus) :
  (∀ cb, after_ok E cb = true) →
  (∀ cb, thread_ok E cb = true) →
  emit_loop E ls b
  = (mkBus (EVENT_LISTENERS b)
           (dispatched b
            ++ map (λ l, (l_cb l, if l_threaded l then OnThread else OnOwner)) ls)
           (log_lines b),
     Return tt).
Proof.
  intros Ha Ht.
  destruct (emit_loop_spec E ls b) as (Hr & Hl & Hd).
  pose proof (emit_loop_log E ls b) as Hlog.
  destruct (emit_loop E ls b) as [[m d lg] r]. simpl in *. subst.
  f_equal. f_equal.
  - f_equal. clear -Ha Ht. induction ls as [|l ls IH]; simpl; [done|].
    unfold dispatch_of at 1. rewrite Ha, Ht. destruct (l_threaded l); simpl; by f_equal.
  - replace (omap (error_logged E) ls) with (@nil (string * string)); [by rewrite app_nil_r|].
    clear -Ha. induction ls as [|l ls IH]; simpl; [done|].
    unfold error_logged at 1. rewrite Ha. by destruct (l_threaded l).
Qed.

(** X5: while [root.after] and [Thread.start] succeed, [emit_event] runs
    no callback itself: it hands every listener of the event over, in
    registration order, to a new thread (threaded) or to the owner
    thread's queue (not threaded), writes nothing to the log, leaves the
    listener table alone and returns. *)
Theorem emit_event_hands_over_in_order (E : env) (event : string) (b : bus) :
  (∀ cb, after_ok E cb = true) →
  (∀ cb, thread_ok E cb = true) →
  emit_event E event b
  = (mkBus (EVENT_LISTENERS b)
           (dispatched b
            ++ map (λ l, (l_cb l, if l_threaded l then OnThread else OnOwner))
                   (default [] (EVENT_LISTENERS b !! event)))
           (log_lines b),
     Return tt).
Proof. intros Ha Ht. by apply emit_loop_calm. Qed.

Lemma emit_event_hands_over_in_order_witness :
  emit_event Samples.calm "file_opened" Samples.two_listeners
  = (mkBus (EVENT_LISTENERS Samples.two_listeners)
           (dispatched Samples.two_listeners
            ++ map (λ l, (l_cb l, if l_threaded l then OnThread else OnOwner))
                   (default [] (EVENT_LISTENERS Samples.two_listeners !! "file_opened")))
           (log_lines Samples.two_listeners),
     Return tt).
Proof.
  apply (emit_event_hands_over_in_order Samples.calm "file_opened" Samples.two_listeners);
    intros cb; reflexivity.
Defined.

End EventBus_more.

(* ===================================================================== *)
(** ** Settings: the file mirrors the memory *)
(* ===================================================================== *)

Section Settings_more.
Import Settings.

Lemma dict_truthy_singleton (k : string) (v : pyval) :
  dict_truthy {[k := v]} = true.
Proof.
  unfold dict_truthy. case_bool_decide as H; [|done].
  exfalso. by apply (map_non_empty_singleton k v).
Qed.

(** X6: after a [save_settings] whose write succeeded, the settings file
    holds exactly the in-memory [SETTINGS], so [load_settings()] at the
    next start gives them back; saving the same dict again changes
    nothing; and saving an empty dict leaves [SETTINGS] as they were
    (and still writes the file). *)
Theorem save_settings_file_mirrors_memory (st : store) (d : gmap string pyval) :
  let st' := save_settings (Return tt) d st in
  settings_file st' = Some (SETTINGS st')
  ∧ Editor.load_settings st' = SETTINGS st'
  ∧ save_settings (Return tt) d st' = st'
  ∧ (d = ∅ → SETTINGS st' = SETTINGS st).
Proof.
  unfold save_settings, Editor.load_settings. simpl.
  destruct (dict_truthy d) eqn:Hd; simpl; rewrite ?Hd.
  - split; [done|]. split; [done|]. split.
    + unfold dict_update. by rewrite map_union_assoc, map_union_idemp.
    + intros ->. by vm_compute in Hd.
  - done.
Qed.

End Settings_more.
(* ===================================================================== *)
(** ** Extension manager: release, round trips, isolation, reload *)
(* ===================================================================== *)

Section Extensions_more.
Import Extensions Views.

(** X7: [api.set_setting(key, value)] always returns; when the settings
    file can be written, [get_setting(key)] then gives [value], every
    other key reads as before and the file mirrors the memory; when it
    cannot be written, the in-memory settings are what they were, so
    that [get_setting] reads every key, [key] included, as before. *)
Theorem set_setting_then_get (name key : string) (value dflt : pyval) (w : world) :
  let w' := fst (api_step name (SetSetting key value) w) in
  snd (api_step name (SetSetting key value) w) = Return tt
  ∧ (if w_disk_ok w
     then Settings.get_setting key dflt (w_store w') = value
          ∧ (∀ other, other ≠ key →
               Settings.get_setting other dflt (w_store w')
               = Settings.get_setting other dflt (w_store w))
          ∧ Settings.settings_file (w_store w') = Some (Settings.SETTINGS (w_store w'))
     else Settings.SETTINGS (w_store w') = Settings.SETTINGS (w_store w)
          ∧ ∀ k, Settings.get_setting k dflt (w_store w')
                 = Settings.get_setting k dflt (w_store w)).
Proof.
  simpl. split; [done|].
  unfold Settings.save_settings, Settings.get_setting. rewrite dict_truthy_singleton.
  destruct (w_disk_ok w) eqn:Hok; simpl.
  - split; [|split; [|done]].
    + by rewrite (dict_update_lookup_new _ _ key value) by apply lookup_singleton_eq.
    + intros other Hne.
      by rewrite dict_update_lookup_old by (by apply lookup_singleton_ne).
  - done.
Qed.

(** X8: [disable] never raises, whatever the teardown hook and the
    resources do, and for a name that is not loaded (unknown, or its
    import failed) it changes nothing at all. *)
Theorem disable_never_raises (name : string) (w : world) :
  snd (disable name w) = Return tt
  ∧ (loaded_get name (w_mgr w) = None → disable name w = (w, Return tt)).
Proof.
  split; [apply disable_result|].
  intros Hl. unfold disable, reading. by rewrite Hl.
Qed.

Lemma cleanup_resources_mgr (name : string) (w : world) :
  w_mgr (fst (_cleanup_resources name w))
  = set_resources (<[name := []]> (resources (w_mgr w))) (w_mgr w).
Proof.
  unfold _cleanup_resources. rewrite bind_run. unfold reading at 1.
  pose proof (cleanup_loop_result (default [] (resources (w_mgr w) !! name)) w) as Hr.
  pose proof (cleanup_loop_frame w_mgr (default [] (resources (w_mgr w) !! name))
                ltac:(done) w) as Hm.
  destruct (cleanup_loop _ w) as [w' r]. simpl in *. subst r. simpl. by rewrite <- Hm.
Qed.

(** X9: [_cleanup_resources(name)] returns whatever the resources do when
    disposed of; it invokes the dispose capability of every resource of
    the extension once, in registration order ([destroy] when there is
    one, else the call), empties the extension's list and leaves the
    lists of the other extensions alone; run again, it invokes nothing. *)
Theorem cleanup_resources_releases_once (name : string) (w : world) :
  let w' := fst (_cleanup_resources name w) in
  snd (_cleanup_resources name w) = Return tt
  ∧ w_disposed w' = w_disposed w
                    ++ omap disposal (default [] (resources (w_mgr w) !! name))
  ∧ resources (w_mgr w') !! name = Some []
  ∧ (∀ other, other ≠ name →
       resources (w_mgr w') !! other = resources (w_mgr w) !! other)
  ∧ w_disposed (fst (_cleanup_resources name w')) = w_disposed w'.
Proof.
  simpl. split; [apply cleanup_resources_result|].
  split; [apply cleanup_resources_disposed|].
  rewrite cleanup_resources_disposed, !cleanup_resources_mgr. simpl.
  split; [apply lookup_insert_eq|]. split.
  - intros other Hne. by apply lookup_insert_ne.
  - rewrite lookup_insert_eq. simpl. by rewrite app_nil_r.
Qed.

Lemma cleanup_resources_destroyed_menus (name : string) :
  preserves eq w_destroyed_menus (_cleanup_resources name).
Proof. unfold _cleanup_resources. frame. by apply cleanup_loop_frame. Qed.

Lemma destroy_submenu_run (name : string) (w : world) :
  destroy_submenu name w
  = (match submenus (w_mgr w) !! name with
     | Some menu => with_mgr (λ m, set_submenus (delete name (submenus m)) m)
                             (with_destroyed_menu menu w)
     | None => w
     end, Return tt).
Proof. unfold destroy_submenu, reading. by destruct (submenus (w_mgr w) !! name). Qed.

(** The manager and the destroyed menus after a [disable] whose teardown
    returned. *)
Lemma disable_after_teardown (name : string) (w : world) (md : module) :
  loaded_get name (w_mgr w) = Some md →
  hook_raise (m_teardown md) = None →
  let w1 := fst (run_optional name (m_teardown md) w) in
  let m1 := w_mgr w1 in
  let m3 := set_menu_items (<[name := []]> (menu_items m1))
              (set_resources (<[name := []]> (resources m1)) m1) in
  w_mgr (fst (disable name w))
  = mark_enabled name false
      (match submenus m1 !! name with
       | Some _ => set_submenus (delete name (submenus m3)) m3
       | None => m3
       end)
  ∧ w_destroyed_menus (fst (disable name w))
    = w_destroyed_menus w1 ++ option_list (submenus m1 !! name).
Proof.
  intros Hl He. simpl. unfold disable, reading. rewrite Hl.
  rewrite try_pass_fst, bind_run.
  pose proof (run_optional_result name (m_teardown md) w) as Hr.
  destruct (run_optional name (m_teardown md) w) as [w1 r]. simpl in Hr |- *.
  rewrite He in Hr. subst r.
  rewrite bind_run.
  pose proof (cleanup_resources_result name w1) as Hcr.
  pose proof (cleanup_resources_mgr name w1) as Hcm.
  pose proof (cleanup_resources_destroyed_menus name w1) as Hcd.
  destruct (_cleanup_resources name w1) as [w2 r]. simpl in Hcr, Hcm, Hcd. subst r.
  rewrite bind_exec, bind_run, destroy_submenu_run, bind_exec.
  match goal with |- context [?c ?w5] =>
    lazymatch type of w5 with world =>
      lazymatch type of c with py unit =>
        assert (preserves eq (λ w, (w_mgr w, w_destroyed_menus w)) c) as Hp
          by (unfold enabled_extensions_copy, build_extensions_menu, save_settings;
              frame);
        specialize (Hp w5); destruct (c w5) as [w6 r6]
      end
    end
  end.
  simpl in Hp. injection Hp as Hp1 Hp2. simpl. rewrite <- Hp1, <- Hp2.
  simpl. rewrite Hcm. simpl.
  destruct (submenus (w_mgr w1) !! name); simpl; rewrite ?Hcm; simpl;
    rewrite <- ?Hcd, ?app_nil_r; done.
Qed.

(** The registries of an extension after a [disable] whose teardown
    returned. *)
Lemma disable_registries (name : string) (w : world) (md : module) :
  loaded_get name (w_mgr w) = Some md →
  hook_raise (m_teardown md) = None →
  let w' := fst (disable name w) in
  resources (w_mgr w') !! name = Some []
  ∧ menu_items (w_mgr w') !! name = Some []
  ∧ submenus (w_mgr w') !! name = None
  ∧ info_enabled name (w_mgr w') = false
  ∧ w_destroyed_menus w'
    = w_destroyed_menus w ++ option_list (submenus (w_mgr w) !! name).
Proof.
  intros Hl He w'. subst w'.
  destruct (disable_after_teardown name w md Hl He) as [Hm Hd].
  pose proof (run_optional_frame (λ w, submenus (w_mgr w)) name (m_teardown md)
                ltac:(done) ltac:(done) ltac:(done) ltac:(done) w) as Hsub.
  pose proof (run_optional_frame w_destroyed_menus name (m_teardown md)
                ltac:(done) ltac:(done) ltac:(done) ltac:(done) w) as Hdm.
  simpl in Hsub, Hdm.
  rewrite Hm, Hd, <- Hsub, <- Hdm.
  split; [|split; [|split; [|split; [|done]]]].
  - destruct (submenus (w_mgr w) !! name); simpl; apply lookup_insert_eq.
  - destruct (submenus (w_mgr w) !! name); simpl; apply lookup_insert_eq.
  - destruct (submenus (w_mgr w) !! name) eqn:Hs; simpl; [apply lookup_delete_eq|].
    by rewrite <- Hsub.
  - unfold info_enabled, mark_enabled. simpl.
    destruct (submenus (w_mgr w) !! name); simpl; by rewrite alist_get_set_eq.
Qed.

(** X10: when the extension is loaded and its teardown hook returns,
    [disable] releases everything the manager holds for it: its resource
    list and its menu-item list are empty, its submenu is destroyed and
    forgotten, it is marked not enabled, and the dispose capability of
    each of its resources, those the teardown hook itself registered
    included, was invoked once, in registration order. *)
Theorem disable_releases_everything (name : string) (w : world) (md : module) :
  loaded_get name (w_mgr w) = Some md →
  hook_raise (m_teardown md) = None →
  let w' := fst (disable name w) in
  resources (w_mgr w') !! name = Some []
  ∧ menu_items (w_mgr w') !! name = Some []
  ∧ submenus (w_mgr w') !! name = None
  ∧ info_enabled name (w_mgr w') = false
  ∧ w_disposed w'
    = w_disposed w
      ++ omap disposal (default [] (resources (w_mgr w) !! name)
                        ++ registered_of (m_teardown md))
  ∧ w_destroyed_menus w'
    = w_destroyed_menus w ++ option_list (submenus (w_mgr w) !! name).
Proof.
  intros Hl He w'. subst w'.
  destruct (disable_registries name w md Hl He) as (Hr & Hm & Hs & Hi & Hd).
  repeat (split; [done|]). split; [by apply disable_disposes | done].
Qed.

Lemma disable_releases_everything_witness :
  let w := fst (get_submenu "greeter"
                  (fst (enable "greeter" (Scenario.boot Scenario.greeter [])))) in
  let w' := fst (disable "greeter" w) in
  resources (w_mgr w') !! "greeter" = Some []
  ∧ menu_items (w_mgr w') !! "greeter" = Some []
  ∧ submenus (w_mgr w') !! "greeter" = None
  ∧ info_enabled "greeter" (w_mgr w') = false
  ∧ w_disposed w'
    = w_disposed w
      ++ omap disposal (default [] (resources (w_mgr w) !! "greeter")
                        ++ registered_of (m_teardown Scenario.greeter))
  ∧ w_destroyed_menus w'
    = w_destroyed_menus w ++ option_list (submenus (w_mgr w) !! "greeter").
Proof.
  apply (disable_releases_everything "greeter" _ Scenario.greeter);
    vm_compute; reflexivity.
Defined.

Lemma run_hook_store (name : string) (h : hook) (w : world) :
  no_set_setting (Some h) = true →
  w_store (fst (run_hook name h w)) = w_store w.
Proof.
  unfold no_set_setting. simpl. revert w.
  induction h as [|c h IH]; intros w Hq; simpl in *; [done|].
  apply andb_true_iff in Hq as [Hc Hq]. rewrite bind_run.
  destruct c; try done; simpl; unfold exec, raise; simpl; try (by rewrite IH).
Qed.

Lemma run_optional_store (name : string) (h : option hook) (w : world) :
  no_set_setting h = true →
  w_store (fst (run_optional name h w)) = w_store w.
Proof. destruct h as [h|]; simpl; [apply run_hook_store | done]. Qed.

Lemma run_optional_disk (name : string) (h : option hook) :
  preserves eq w_disk_ok (run_optional name h).
Proof. by apply run_optional_frame. Qed.

(** What [enable] does once [setup] has returned. *)
Lemma enable_after_setup (name : string) (w : world) (md : module) :
  loaded_get name (w_mgr w) = Some md →
  hook_raise (m_setup md) = None →
  let w0 := with_mgr (λ m, set_menu_items (<[name := []]> (menu_items m)) m)
              (with_mgr (λ m, set_resources
                 (<[name := default [] (resources m !! name)]> (resources m)) m) w) in
  let w2 := with_mgr (mark_enabled name true)
              (fst (run_optional name (m_setup md) w0)) in
  enable name w
  = (cur ← enabled_extensions_copy ;
     isin ← lift (contains name cur) ;
     (if negb isin
      then cur' ← lift (append name cur) ;
           save_settings {["enabled_extensions" := cur']}
      else mret tt) ;;
     build_extensions_menu) w2.
Proof.
  intros Hl He. simpl. unfold enable, reading. rewrite Hl.
  rewrite !bind_exec, bind_run.
  match goal with |- context [run_optional name (m_setup md) ?w1] =>
    pose proof (run_optional_result name (m_setup md) w1) as Hr;
    destruct (run_optional name (m_setup md) w1) as [w2 r]
  end.
  simpl in Hr. rewrite He in Hr. subst r. by rewrite bind_exec.
Qed.

Lemma enable_persists (name : string) (w : world) (md : module) (l : list pyval) :
  loaded_get name (w_mgr w) = Some md →
  hook_raise (m_setup md) = None →
  no_set_setting (m_setup md) = true →
  Settings.get_setting "enabled_extensions" (VList []) (w_store w) = VList l →
  snd (enable name w) = Return tt
  ∧ w_store (fst (enable name w))
    = (if existsb (is_str name) l then w_store w
       else Settings.save_settings
              (if w_disk_ok w then Return tt else Raise (PyError "OSError"))
              {["enabled_extensions" := VList (l ++ [VStr name])]} (w_store w))
  ∧ w_menu_ext (fst (enable name w)) = derived_menu (w_mgr (fst (enable name w))).
Proof.
  intros Hl He Hq Hs. rewrite (enable_after_setup name w md Hl He).
  match goal with |- context [run_optional name (m_setup md) ?w0] =>
    pose proof (run_optional_store name (m_setup md) w0 Hq) as Hst;
    pose proof (run_optional_disk name (m_setup md) w0) as Hdk;
    destruct (run_optional name (m_setup md) w0) as [w1 r]
  end.
  simpl in Hst, Hdk.
  unfold enabled_extensions_copy, reading, lift, save_settings, build_extensions_menu,
    exec. rewrite !bind_run. simpl. rewrite Hst, Hs. simpl.
  destruct (existsb (is_str name) l); simpl; rewrite <- ?Hdk; by rewrite ?Hst.
Qed.

Lemma cleanup_resources_store (name : string) :
  preserves eq (λ w, (w_store w, w_disk_ok w)) (_cleanup_resources name).
Proof. unfold _cleanup_resources. frame. by apply cleanup_loop_frame. Qed.

Lemma disable_persists (name : string) (w : world) (md : module) (l : list pyval) :
  loaded_get name (w_mgr w) = Some md →
  hook_raise (m_teardown md) = None →
  no_set_setting (m_teardown md) = true →
  Settings.get_setting "enabled_extensions" (VList []) (w_store w) = VList l →
  w_store (fst (disable name w))
  = (if existsb (is_str name) l
     then Settings.save_settings
            (if w_disk_ok w then Return tt else Raise (PyError "OSError"))
            {["enabled_extensions" := VList (remove_first name l)]} (w_store w)
     else w_store w)
  ∧ w_menu_ext (fst (disable name w)) = derived_menu (w_mgr (fst (disable name w))).
Proof.
  intros Hl He Hq Hs. unfold disable, reading. rewrite Hl.
  rewrite try_pass_fst, bind_run.
  pose proof (run_optional_result name (m_teardown md) w) as Hr.
  pose proof (run_optional_store name (m_teardown md) w Hq) as Hst.
  pose proof (run_optional_disk name (m_teardown md) w) as Hdk.
  destruct (run_optional name (m_teardown md) w) as [w1 r]. simpl in Hr, Hst, Hdk.
  rewrite He in Hr. subst r.
  rewrite bind_run.
  pose proof (cleanup_resources_result name w1) as Hcr.
  pose proof (cleanup_resources_store name w1) as Hcs.
  destruct (_cleanup_resources name w1) as [w2 r]. simpl in Hcr, Hcs. subst r.
  injection Hcs as Hcs1 Hcs2.
  rewrite bind_exec, bind_run, destroy_submenu_run, bind_exec.
  unfold enabled_extensions_copy, reading, lift, save_settings, build_extensions_menu,
    exec. rewrite !bind_run.
  destruct (submenus _ !! name); simpl; rewrite <- Hcs1, Hst, Hs; simpl;
    destruct (existsb (is_str name) l); simpl;
    (split; [|done]); rewrite <- ?Hcs2, <- ?Hdk, <- ?Hcs1; congruence.
Qed.

Lemma enable_loaded (name : string) : preserves eq (λ w, loaded (w_mgr w)) (enable name).
Proof.
  unfold enable, enabled_extensions_copy, build_extensions_menu, save_settings.
  frame. by apply run_optional_frame.
Qed.

Lemma enable_disk (name : string) : preserves eq w_disk_ok (enable name).
Proof.
  unfold enable, enabled_extensions_copy, build_extensions_menu, save_settings.
  frame. by apply run_optional_frame.
Qed.

Lemma enable_resources (name : string) (w : world) (md : module) :
  loaded_get name (w_mgr w) = Some md →
  default [] (resources (w_mgr (fst (enable name w))) !! name)
  = default [] (resources (w_mgr w) !! name) ++ registered_of (m_setup md).
Proof.
  intros Hl. unfold enable, reading. rewrite Hl.
  rewrite !bind_exec, bind_run.
  match goal with |- context [run_optional name (m_setup md) ?w1] =>
    pose proof (run_optional_resources name (m_setup md) w1) as Hm;
    destruct (run_optional name (m_setup md) w1) as [w2 r]
  end.
  simpl in Hm. rewrite lookup_insert_eq in Hm. simpl in Hm.
  destruct r as [[]|e]; [|exact Hm].
  match goal with |- context [fst (?c w2)] =>
    assert (preserves eq (λ w, resources (w_mgr w)) c) as Hp
  end.
  { unfold enabled_extensions_copy, build_extensions_menu, save_settings. frame. }
  rewrite <- (Hp w2). exact Hm.
Qed.

Lemma remove_first_app_new (name : string) (l : list pyval) :
  existsb (is_str name) l = false →
  existsb (is_str name) (l ++ [VStr name]) = true
  ∧ remove_first name (l ++ [VStr name]) = l.
Proof.
  induction l as [|v l IH]; simpl.
  - intros _. by rewrite String.eqb_refl.
  - intros H. apply orb_false_iff in H as [Hv Hl]. rewrite Hv. simpl.
    destruct (IH Hl) as [-> ->]. done.
Qed.

Lemma get_after_save (key : string) (v dflt : pyval) (st : Settings.store) :
  Settings.get_setting key dflt (Settings.save_settings (Return tt) {[key := v]} st) = v.
Proof.
  unfold Settings.get_setting, Settings.save_settings.
  rewrite dict_truthy_singleton. simpl.
  by rewrite (dict_update_lookup_new _ _ _ v) by apply lookup_singleton_eq.
Qed.

(** X11: enabling and then disabling an extension whose hooks return and
    do not write settings themselves, while the settings file can be
    written and the extension is not yet in the persisted list: [enable]
    appends its name to the persisted [enabled_extensions], [disable]
    restores the list exactly as it was; afterwards the extension holds
    no resource and no menu item, is marked not enabled, and every
    resource it held before or registered in [setup] or [teardown] was
    disposed of once, in that order. *)
Theorem enable_then_disable_round_trip (name : string) (w : world) (md : module)
    (l : list pyval) :
  loaded_get name (w_mgr w) = Some md →
  hook_raise (m_setup md) = None →
  hook_raise (m_teardown md) = None →
  no_set_setting (m_setup md) = true →
  no_set_setting (m_teardown md) = true →
  Settings.get_setting "enabled_extensions" (VList []) (w_store w) = VList l →
  existsb (is_str name) l = false →
  w_disk_ok w = true →
  let on := fst (enable name w) in
  let off := fst (disable name on) in
  Settings.get_setting "enabled_extensions" (VList []) (w_store on)
  = VList (l ++ [VStr name])
  ∧ Settings.get_setting "enabled_extensions" (VList []) (w_store off) = VList l
  ∧ resources (w_mgr off) !! name = Some []
  ∧ menu_items (w_mgr off) !! name = Some []
  ∧ info_enabled name (w_mgr off) = false
  ∧ w_disposed off
    = w_disposed w
      ++ omap disposal (default [] (resources (w_mgr w) !! name)
                        ++ registered_of (m_setup md)
                        ++ registered_of (m_teardown md)).
Proof.
  intros Hl Hs Ht Hqs Hqt Hget Hnew Hdisk on off.
  destruct (enable_persists name w md l Hl Hs Hqs Hget) as (_ & Hstore & _).
  rewrite Hnew, Hdisk in Hstore.
  assert (Settings.get_setting "enabled_extensions" (VList []) (w_store on)
          = VList (l ++ [VStr name])) as Hon.
  { subst on. rewrite Hstore. apply get_after_save. }
  assert (loaded_get name (w_mgr on) = Some md) as Hl'.
  { subst on. unfold loaded_get. rewrite <- (enable_loaded name w). exact Hl. }
  destruct (remove_first_app_new name l Hnew) as [Hin Hrem].
  destruct (disable_persists name on md _ Hl' Ht Hqt Hon) as (Hoff & _).
  rewrite Hin, Hrem in Hoff.
  assert (w_disk_ok on = true) as Hdisk'.
  { subst on. by rewrite <- (enable_disk name w). }
  rewrite Hdisk' in Hoff.
  destruct (disable_registries name on md Hl' Ht) as (Hr & Hm & _ & Hi & _).
  split; [done|]. split.
  { subst off. rewrite Hoff. apply get_after_save. }
  split; [done|]. split; [done|]. split; [done|].
  subst off. rewrite (disable_disposes name on md Hl' Ht). subst on.
  rewrite <- (enable_disposed name w), (enable_resources name w md Hl).
  by rewrite <- app_assoc.
Qed.

Lemma enable_then_disable_round_trip_witness :
  let w := Scenario.boot Scenario.greeter [] in
  let on := fst (enable "greeter" w) in
  let off := fst (disable "greeter" on) in
  Settings.get_setting "enabled_extensions" (VList []) (w_store on)
  = VList ([] ++ [VStr "greeter"])
  ∧ Settings.get_setting "enabled_extensions" (VList []) (w_store off) = VList []
  ∧ resources (w_mgr off) !! "greeter" = Some []
  ∧ menu_items (w_mgr off) !! "greeter" = Some []
  ∧ info_enabled "greeter" (w_mgr off) = false
  ∧ w_disposed off
    = w_disposed w
      ++ omap disposal (default [] (resources (w_mgr w) !! "greeter")
                        ++ registered_of (m_setup Scenario.greeter)
                        ++ registered_of (m_teardown Scenario.greeter)).
Proof.
  apply (enable_then_disable_round_trip "greeter" (Scenario.boot Scenario.greeter [])
           Scenario.greeter []); vm_compute; reflexivity.
Defined.

Ltac other_step :=
  unfold slice; simpl;
  rewrite ?lookup_insert_ne, ?lookup_delete_ne, ?alist_get_set_ne by done; done.

Lemma run_optional_slice_other (name other : string) (h : option hook) :
  name ≠ other → preserves eq (slice other) (run_optional name h).
Proof.
  intros Hne. apply run_optional_frame; intros; other_step.
Qed.

Lemma enable_slice_other (name other : string) :
  name ≠ other → preserves eq (slice other) (enable name).
Proof.
  intros Hne.
  unfold enable, enabled_extensions_copy, build_extensions_menu, save_settings.
  frame; try (by apply run_optional_slice_other); other_step.
Qed.

Lemma disable_slice_other (name other : string) :
  name ≠ other → preserves eq (slice other) (disable name).
Proof.
  intros Hne.
  unfold disable, _cleanup_resources, destroy_submenu, enabled_extensions_copy,
    build_extensions_menu, save_settings.
  frame; try (by apply run_optional_slice_other);
    try (by apply cleanup_loop_frame); other_step.
Qed.

(** X12: [enable(name)] and [disable(name)] leave what the manager holds
    for every other extension exactly as it was: its module, its
    descriptor (the enabled flag included), its resources, its menu items
    and its submenu; whether the call returns or raises. *)
Theorem enable_disable_leave_others_alone (name other : string) (w : world) :
  name ≠ other →
  slice other (fst (enable name w)) = slice other w
  ∧ slice other (fst (disable name w)) = slice other w.
Proof.
  intros Hne. split; symmetry.
  - by apply (enable_slice_other name other).
  - by apply (disable_slice_other name other).
Qed.

Lemma enable_disable_leave_others_alone_witness :
  let w := fst (load_all Samples.two_files) in
  slice "broken" (fst (enable "greeter" w)) = slice "broken" w
  ∧ slice "broken" (fst (disable "greeter" w)) = slice "broken" w.
Proof.
  apply (enable_disable_leave_others_alone "greeter" "broken"). discriminate.
Defined.

Lemma info_enabled_slice (n : string) (w w' : world) :
  slice n w' = slice n w → info_enabled n (w_mgr w') = info_enabled n (w_mgr w).
Proof.
  unfold slice, info_enabled. intros H. injection H as _ Hi _ _ _. by rewrite Hi.
Qed.

Lemma enable_keeps_enabled_loaded (name : string) (w : world) :
  enabled_are_loaded (w_mgr w) → enabled_are_loaded (w_mgr (fst (enable name w))).
Proof.
  intros HP n Hn. unfold loaded_get. rewrite <- (enable_loaded name w).
  fold (loaded_get n (w_mgr w)).
  destruct (decide (name = n)) as [->|Hne].
  - destruct (loaded_get n (w_mgr w)) as [md|] eqn:Hl; [done|].
    rewrite (enable_not_loaded n w Hl) in Hn. simpl in Hn.
    rewrite <- Hl. by apply HP.
  - apply HP. rewrite <- Hn. symmetry. apply info_enabled_slice.
    symmetry. by apply (enable_slice_other name n).
Qed.

Lemma disable_keeps_enabled_loaded (name : string) (w : world) :
  enabled_are_loaded (w_mgr w) → enabled_are_loaded (w_mgr (fst (disable name w))).
Proof.
  intros HP n Hn. rewrite loaded_get_disable.
  destruct (decide (name = n)) as [->|Hne].
  - destruct (loaded_get n (w_mgr w)) as [md|] eqn:Hl; [done|].
    assert (disable n w = (w, Return tt)) as Hd
      by (unfold disable, reading; by rewrite Hl).
    rewrite Hd in Hn. simpl in Hn. rewrite <- Hl. by apply HP.
  - apply HP. rewrite <- Hn. symmetry. apply info_enabled_slice.
    symmetry. by apply (disable_slice_other name n).
Qed.

Lemma load_one_keeps_enabled_loaded (enabled : pyval) (f : ext_file) (w : world) :
  enabled_are_loaded (w_mgr w) → enabled_are_loaded (w_mgr (fst (load_one enabled f w))).
Proof.
  intros HP n. unfold load_one, try_except. rewrite bind_run. unfold lift at 1.
  destruct (f_import f) as [md|e].
  - rewrite bind_exec, bind_run. unfold lift at 1.
    destruct (contains (f_name f) enabled) as [isin|e]; simpl.
    + unfold info_enabled, loaded_get. simpl.
      destruct (decide (f_name f = n)) as [->|Hne].
      * by rewrite lookup_insert_eq.
      * rewrite alist_get_set_ne, lookup_insert_ne by done. apply HP.
    + unfold info_enabled, loaded_get. simpl.
      destruct (decide (f_name f = n)) as [->|Hne].
      * by rewrite alist_get_set_eq.
      * rewrite alist_get_set_ne, !lookup_insert_ne by done. apply HP.
  - simpl. unfold info_enabled, loaded_get. simpl.
    destruct (decide (f_name f = n)) as [->|Hne].
    + by rewrite alist_get_set_eq.
    + rewrite alist_get_set_ne, lookup_insert_ne by done. apply HP.
Qed.

Lemma load_loop_keeps_enabled_loaded (enabled : pyval) (files : list ext_file) (w : world) :
  enabled_are_loaded (w_mgr w) →
  enabled_are_loaded (w_mgr (fst (load_loop enabled files w))).
Proof.
  revert w. induction files as [|f files IH]; intros w HP; simpl; [done|].
  rewrite bind_run.
  pose proof (load_one_keeps_enabled_loaded enabled f w HP) as H1.
  destruct (load_one enabled f w) as [w1 [[]|e]]; simpl in *; [by apply IH | done].
Qed.

Lemma enable_loop_keeps_enabled_loaded (names : list string) (w : world) :
  enabled_are_loaded (w_mgr w) →
  enabled_are_loaded (w_mgr (fst (enable_loop names w))).
Proof.
  revert w. induction names as [|n names IH]; intros w HP; simpl; [done|].
  rewrite bind_run. unfold reading at 1.
  destruct (info_enabled n (w_mgr w)); simpl; [|by apply IH].
  pose proof (try_pass_result (enable n) w) as Hr.
  pose proof (try_pass_fst (enable n) w) as Hf.
  destruct (try_pass (enable n) w) as [w1 r]. simpl in *. subst r w1.
  apply IH. by apply enable_keeps_enabled_loaded.
Qed.

(** X13: an extension that is marked enabled has a module object.
    [load_all] establishes this from any state, whatever the imports and
    the hooks do, and [enable] and [disable] keep it: a failed import or a
    failed [disable] never leaves an enabled extension without code. *)
Theorem load_all_establishes_enabled_loaded (w : world) (name : string) :
  enabled_are_loaded (w_mgr (fst (load_all w)))
  ∧ (enabled_are_loaded (w_mgr w) →
       enabled_are_loaded (w_mgr (fst (enable name w)))
       ∧ enabled_are_loaded (w_mgr (fst (disable name w)))).
Proof.
  split.
  - unfold load_all. rewrite bind_run. unfold reading at 1.
    pose proof (disable_loop_result (map fst (info (w_mgr w))) w) as Hr.
    destruct (disable_loop _ w) as [w1 r]. simpl in Hr. subst r.
    unfold reload. rewrite bind_exec, bind_run. unfold reading at 1.
    match goal with |- context [load_loop ?en ?fs ?w2] =>
      pose proof (load_loop_result en fs w2) as Hr;
      pose proof (load_loop_keeps_enabled_loaded en fs w2) as HP;
      destruct (load_loop en fs w2) as [w3 r]
    end.
    simpl in Hr. subst r. unfold reading.
    apply enable_loop_keeps_enabled_loaded. apply HP.
    intros n Hn. by vm_compute in Hn.
  - intros HP. split;
      [by apply enable_keeps_enabled_loaded | by apply disable_keeps_enabled_loaded].
Qed.

Lemma load_one_at (enabled : pyval) (f : ext_file) (w : world) :
  let w' := fst (load_one enabled f w) in
  loaded (w_mgr w') !! f_name f = Some (fst (entry_of enabled f))
  ∧ alist_get (f_name f) (info (w_mgr w')) = Some (snd (entry_of enabled f)).
Proof.
  simpl. unfold load_one, try_except, entry_of, failed_info.
  rewrite bind_run. unfold lift at 1.
  destruct (f_import f) as [md|e].
  - rewrite bind_exec, bind_run. unfold lift at 1.
    destruct (contains (f_name f) enabled) as [isin|e]; simpl;
      by rewrite lookup_insert_eq, alist_get_set_eq.
  - simpl. by rewrite lookup_insert_eq, alist_get_set_eq.
Qed.

Lemma load_one_other (enabled : pyval) (f : ext_file) (other : string) :
  f_name f ≠ other →
  preserves eq (λ w, (loaded (w_mgr w) !! other, alist_get other (info (w_mgr w))))
            (load_one enabled f).
Proof.
  intros Hne. unfold load_one. frame; simpl;
    by rewrite ?lookup_insert_ne, ?alist_get_set_ne by done.
Qed.

Lemma load_loop_at (enabled : pyval) (files : list ext_file) (w : world) (f : ext_file) :
  NoDup (map f_name files) → f ∈ files →
  let w' := fst (load_loop enabled files w) in
  loaded (w_mgr w') !! f_name f = Some (fst (entry_of enabled f))
  ∧ alist_get (f_name f) (info (w_mgr w')) = Some (snd (entry_of enabled f)).
Proof.
  simpl. revert w. induction files as [|f0 files IH]; intros w Hnd Hin; simpl in *.
  - by apply elem_of_nil in Hin.
  - apply NoDup_cons in Hnd as [Hnotin Hnd]. rewrite bind_run.
    pose proof (load_loop_result enabled [f0] w) as Hr. simpl in Hr.
    rewrite bind_run in Hr.
    pose proof (load_one_at enabled f0 w) as Hat.
    destruct (load_one enabled f0 w) as [w1 [[]|e]]; simpl in *; [|done].
    apply elem_of_cons in Hin as [->|Hin]; [|by apply IH].
    assert (preserves eq (λ w, (loaded (w_mgr w) !! f_name f0,
                                alist_get (f_name f0) (info (w_mgr w))))
                      (load_loop enabled files)) as Hp.
    { clear -Hnotin. induction files as [|g files IH]; simpl; frame.
      - apply load_one_other. intros Heq. apply Hnotin. rewrite <- Heq. simpl.
        apply list_elem_of_here.
      - apply IH. intros Hin. apply Hnotin. simpl. by apply list_elem_of_further. }
    specialize (Hp w1). simpl in Hp. injection Hp as Hp1 Hp2.
    by rewrite <- Hp1, <- Hp2.
Qed.

Lemma enable_loop_loaded (names : list string) :
  preserves eq (λ w, loaded (w_mgr w)) (enable_loop names).
Proof.
  induction names as [|n names IH]; simpl; frame; [apply enable_loaded | exact IH].
Qed.

Lemma alist_get_set_is_Some {V} (k k' : string) (v : V) (d : list (string * V)) :
  is_Some (alist_get k' d) → is_Some (alist_get k' (alist_set k v d)).
Proof.
  destruct (decide (k = k')) as [->|Hne].
  - by rewrite alist_get_set_eq.
  - by rewrite alist_get_set_ne.
Qed.

Lemma enable_loop_keeps_descriptors (names : list string) (n : string) :
  preserves (λ a b : bool, a = true → b = true)
            (λ w, bool_decide (is_Some (alist_get n (info (w_mgr w)))))
            (enable_loop names).
Proof.
  assert (PreOrder (λ a b : bool, a = true → b = true)) as Hpre.
  { split; [by intros ? | intros ??? H1 H2 H; by apply H2, H1]. }
  assert (∀ name, preserves (λ a b : bool, a = true → b = true)
            (λ w, bool_decide (is_Some (alist_get n (info (w_mgr w)))))
            (enable name)) as Hen.
  { intros name.
    unfold enable, enabled_extensions_copy, build_extensions_menu, save_settings.
    frame; try done.
    - apply (preserves_weaken eq); [by intros ?? -> |].
      by apply run_optional_frame.
    - simpl. rewrite bool_decide_eq_true in *. by apply alist_get_set_is_Some. }
  induction names as [|k names IH]; simpl; frame; [apply Hen | exact IH].
Qed.

Lemma enable_loop_unloaded (names : list string) (n : string) (w : world) :
  loaded_get n (w_mgr w) = None →
  slice n (fst (enable_loop names w)) = slice n w.
Proof.
  revert w. induction names as [|k names IH]; intros w Hl; simpl; [done|].
  rewrite bind_run. unfold reading at 1.
  destruct (info_enabled k (w_mgr w)); simpl; [|by apply IH].
  pose proof (try_pass_result (enable k) w) as Hr.
  pose proof (try_pass_fst (enable k) w) as Hf.
  destruct (try_pass (enable k) w) as [w1 r]. simpl in *. subst r w1.
  assert (slice n (fst (enable k w)) = slice n w) as Hs.
  { destruct (decide (k = n)) as [->|Hne].
    - by rewrite (enable_not_loaded n w Hl).
    - symmetry. by apply (enable_slice_other k n). }
  rewrite IH; [done|].
  unfold loaded_get. rewrite <- (enable_loaded k w). exact Hl.
Qed.

Lemma disable_loop_ext_dir (names : list string) :
  preserves eq w_ext_dir (disable_loop names).
Proof.
  induction names as [|n ns IH]; simpl; frame; [|exact IH].
  unfold disable, _cleanup_resources, destroy_submenu, enabled_extensions_copy,
    build_extensions_menu, save_settings.
  frame; [by apply run_optional_frame | by apply cleanup_loop_frame].
Qed.

(** [load_all], cut at the point where the loading loop is done. *)
Lemma load_all_run (w : world) :
  ∃ enabled w2 w3,
    w_ext_dir w2 = w_ext_dir w
    ∧ load_loop enabled (w_ext_dir w2) w2 = (w3, Return tt)
    ∧ load_all w = enable_loop (map fst (info (w_mgr w3))) w3.
Proof.
  unfold load_all. rewrite bind_run. unfold reading at 1.
  pose proof (disable_loop_result (map fst (info (w_mgr w))) w) as Hr.
  pose proof (disable_loop_ext_dir (map fst (info (w_mgr w))) w) as Hdir.
  destruct (disable_loop _ w) as [w1 r]. simpl in Hr, Hdir. subst r.
  unfold reload. rewrite bind_exec, bind_run. unfold reading at 1.
  match goal with |- context [load_loop ?en (w_ext_dir ?w2) ?w2] =>
    exists en, w2;
    pose proof (load_loop_result en (w_ext_dir w2) w2) as Hr;
    destruct (load_loop en (w_ext_dir w2) w2) as [w3 r]
  end.
  simpl in Hr. subst r. exists w3. by repeat split.
Qed.

Lemma contains_raises (name : string) (cur : pyval) (e : pyexc) :
  contains name cur = Raise e →
  ∃ type, e = PyError ("argument of type '" +:+ type +:+ "' is not iterable").
Proof.
  destruct cur; simpl; intros [= <-];
    [by exists "NoneType" | by exists "bool" | by exists "int"].
Qed.

(** X14: [load_all] returns, and one extension that cannot be loaded
    does not keep the others from being loaded.  For the files found in
    the extension directory (their names are distinct, being the keys of
    a dict): every file has a descriptor afterwards; a file whose import
    raises is recorded with no module and a descriptor that is not
    enabled and carries the error text; a file whose import succeeds has
    its module loaded, unless the membership test on the persisted
    enabled list raised (the persisted value is not a container), in which
    case it is recorded as failed with the text of that [TypeError],
    which names the type of the persisted value. *)
Theorem load_all_isolates_load_failures (w : world) :
  NoDup (map f_name (w_ext_dir w)) →
  let w' := fst (load_all w) in
  snd (load_all w) = Return tt
  ∧ ∀ f, f ∈ w_ext_dir w →
      is_Some (alist_get (f_name f) (info (w_mgr w')))
      ∧ match f_import f with
        | Raise e =>
            loaded (w_mgr w') !! f_name f = Some None
            ∧ alist_get (f_name f) (info (w_mgr w')) = Some (failed_info f e)
        | Return md =>
            loaded (w_mgr w') !! f_name f = Some (Some md)
            ∨ (loaded (w_mgr w') !! f_name f = Some None
               ∧ ∃ type,
                   alist_get (f_name f) (info (w_mgr w'))
                   = Some (failed_info f
                             (PyError ("argument of type '" +:+ type
                                       +:+ "' is not iterable"))))
        end.
Proof.
  intros Hnd w'. subst w'.
  destruct (load_all_run w) as (enabled & w2 & w3 & Hdir & Hloop & ->).
  split; [apply enable_loop_result|].
  intros f Hin. rewrite <- Hdir in Hnd, Hin.
  pose proof (load_loop_at enabled (w_ext_dir w2) w2 f Hnd Hin) as Hat.
  rewrite Hloop in Hat. simpl in Hat. destruct Hat as [Hl Hi].
  pose proof (enable_loop_loaded (map fst (info (w_mgr w3))) w3) as Hload.
  simpl in Hload. rewrite <- Hload.
  assert (loaded (w_mgr w3) !! f_name f = Some None →
          alist_get (f_name f) (info (w_mgr (fst (enable_loop (map fst (info (w_mgr w3))) w3))))
          = alist_get (f_name f) (info (w_mgr w3))) as Hkeep.
  { intros Hnone.
    pose proof (enable_loop_unloaded (map fst (info (w_mgr w3))) (f_name f) w3) as Hs.
    unfold slice, loaded_get in Hs. rewrite Hnone in Hs. specialize (Hs eq_refl).
    by injection Hs as _ Hs _ _ _. }
  split.
  - pose proof (enable_loop_keeps_descriptors (map fst (info (w_mgr w3))) (f_name f) w3)
      as Hk. simpl in Hk. rewrite !bool_decide_eq_true in Hk. apply Hk. by rewrite Hi.
  - unfold entry_of in Hl, Hi. destruct (f_import f) as [md|e].
    + destruct (contains (f_name f) enabled) as [isin|e] eqn:Hc; simpl in Hl, Hi.
      * by left.
      * right. split; [done|]. rewrite (Hkeep Hl), Hi.
        destruct (contains_raises _ _ _ Hc) as (type & ->). by exists type.
    + simpl in Hl, Hi. split; [done|]. by rewrite (Hkeep Hl).
Qed.

Lemma load_all_isolates_load_failures_witness :
  let w' := fst (load_all Samples.two_files) in
  snd (load_all Samples.two_files) = Return tt
  ∧ ∀ f, f ∈ w_ext_dir Samples.two_files →
      is_Some (alist_get (f_name f) (info (w_mgr w')))
      ∧ match f_import f with
        | Raise e =>
            loaded (w_mgr w') !! f_name f = Some None
            ∧ alist_get (f_name f) (info (w_mgr w')) = Some (failed_info f e)
        | Return md =>
            loaded (w_mgr w') !! f_name f = Some (Some md)
            ∨ (loaded (w_mgr w') !! f_name f = Some None
               ∧ ∃ type,
                   alist_get (f_name f) (info (w_mgr w'))
                   = Some (failed_info f
                             (PyError ("argument of type '" +:+ type
                                       +:+ "' is not iterable"))))
        end.
Proof.
  apply (load_all_isolates_load_failures Samples.two_files).
  apply (bool_decide_unpack _). vm_compute. reflexivity.
Defined.

End Extensions_more.

(* ===================================================================== *)
(** ** The check buttons of the extensions menu *)
(* ===================================================================== *)

Section ExtensionsMenu_facts.
Import Extensions ExtensionsMenu.


End ExtensionsMenu_facts.
(* ===================================================================== *)
(** ** Debugger worker: stepping, parking, quit and continue *)
(* ===================================================================== *)

Section Debugger_more.
Import Debugger Stepping.

Lemma stops_S (f : string) (first : Z) (n : nat) :
  stops f first (S n) = stopped f first :: stops f (first + 1) n.
Proof.
  unfold stops. simpl. rewrite Z.add_0_r. f_equal.
  rewrite <- seq_shift, map_map. apply map_ext. intros i. f_equal. lia.
Qed.

Lemma stops_1 (f : string) (first : Z) : stops f first 1 = [stopped f first].
Proof. unfold stops. simpl. by rewrite Z.add_0_r. Qed.

Lemma stops_app (f : string) (first : Z) (n m : nat) :
  stops f first (n + m) = stops f first n ++ stops f (first + Z.of_nat n) m.
Proof.
  revert first. induction n as [|n IH]; intros first.
  - simpl. by rewrite Z.add_0_r.
  - change (S n + m) with (S (n + m)). rewrite !stops_S, IH. simpl.
    do 3 f_equal. lia.
Qed.

Lemma stops_are_stops (f : string) (first : Z) (n : nat) :
  Forall (λ m, is_stopped m = true) (stops f first n).
Proof. unfold stops. apply Forall_map, Forall_forall. done. Qed.

(** One line in single-step mode, answered by a stepping directive. *)
Lemma dispatch_line_stepping (w : window) (lineno : Z) (g : SimpleGuiBdb)
    (a : action) (ds : list action) (out : list message) :
  single_stepping g → is_stepping a = true →
  ∃ g', dispatch_line w lineno (mkSession g (a :: ds) out)
        = (mkSession g' ds (out ++ [stopped (canonic w (filename g)) lineno]), Normal)
        ∧ single_stepping g'
        ∧ filename g' = filename g ∧ breaks (base g') = breaks (base g).
Proof.
  intros (Hm & Hq & Hs) Ha. unfold dispatch_line, user_line, stop_here. simpl.
  rewrite Hm, Hs. simpl.
  destruct a; try done; simpl; rewrite ?Hq; eexists; (split; [reflexivity|]);
    by repeat split.
Qed.

Lemma exec_lines_stepping (w : window) (n : nat) (lineno : Z) (g : SimpleGuiBdb)
    (pre ds : list action) (out : list message) :
  single_stepping g → forallb is_stepping pre = true → length pre = n →
  ∃ g', exec_lines w lineno (replicate n Pass) (mkSession g (pre ++ ds) out)
        = (mkSession g' ds (out ++ stops (canonic w (filename g)) lineno n), Normal)
        ∧ single_stepping g'
        ∧ filename g' = filename g ∧ breaks (base g') = breaks (base g).
Proof.
  revert lineno g pre out. induction n as [|n IH]; intros lineno g pre out Hg Hpre Hlen.
  - destruct pre; [|done]. exists g. simpl. unfold stops. simpl.
    by rewrite app_nil_r.
  - destruct pre as [|a pre]; [done|]. simpl in *.
    apply andb_true_iff in Hpre as [Ha Hpre].
    destruct (dispatch_line_stepping w lineno g a (pre ++ ds) out Hg Ha)
      as (g1 & -> & Hg1 & Hf1 & Hb1).
    destruct (IH (lineno + 1)%Z g1 pre (out ++ [stopped (canonic w (filename g)) lineno])
                Hg1 Hpre ltac:(lia)) as (g2 & -> & Hg2 & Hf2 & Hb2).
    exists g2. rewrite stops_S, Hf1, <- app_assoc. simpl.
    repeat split; try apply Hg2; congruence.
Qed.

Lemma thread_runner_parked (w : window) (src : source) (fname : string)
    (ds : list action) (sts : list message) :
  _thread_runner w src fname ds = (sts, Parked) →
  ∃ cmd s1, compile src = Return cmd
    ∧ exec w cmd (mkSession (on_base reset (SimpleGuiBdb_init w fname)) ds [])
      = (s1, Parked)
    ∧ stream s1 = sts.
Proof.
  unfold _thread_runner, traced_run, run.
  destruct (compile src) as [cmd|e]; [|by destruct e].
  cbn [gui_bdb directives stream].
  destruct (exec w cmd _) as [s1 f] eqn:He.
  destruct f as [|[|t]|t| |]; try done.
  intros [= <-]. by exists cmd, s1.
Qed.

Lemma thread_runner_after (w : window) (src : source) (fname : string)
    (ds : list action) (cmd : code) (s : session) (f : flow) :
  compile src = Return cmd →
  exec w cmd (mkSession (on_base reset (SimpleGuiBdb_init w fname)) ds []) = (s, f) →
  _thread_runner w src fname ds = (stream s ++ report f, after_run f).
Proof.
  unfold _thread_runner, traced_run, run. intros -> He.
  cbn [gui_bdb directives stream]. rewrite He.
  destruct f as [|[|t]|t| |]; simpl; by rewrite <- ?app_assoc, ?app_nil_r.
Qed.

Lemma exec_code_pass (w : window) (n : nat) (s : session) :
  1 ≤ n → exec w (Lines (replicate n Pass)) s = exec_lines w 1 (replicate n Pass) s.
Proof. intros H. destruct n; [lia | done]. Qed.

Lemma started_single_stepping (w : window) (fname : string) :
  single_stepping (on_base reset (SimpleGuiBdb_init w fname)).
Proof. by repeat split. Qed.

(** X16: a session on a source of [n] simple statements that raise
    nothing, [n] at least 1, one on each of the lines 1 to [n], every
    stop answered by a stepping directive ([step], [next], or a value
    [user_line] does not know): the worker reports a stop on each line,
    in order, each under the canonical file name, then [finished], and
    ends normally. *)
Theorem single_stepping_reports_every_line (w : window) (fname : string) (n : nat)
    (ds : list action) :
  forallb is_stepping ds = true →
  1 ≤ n →
  n ≤ length ds →
  _thread_runner w (Code (replicate n Pass)) fname ds
  = (stops (canonic w fname) 1 n ++ [finished], Normal).
Proof.
  intros Hds Hn Hlen.
  destruct (exec_lines_stepping w n 1 (on_base reset (SimpleGuiBdb_init w fname))
              (take n ds) (drop n ds) [] (started_single_stepping w fname))
    as (g' & Hrun & _).
  - rewrite <- (take_drop n ds), forallb_app in Hds.
    by apply andb_true_iff in Hds as [? _].
  - rewrite length_take. lia.
  - rewrite take_drop, <- exec_code_pass in Hrun by done.
    by rewrite (thread_runner_after w (Code (replicate n Pass)) fname ds _ _ _ eq_refl Hrun).
Qed.

Lemma single_stepping_reports_every_line_witness :
  _thread_runner Scenario.window0 (Code (replicate 3 Pass)) "prog.py"
                 [step; next; other "jump"; step]
  = (stops (canonic Scenario.window0 "prog.py") 1 3 ++ [finished], Normal).
Proof.
  apply (single_stepping_reports_every_line Scenario.window0 "prog.py" 3
           [step; next; other "jump"; step]).
  - reflexivity.
  - lia.
  - simpl. lia.
Defined.

(** X17: when the directives run out before the program does, the
    worker reports the stop it is at and stays parked on it: the stream
    is the stops answered so far plus that one, and neither [finished]
    nor any other message follows.  With no directive at all (nothing in
    the window calls [set_action]) that is one stop, on line 1. *)
Theorem worker_waits_for_a_directive (w : window) (fname : string) (n : nat)
    (ds : list action) :
  forallb is_stepping ds = true →
  length ds < n →
  _thread_runner w (Code (replicate n Pass)) fname ds
  = (stops (canonic w fname) 1 (S (length ds)), Parked).
Proof.
  intros Hds Hlen.
  set (s0 := mkSession (on_base reset (SimpleGuiBdb_init w fname)) ds []).
  assert (exec w (Lines (replicate n Pass)) s0
          = (mkSession (gui_bdb (fst (exec w (Lines (replicate n Pass)) s0))) []
                       (stops (canonic w fname) 1 (S (length ds))), Parked)) as He.
  { rewrite exec_code_pass by lia. subst s0.
    replace n with (length ds + S (n - length ds - 1)) by lia.
    rewrite replicate_add, exec_lines_app.
    destruct (exec_lines_stepping w (length ds) 1
                (on_base reset (SimpleGuiBdb_init w fname)) ds [] []
                (started_single_stepping w fname) Hds eq_refl)
      as (g' & Hrun & (Hm & Hq & Hs) & Hf & _).
    rewrite app_nil_r in Hrun. simpl in Hrun. rewrite Hrun. simpl.
    unfold dispatch_line, user_line, stop_here. simpl. rewrite Hm, Hs. simpl.
    rewrite length_replicate, Hf. simpl.
    replace (S (length ds)) with (length ds + 1) by lia.
    by rewrite stops_app, stops_1. }
  rewrite (thread_runner_after w (Code (replicate n Pass)) fname ds _ _ _ eq_refl He). simpl.
  by rewrite app_nil_r.
Qed.

Lemma worker_waits_for_a_directive_witness :
  _thread_runner Scenario.window0 (Code (replicate 5 Pass)) "<string>" [step; step]
  = (stops (canonic Scenario.window0 "<string>") 1 3, Parked).
Proof.
  apply (worker_waits_for_a_directive Scenario.window0 "<string>" 5 [step; step]).
  - reflexivity.
  - simpl. lia.
Defined.

(** *** Quit *)

Lemma user_line_more (w : window) (f : string) (lineno : Z) (s s1 : session)
    (x : list action) :
  user_line w f lineno s = (s1, Normal) →
  user_line w f lineno (more x s) = (more x s1, Normal).
Proof.
  unfold user_line, more. simpl. destruct (_stop_requested (gui_bdb s)); [done|].
  destruct (directives s) as [|a ds]; [done|]. simpl.
  destruct a; intros [= <-]; done.
Qed.

Lemma user_line_quit (w : window) (f : string) (lineno : Z) (s s1 : session)
    (rest : list action) :
  user_line w f lineno s = (s1, Parked) →
  ∃ s2, user_line w f lineno (more (quit :: rest) s) = (s2, Exc BdbQuit)
        ∧ stream s2 = stream s1.
Proof.
  unfold user_line, more. simpl. destruct (_stop_requested (gui_bdb s)); [done|].
  destruct (directives s) as [|a ds]; simpl.
  - intros [= <-]. by eexists.
  - by destruct a.
Qed.

Lemma dispatch_line_more (w : window) (lineno : Z) (s s1 : session)
    (x : list action) :
  dispatch_line w lineno s = (s1, Normal) →
  dispatch_line w lineno (more x s) = (more x s1, Normal).
Proof.
  unfold dispatch_line.
  change (base (gui_bdb (more x s))) with (base (gui_bdb s)).
  change (filename (gui_bdb (more x s))) with (filename (gui_bdb s)).
  destruct (stop_here _ || break_here _ _ _); [|by intros [= <-]].
  destruct (user_line w _ lineno s) as [s' f] eqn:Hu.
  destruct f as [|[]| | |]; try done.
  rewrite (user_line_more _ _ _ _ _ x Hu).
  change (base (gui_bdb (more x s'))) with (base (gui_bdb s')).
  destruct (quitting _); [done|]. by intros [= <-].
Qed.

Lemma dispatch_line_quit (w : window) (lineno : Z) (s s1 : session)
    (rest : list action) :
  dispatch_line w lineno s = (s1, Parked) →
  ∃ s2, dispatch_line w lineno (more (quit :: rest) s) = (s2, Exc BdbQuit)
        ∧ stream s2 = stream s1.
Proof.
  unfold dispatch_line.
  change (base (gui_bdb (more (quit :: rest) s))) with (base (gui_bdb s)).
  change (filename (gui_bdb (more (quit :: rest) s))) with (filename (gui_bdb s)).
  destruct (stop_here _ || break_here _ _ _); [|done].
  destruct (user_line w _ lineno s) as [s' f] eqn:Hu.
  destruct f as [|[]| | |]; try done.
  - by destruct (quitting _).
  - intros [= <-]. destruct (user_line_quit _ _ _ _ _ rest Hu) as (s2 & -> & Hs).
    by exists s2.
Qed.

(** A worker parked on a line of a straight-line module gets [quit]:
    [BdbQuit] leaves the module, and nothing was put on the queue. *)
Lemma exec_lines_quit (w : window) (body : list stmt) (rest : list action) :
  ∀ lineno s s1,
  exec_lines w lineno body s = (s1, Parked) →
  ∃ s2, exec_lines w lineno body (more (quit :: rest) s) = (s2, Exc BdbQuit)
        ∧ stream s2 = stream s1.
Proof.
  induction body as [|st body IH]; intros lineno s s1; simpl; [done|].
  destruct (dispatch_line w lineno s) as [s' f] eqn:Hd.
  destruct f as [|[]| | |]; try done.
  - rewrite (dispatch_line_more _ _ _ _ _ Hd). destruct st; [apply IH | done].
  - intros [= <-]. destruct (dispatch_line_quit _ _ _ _ rest Hd) as (s2 & -> & Hs).
    by exists s2.
Qed.

Lemma ends_not_parked (e : ending) : ends e ≠ Parked.
Proof. by destruct e. Qed.

(** The same for a traced program: the run goes on to what the stop
    says a quit leads to. *)
Lemma exec_traced_quit (w : window) (p : list reply → node) (ds : list action) :
  ∀ h g out s1,
  exec_traced w p h ds g out = (s1, Parked) →
  ∃ e, ∀ rest, ∃ s2,
    exec_traced w p h (ds ++ quit :: rest) g out = (s2, ends e)
    ∧ stream s2 = stream s1.
Proof.
  induction ds as [|a ds IH]; intros h g out s1; simpl.
  - destruct (p h) as [f l oq|e]; [|intros [= _ H]; by apply ends_not_parked in H].
    unfold user_line. simpl. destruct (_stop_requested g); simpl.
    + intros [= _ H]. by apply ends_not_parked in H.
    + intros [= <-]. exists oq. intros rest. by eexists.
  - destruct (p h) as [f l oq|e]; [|intros [= _ H]; by apply ends_not_parked in H].
    unfold user_line. simpl. destruct (_stop_requested g); simpl.
    + intros [= _ H]. by apply ends_not_parked in H.
    + destruct a; simpl; try apply IH.
      intros [= _ H]. by apply ends_not_parked in H.
Qed.


(** A worker parked on a stop gets [quit]: no directive after it is
    read, nothing but the report of the end is put on the queue, and a
    straight-line module ends there. *)
Lemma quit_at_a_stop (w : window) (src : source) (fname : string)
    (pre : list action) (sts : list message) :
  _thread_runner w src fname pre = (sts, Parked) →
  ∃ e, (∀ body, src = Code body → e = Uncaught BdbQuit)
       ∧ ∀ rest, _thread_runner w src fname (pre ++ quit :: rest)
                 = (sts ++ report (ends e), after_run (ends e)).
Proof.
  intros Hpark.
  destruct (thread_runner_parked _ _ _ _ _ Hpark) as (cmd & s1 & Hc & He & <-).
  destruct cmd as [body|p].
  - exists (Uncaught BdbQuit). split; [done|]. intros rest.
    assert (∃ s2, exec w (Lines body)
                    (mkSession (on_base reset (SimpleGuiBdb_init w fname))
                               (pre ++ quit :: rest) [])
                  = (s2, Exc BdbQuit) ∧ stream s2 = stream s1) as (s2 & He2 & <-).
    { destruct body as [|st body].
      - apply (dispatch_line_quit _ _ _ _ rest He).
      - apply (exec_lines_quit _ _ rest _ _ _ He). }
    by rewrite (thread_runner_after _ _ _ _ _ _ _ Hc He2).
  - simpl in He. destruct (exec_traced_quit _ _ _ _ _ _ _ He) as (e & Hquit).
    exists e. split.
    { intros body ->. done. }
    intros rest. destruct (Hquit rest) as (s2 & He2 & <-).
    by rewrite (thread_runner_after _ _ _ _ (Tracee p) _ _ Hc He2).
Qed.

(** X18: a [quit] directive given to a worker that is parked on a stop
    ends the stepping there: no later line is reported and no later
    directive is read.  What follows on the queue is only the report of
    how the program, no longer traced, ends: [finished], after an [error]
    message when an exception leaves it (a handler of the program can
    catch the [BdbQuit] and raise), and nothing as long as it runs.  A
    straight-line source ends at once, with [finished] alone. *)
Theorem quit_ends_the_session_at_once (w : window) (src : source) (fname : string)
    (pre : list action) (sts : list message) :
  _thread_runner w src fname pre = (sts, Parked) →
  ∃ tail f,
    (∀ rest, _thread_runner w src fname (pre ++ quit :: rest) = (sts ++ tail, f))
    ∧ (tail = [finished] ∧ f = Normal
       ∨ (∃ tb, tail = [error tb; finished]) ∧ f = Normal
       ∨ tail = [finished] ∧ (∃ text, f = Esc text)
       ∨ tail = [] ∧ f = Running)
    ∧ (∀ body, src = Code body → tail = [finished] ∧ f = Normal).
Proof.
  intros Hpark. destruct (quit_at_a_stop _ _ _ _ _ Hpark) as (e & Hcode & Hrest).
  exists (report (ends e)), (after_run (ends e)). split; [exact Hrest|]. split.
  - destruct e as [|[|t]|t|]; simpl; eauto 6.
  - intros body Hsrc. by rewrite (Hcode body Hsrc).
Qed.

Lemma quit_ends_the_session_at_once_witness :
  ∃ tail f,
    (∀ rest, _thread_runner Scenario.window0
               (Traced (Programs.guarded Scenario.window0 "prog.py")) "prog.py"
               ([step] ++ quit :: rest)
             = ([stopped "/home/user/prog.py" 1; stopped "/home/user/prog.py" 2]
                ++ tail, f))
    ∧ (tail = [finished] ∧ f = Normal
       ∨ (∃ tb, tail = [error tb; finished]) ∧ f = Normal
       ∨ tail = [finished] ∧ (∃ text, f = Esc text)
       ∨ tail = [] ∧ f = Running)
    ∧ (∀ body, Traced (Programs.guarded Scenario.window0 "prog.py") = Code body →
               tail = [finished] ∧ f = Normal).
Proof.
  apply (quit_ends_the_session_at_once Scenario.window0
           (Traced (Programs.guarded Scenario.window0 "prog.py")) "prog.py" [step]
           [stopped "/home/user/prog.py" 1; stopped "/home/user/prog.py" 2]).
  reflexivity.
Defined.

Lemma exec_lines_running_free (w : window) (n : nat) (lineno : Z) (s : session) :
  mode (base (gui_bdb s)) = BreaksOnly → breaks (base (gui_bdb s)) = [] →
  exec_lines w lineno (replicate n Pass) s = (s, Normal).
Proof.
  intros Hm Hb. revert lineno. induction n as [|n IH]; intros lineno; simpl; [done|].
  unfold dispatch_line, stop_here, break_here. rewrite Hm, Hb. simpl. apply IH.
Qed.

(** X19: with no breakpoint recorded in the process, a [continue]
    directive lets the rest of the program run without any further
    stop: the stream is the stops up to the one [continue] answered, then
    [finished]. *)
Theorem continue_runs_to_the_end (w : window) (fname : string) (n : nat)
    (pre rest : list action) :
  bplist w = [] →
  forallb is_stepping pre = true →
  length pre < n →
  _thread_runner w (Code (replicate n Pass)) fname (pre ++ continue :: rest)
  = (stops (canonic w fname) 1 (S (length pre)) ++ [finished], Normal).
Proof.
  intros Hbp Hpre Hlen.
  set (s0 := mkSession (on_base reset (SimpleGuiBdb_init w fname))
                       (pre ++ continue :: rest) []).
  assert (∃ g, exec w (Lines (replicate n Pass)) s0
               = (mkSession g rest (stops (canonic w fname) 1 (S (length pre))),
                  Normal)) as (g & He).
  { rewrite exec_code_pass by lia. subst s0.
    replace (S (length pre)) with (length pre + 1) by lia.
    rewrite stops_app, stops_1.
    replace n with (length pre + S (n - length pre - 1)) by lia.
    rewrite replicate_add, exec_lines_app.
    destruct (exec_lines_stepping w (length pre) 1
                (on_base reset (SimpleGuiBdb_init w fname)) pre (continue :: rest) []
                (started_single_stepping w fname) Hpre eq_refl)
      as (g' & Hrun & (Hm & Hq & Hs) & Hf & Hb).
    simpl in Hrun. rewrite Hrun. simpl.
    unfold dispatch_line, user_line, stop_here. simpl. rewrite Hm, Hs. simpl.
    rewrite exec_lines_running_free; simpl; [| done | by rewrite Hb].
    rewrite length_replicate, Hf. simpl. by eexists. }
  by rewrite (thread_runner_after w (Code (replicate n Pass)) fname _ _ _ _ eq_refl He).
Qed.

Lemma continue_runs_to_the_end_witness :
  _thread_runner Scenario.window0 (Code (replicate 4 Pass)) "<string>"
                 ([step] ++ continue :: [])
  = (stops (canonic Scenario.window0 "<string>") 1 2 ++ [finished], Normal).
Proof.
  apply (continue_runs_to_the_end Scenario.window0 "<string>" 4 [step] []).
  - reflexivity.
  - reflexivity.
  - simpl. lia.
Defined.

(** X20: whatever the source and the directives, the worker thread
    never ends with an [Exception]: it returns, or it ends with an
    exception that is no [Exception] and that the traced program raised
    ([SystemExit], [KeyboardInterrupt]), which [except Exception] lets
    through and for which no [error] message is put.  Either way
    [finished] is then the last message the worker put, and it put it
    once.  While the worker is parked on a stop, or the program keeps
    running, [finished] is not on the stream. *)
Theorem finished_is_reported_once_and_last (w : window) (src : source)
    (fname : string) (ds : list action) :
  match _thread_runner w src fname ds with
  | (msgs, Normal) => ∃ before, msgs = before ++ [finished] ∧ finished ∉ before
  | (msgs, Esc _) =>
      ∃ before, msgs = before ++ [finished]
                ∧ Forall (λ m, is_stopped m = true) before
  | (msgs, Parked) | (msgs, Running) => finished ∉ msgs
  | (_, Exc _) => False
  end.
Proof.
  pose proof (thread_runner_cases w src fname ds) as Hcases.
  pose proof (traced_run_stream w src fname ds) as Hsts.
  pose proof (stops_exclude finished _ eq_refl Hsts) as Hno.
  simpl in Hcases.
  destruct (snd (traced_run w src fname ds)) as [|[|t]|t| |]; try done;
    rewrite Hcases; try done.
  - by eexists.
  - exists (stream (fst (traced_run w src fname ds)) ++ [error (format_exc (PyError t))]).
    rewrite <- app_assoc. split; [done|].
    intros Hin. apply elem_of_app in Hin as [Hin|Hin]; [done|].
    apply elem_of_cons in Hin as [?|Hin]; [done|]. by apply elem_of_nil in Hin.
  - by eexists.
Qed.

(** *** Sessions on the sample programs *)

(** A buffer that was never opened or saved has no file name:
    [compile] raises, and every session is an [error] message followed
    by [finished]. *)
Lemma start_debug_unsaved (src : source) (ds : list action) (w : window) :
  q (fst (start_debug src None ds w))
  = q w ++ [error (format_exc (PyError no_filename)); finished]
  ∧ snd (start_debug src None ds w) = Normal.
Proof. done. Qed.

(** An empty source: one stop, on line 0. *)
Lemma empty_source_session :
  _thread_runner Scenario.window0 (Code []) "prog.py" []
  = ([stopped "/home/user/prog.py" 0], Parked)
  ∧ _thread_runner Scenario.window0 (Code []) "prog.py" [step]
    = ([stopped "/home/user/prog.py" 0; finished], Normal).
Proof. done. Qed.

(** Stops are on the lines that have statements. *)
Lemma gaps_session :
  _thread_runner Scenario.window0 (Traced (Programs.gaps Scenario.window0 "prog.py"))
                 "prog.py" [step; next; other "jump"]
  = ([stopped "/home/user/prog.py" 1; stopped "/home/user/prog.py" 4; finished],
     Normal).
Proof. done. Qed.

(** A quit caught by a handler of the program, which raises. *)
Lemma guarded_session :
  _thread_runner Scenario.window0
    (Traced (Programs.guarded Scenario.window0 "prog.py")) "prog.py"
    [step; quit; step]
  = ([stopped "/home/user/prog.py" 1; stopped "/home/user/prog.py" 2;
      error (format_exc (PyError "ValueError: later")); finished], Normal)
  ∧ _thread_runner Scenario.window0
      (Traced (Programs.guarded Scenario.window0 "prog.py")) "prog.py" [quit]
    = ([stopped "/home/user/prog.py" 1; finished], Normal)
  ∧ _thread_runner Scenario.window0
      (Traced (Programs.guarded Scenario.window0 "prog.py")) "prog.py" [continue]
    = ([stopped "/home/user/prog.py" 1; finished], Normal).
Proof. done. Qed.

(** [SystemExit] passes [except Exception]: no [error] message, and the
    thread ends with the exception, after [finished]. *)
Lemma leaving_session :
  _thread_runner Scenario.window0
    (Traced (Programs.leaving Scenario.window0 "prog.py")) "prog.py" [step; step]
  = ([stopped "/home/user/prog.py" 1; stopped "/home/user/prog.py" 2; finished],
     Esc "SystemExit: 3")
  ∧ _thread_runner Scenario.window0
      (Traced (Programs.leaving Scenario.window0 "prog.py")) "prog.py" [step; quit]
    = ([stopped "/home/user/prog.py" 1; stopped "/home/user/prog.py" 2; finished],
       Normal).
Proof. done. Qed.

End Debugger_more.
(* ===================================================================== *)
(** ** Debugger window: the queue poller *)
(* ===================================================================== *)

Section DebugPanel_facts.
Import Debugger DebugPanel.

Lemma foldl_show (msgs : list message) (p : panel) :
  q (p_window (foldl show p msgs)) = q (p_window p)
  ∧ out (p_window (foldl show p msgs)) = out (p_window p) ++ map render msgs
  ∧ bplist (p_window (foldl show p msgs)) = bplist (p_window p).
Proof.
  revert p. induction msgs as [|m msgs IH]; intros p; simpl.
  - by rewrite app_nil_r.
  - destruct (IH (show p m)) as (-> & -> & ->). simpl. by rewrite <- app_assoc.
Qed.

Lemma poll_queue_fields (p : panel) :
  q (p_window (poll_queue p)) = []
  ∧ out (p_window (poll_queue p)) = out (p_window p) ++ map render (q (p_window p))
  ∧ bplist (p_window (poll_queue p)) = bplist (p_window p).
Proof. unfold poll_queue. by destruct (foldl_show (q (p_window p)) (mkPanel
  (mkWindow [] (out (p_window p)) (bplist (p_window p)) (abspath (p_window p))
            (file_line (p_window p))) (highlighted p))) as (-> & -> & ->). Qed.

Lemma poll_queue_empty (p : panel) : q (p_window p) = [] → poll_queue p = p.
Proof. destruct p as [[q0 o0 b0 a0 f0] h0]. simpl. by intros ->. Qed.

(** X21: [poll_queue] empties the queue and shows one line per message
    in the output pane, in the order in which the worker put them; it
    leaves the breakpoints alone; polling an empty queue changes
    nothing; and messages that arrive after a poll are shown by the next
    one exactly as if both had been shown by a single poll. *)
Theorem poll_queue_drains_in_order (p : panel) (later : list message) :
  q (p_window (poll_queue p)) = []
  ∧ out (p_window (poll_queue p)) = out (p_window p) ++ map render (q (p_window p))
  ∧ bplist (p_window (poll_queue p)) = bplist (p_window p)
  ∧ poll_queue (poll_queue p) = poll_queue p
  ∧ poll_queue (arrive later (poll_queue p)) = poll_queue (arrive later p).
Proof.
  destruct (poll_queue_fields p) as (Hq & Ho & Hb).
  split; [exact Hq|]. split; [exact Ho|]. split; [exact Hb|].
  split; [by apply poll_queue_empty|].
  unfold arrive at 2. unfold poll_queue at 3. simpl. rewrite foldl_app.
  fold (poll_queue p).
  destruct (poll_queue p) as [[q1 o1 b1 a1 f1] h1]. simpl in Hq. by subst q1.
Qed.

End DebugPanel_facts.
(* ===================================================================== *)
(** ** GUI builder: the grid *)
(* ===================================================================== *)

Section Builder_facts.
Import Builder.
Open Scope Z_scope.

Lemma round_div_16 (v : Z) :
  ∃ k, round_div v 16 = k ∧ -8 ≤ 16 * k - v ≤ 8.
Proof.
  unfold round_div.
  pose proof (Z.div_mod v 16 ltac:(lia)). pose proof (Z.mod_pos_bound v 16 ltac:(lia)).
  eexists; split; [reflexivity|].
  repeat case_match; rewrite ?Z.ltb_lt, ?Z.ltb_ge in *; lia.
Qed.

Lemma round_div_16_multiple (j : Z) : round_div (j * 16) 16 = j.
Proof. unfold round_div. rewrite Z.mod_mul, Z.div_mul by lia. reflexivity. Qed.

Lemma snap_monotone (a b : Z) : a ≤ b → snap a ≤ snap b.
Proof.
  unfold snap, grid_size. intros Hab.
  destruct (round_div_16 a) as (ka & Ha & Hka).
  destruct (round_div_16 b) as (kb & Hb & Hkb).
  rewrite Ha, Hb.
  destruct (decide (ka ≤ kb)) as [|Hgt]; [lia|]. exfalso.
  assert (a = b) as -> by lia. lia.
Qed.

(** X22: [snap] sends a whole-pixel coordinate that a float holds
    exactly (at most [2 ^ 53] in absolute value) to a nearest point of
    the 16-pixel grid: the result is a multiple of 16 at most 8 pixels
    away and is in that range again; the grid points, and only they, are
    left where they are, so snapping twice is snapping once; and [snap]
    never swaps two such coordinates. *)
Theorem snap_goes_to_the_nearest_grid_point (v : Z) :
  in_range v →
  (grid_size | snap v)
  ∧ -8 ≤ snap v - v ≤ 8
  ∧ in_range (snap v)
  ∧ (snap v = v ↔ (grid_size | v))
  ∧ snap (snap v) = snap v
  ∧ (∀ v', in_range v' → v ≤ v' → snap v ≤ snap v').
Proof.
  intros Hv.
  split; [|split; [|split; [|split; [|split; [|intros v' _; apply snap_monotone]]]]];
    unfold snap, grid_size;
    destruct (round_div_16 v) as (k & Hk & Hb); rewrite Hk.
  - by exists k.
  - lia.
  - unfold in_range in *.
    assert (2 ^ 53 = 16 * 2 ^ 49) as Hpow by reflexivity. lia.
  - split.
    + intros <-. by exists k.
    + intros [j ->]. rewrite round_div_16_multiple in Hk. by subst.
  - by rewrite round_div_16_multiple.
Qed.

Lemma snap_goes_to_the_nearest_grid_point_witness :
  (grid_size | snap 37)
  ∧ -8 ≤ snap 37 - 37 ≤ 8
  ∧ in_range (snap 37)
  ∧ (snap 37 = 37 ↔ (grid_size | 37))
  ∧ snap (snap 37) = snap 37
  ∧ (∀ v', in_range v' → 37 ≤ v' → snap 37 ≤ snap v').
Proof.
  apply (snap_goes_to_the_nearest_grid_point 37).
  unfold in_range. lia.
Defined.

(** X23: dragging an item that sits on the grid, its position and the
    position the pointer asks for both being coordinates that a float
    holds exactly (at most [2 ^ 53] in absolute value): while the pointer
    is less than 8 pixels from where the drag began the item stays
    exactly where it is, and once it is more than 8 pixels away the item
    has left its place. *)
Theorem small_drags_leave_the_item_in_place (cur delta : Z) :
  (grid_size | cur) →
  in_range cur →
  in_range (cur + delta) →
  (-8 < delta < 8 → dragged cur delta = cur)
  ∧ (delta < -8 ∨ 8 < delta → dragged cur delta ≠ cur).
Proof.
  unfold dragged, snap, grid_size. intros [j ->] _ _.
  destruct (round_div_16 (j * 16 + delta)) as (k & -> & Hk). lia.
Qed.

Lemma small_drags_leave_the_item_in_place_witness :
  (-8 < 5 < 8 → dragged 32 5 = 32)
  ∧ (5 < -8 ∨ 8 < 5 → dragged 32 5 ≠ 32).
Proof.
  apply (small_drags_leave_the_item_in_place 32 5).
  - by exists 2.
  - unfold in_range. lia.
  - unfold in_range. lia.
Defined.

(** X24: however far the resize handle is dragged, in either direction,
    the item keeps a positive size on the grid: its width is a multiple
    of 16 and at least 16, its height is 8 or a multiple of 16; and the
    character width and line height derived for an Entry or Text widget
    are at least 1 and cover the item exactly, except for the minimal
    height 8, which gives one line. *)
Theorem resized_item_stays_on_the_grid (start_w start_h dx dy : Z) :
  let '(neww, newh) := resized start_w start_h dx dy in
  16 ≤ neww ∧ (grid_size | neww) ∧ chars_of neww * 8 = neww
  ∧ 1 ≤ lines_of newh
  ∧ ((newh = 8 ∧ lines_of newh = 1)
     ∨ (16 ≤ newh ∧ (grid_size | newh) ∧ lines_of newh * 16 = newh)).
Proof.
  unfold resized, chars_of, lines_of, snap, grid_size.
  destruct (round_div_16 (start_w + dx)) as (kw & -> & _).
  destruct (round_div_16 (start_h + dy)) as (kh & -> & _).
  assert (∀ k, 1 ≤ k → Z.max 16 (k * 16) = k * 16) as Hmax by lia.
  split; [lia|]. split; [|split; [|split]].
  - destruct (decide (1 ≤ kw)); [rewrite Hmax by done; by exists kw|].
    rewrite Z.max_l by lia. by exists 1.
  - destruct (decide (1 ≤ kw)).
    + rewrite Hmax by done. replace (kw * 16) with (kw * 2 * 8) by lia.
      rewrite Z.quot_mul by lia. lia.
    + rewrite (Z.max_l 16 (kw * 16)) by lia. reflexivity.
  - apply Z.le_max_l.
  - destruct (decide (1 ≤ kh)).
    + right. rewrite (Z.max_r 8 (kh * 16)) by lia.
      rewrite Z.quot_mul by lia. split; [lia|]. split; [by exists kh | lia].
    + left. rewrite (Z.max_l 8 (kh * 16)) by lia. by split.
Qed.

End Builder_facts.
(* ===================================================================== *)
(** ** Scanning the extension directory *)
(* ===================================================================== *)

Section Scan_facts.
Import Extensions Scan.

Lemma ends_with_refl (s : string) : ends_with s s = true.
Proof. destruct s; simpl; [done|]. by rewrite Ascii.eqb_refl, String.eqb_refl. Qed.

Lemma ends_with_append (suffix a s : string) :
  ends_with suffix s = true → ends_with suffix (a +:+ s) = true.
Proof.
  intros H. induction a as [|c a IH]; simpl; [done|].
  rewrite IH. by destruct (String.eqb _ _).
Qed.

Lemma alist_set_Forall {V} (P : string * V → Prop) (k : string) (v : V)
    (d : list (string * V)) :
  (∀ k', P (k', v)) → Forall P d → Forall P (alist_set k v d).
Proof.
  intros Hv. induction 1 as [|[k0 v0] d H0 Hd IH]; simpl.
  - by repeat constructor.
  - destruct (String.eqb k k0); by constructor.
Qed.

Lemma alist_get_elem {V} (k : string) (v : V) (d : list (string * V)) :
  alist_get k d = Some v → ∃ k', (k', v) ∈ d.
Proof.
  induction d as [|[k0 v0] d IH]; simpl; [done|].
  destruct (String.eqb k k0).
  - intros [= ->]. exists k0. apply list_elem_of_here.
  - intros H. destruct (IH H) as [k' Hk]. exists k'. by apply list_elem_of_further.
Qed.

Lemma entry_module_py (full entry : string) (children : list string) (found : string) :
  entry_module full entry children = Some found → ends_with ".py" found = true.
Proof.
  unfold entry_module, join.
  destruct (List.find _ [_; _; _]) as [c|] eqn:Hc.
  - intros [= <-]. apply find_some in Hc as [Hin _].
    do 2 apply ends_with_append.
    destruct Hin as [<-|[<-|[<-|[]]]]; try done.
    by apply ends_with_append.
  - destruct (List.find (ends_with ".py") children) as [f|] eqn:Hf; [|done].
    intros [= <-]. apply find_some in Hf as [_ Hf].
    by do 2 apply ends_with_append.
Qed.

Lemma scan_entry_py (ext_dir : string) (listing : list (string * node))
    (res : list (string * string)) (e : string * node) :
  Forall (λ kv, ends_with ".py" kv.2 = true) res →
  Forall (λ kv, ends_with ".py" kv.2 = true) (scan_entry ext_dir listing res e).
Proof.
  intros Hres. destruct e as [entry [|children]]; simpl.
  - destruct (ends_with ".py" entry) eqn:He; [|done].
    destruct (isdir listing (splitext_root entry)); [done|].
    apply alist_set_Forall; [|done]. intros ?. simpl. unfold join.
    by do 2 apply ends_with_append.
  - destruct (entry_module _ entry children) as [found|] eqn:Hf; [|done].
    apply alist_set_Forall; [|done]. intros ?. simpl. by eapply entry_module_py.
Qed.

Lemma scan_loop_py (ext_dir : string) (listing l : list (string * node))
    (acc : list (string * string)) :
  Forall (λ kv, ends_with ".py" kv.2 = true) acc →
  Forall (λ kv, ends_with ".py" kv.2 = true) (foldl (scan_entry ext_dir listing) acc l).
Proof.
  revert acc. induction l as [|e l IH]; intros acc Hacc; simpl; [done|].
  apply IH. by apply scan_entry_py.
Qed.

(** X25: every path [_scan_files] returns names a Python file: it ends
    in [.py], for a top-level file as for the entry module picked in a
    directory. *)
Theorem scan_files_finds_python_files_only (ext_dir : string)
    (listing : list (string * node)) (name path : string) :
  alist_get name (_scan_files ext_dir listing) = Some path →
  ends_with ".py" path = true.
Proof.
  intros Hget. apply alist_get_elem in Hget as [k Hk].
  assert (Forall (λ kv, ends_with ".py" kv.2 = true) (_scan_files ext_dir listing)) as HF
    by (apply scan_loop_py; constructor).
  rewrite Forall_forall in HF. by apply (HF (k, path)).
Qed.


Lemma scan_files_finds_python_files_only_witness :
  ends_with ".py" "ext/b/main.py" = true.
Proof.
  apply (scan_files_finds_python_files_only "ext" Samples.ext_listing "b" "ext/b/main.py").
  vm_compute. reflexivity.
Defined.

Lemma alist_get_NoDup {V} (k : string) (v : V) (d : list (string * V)) :
  NoDup (map fst d) → (k, v) ∈ d → alist_get k d = Some v.
Proof.
  induction d as [|[k0 v0] d IH]; simpl; intros Hnd Hin.
  - by apply elem_of_nil in Hin.
  - apply NoDup_cons in Hnd as [Hk0 Hnd].
    apply elem_of_cons in Hin as [[= -> ->]|Hin].
    + by rewrite String.eqb_refl.
    + destruct (String.eqb_spec k k0) as [->|Hne]; [|by apply IH].
      exfalso. apply Hk0. apply list_elem_of_fmap. by exists (k0, v).
Qed.

Lemma scan_entry_at_directory (ext_dir : string) (listing : list (string * node))
    (name : string) (children : list string) (res : list (string * string))
    (e : string * node) :
  NoDup (map fst listing) → (name, DirNode children) ∈ listing → e ∈ listing →
  let target := entry_module (join ext_dir name) name children in
  (alist_get name res = target →
     alist_get name (scan_entry ext_dir listing res e) = target)
  ∧ (alist_get name res = None →
     alist_get name (scan_entry ext_dir listing res e)
     = if bool_decide (fst e = name) then target else None).
Proof.
  intros Hnd Hdir He target.
  pose proof (alist_get_NoDup name _ listing Hnd Hdir) as Hget.
  destruct e as [entry nd]. simpl.
  destruct (decide (entry = name)) as [->|Hne].
  - rewrite bool_decide_eq_true_2 by done.
    pose proof (alist_get_NoDup name _ listing Hnd He) as Hget'.
    rewrite Hget in Hget'. injection Hget' as <-.
    fold target. destruct target as [found|] eqn:Ht.
    + by rewrite alist_get_set_eq.
    + done.
  - rewrite bool_decide_eq_false_2 by done.
    assert (∀ v, alist_get name (alist_set entry v res) = alist_get name res) as Hother
      by (intros v; by apply alist_get_set_ne).
    destruct nd as [|cs].
    + destruct (ends_with ".py" entry); [|done].
      destruct (isdir listing (splitext_root entry)) eqn:Hisdir; [done|].
      assert (splitext_root entry ≠ name) as Hroot.
      { intros Heq. unfold isdir in Hisdir. by rewrite Heq, Hget in Hisdir. }
      by rewrite alist_get_set_ne.
    + destruct (entry_module _ entry cs); [by rewrite Hother | done].
Qed.

Lemma scan_loop_at_directory (ext_dir : string) (listing l : list (string * node))
    (name : string) (children : list string) (acc : list (string * string)) :
  NoDup (map fst listing) → (name, DirNode children) ∈ listing →
  (∀ e, e ∈ l → e ∈ listing) →
  let target := entry_module (join ext_dir name) name children in
  (alist_get name acc = target
   ∨ (alist_get name acc = None ∧ (name, DirNode children) ∈ l)) →
  alist_get name (foldl (scan_entry ext_dir listing) acc l) = target.
Proof.
  intros Hnd Hdir. revert acc. induction l as [|e l IH]; intros acc Hsub target Hacc.
  - simpl. destruct Hacc as [?|[_ Hin]]; [done | by apply elem_of_nil in Hin].
  - simpl.
    destruct (scan_entry_at_directory ext_dir listing name children acc e Hnd Hdir)
      as [Hkeep Hnew]; [apply Hsub, list_elem_of_here|].
    apply IH; [intros e' He'; by apply Hsub, list_elem_of_further|].
    destruct Hacc as [Ht|[Hnone Hin]]; [left; by apply Hkeep|].
    rewrite (Hnew Hnone). case_bool_decide as Hk; [by left|]. right. split; [done|].
    apply elem_of_cons in Hin as [Heq|Hin]; [subst e; by destruct Hk | exact Hin].
Qed.

(** X26: for a directory entry of the extension directory (the names
    of a listing are distinct), what [_scan_files] returns under its name
    is decided by the directory alone: its entry module ([name.py], then
    [main.py], then [__init__.py], then the first listed [.py] file), or
    nothing when it holds no Python file; a top-level file [name.py]
    next to it is never used, wherever it comes in the listing. *)
Theorem scan_files_directory_decides (ext_dir : string)
    (listing : list (string * node)) (name : string) (children : list string) :
  NoDup (map fst listing) →
  (name, DirNode children) ∈ listing →
  alist_get name (_scan_files ext_dir listing)
  = entry_module (join ext_dir name) name children.
Proof.
  intros Hnd Hdir. unfold _scan_files.
  apply scan_loop_at_directory; try done. by right.
Qed.

Lemma scan_files_directory_decides_witness :
  alist_get "a" (_scan_files "ext" Samples.ext_listing)
  = entry_module (join "ext" "a") "a" ["x.txt"].
Proof.
  apply (scan_files_directory_decides "ext" Samples.ext_listing "a" ["x.txt"]).
  - apply (bool_decide_unpack _). vm_compute. reflexivity.
  - apply list_elem_of_further, list_elem_of_here.
Defined.

End Scan_facts.
(* ===================================================================== *)
(** ** File commands: opening, the recent files, saving *)
(* ===================================================================== *)

Section Editor_facts.
Import Extensions Editor Views.

Lemma emit_run (E : EventBus.env) (event : string) (w : world) :
  emit E event w
  = (with_bus (λ _, fst (EventBus.emit_event E event (w_bus w))) w, Return tt).
Proof.
  unfold emit, EventBus.emit_event.
  destruct (emit_loop_spec E (default [] (EventBus.EVENT_LISTENERS (w_bus w) !! event))
              (w_bus w)) as (Hr & _).
  destruct (EventBus.emit_loop _ _ _) as [b r]. simpl in Hr. by subst r.
Qed.

Lemma highlight_text_run (E : EventBus.env) (w : world) :
  highlight_text E w
  = (with_bus (λ _, fst (EventBus.emit_event E "text_changed" (w_bus w))) w, Return tt).
Proof. unfold highlight_text, try_pass, try_except. by rewrite emit_run. Qed.

Lemma open_files_run (E : EventBus.env) (fp raw : string) (ed : editor) :
  fp ≠ "" → e_disk ed fp = Return raw →
  let ed1 := mkEditor (e_world ed) (universal_newlines raw) ("sedit [" +:+ fp +:+ "]")
                      (Some fp) (e_highlight ed) (e_disk ed) (e_write ed)
                      (e_dialogs ed) in
  OpenFiles E fp ed
  = match remember E fp (highlighted_world E ed) with
    | (w, Return _) => on_world w ed1
    | (w, Raise e) => showerror "読み込みエラー" (EventBus.exc_text e) (on_world w ed1)
    end.
Proof.
  intros Hfp Hraw. simpl. unfold OpenFiles, highlighted_world.
  destruct (String.eqb_spec fp "") as [|_]; [done|]. rewrite Hraw. simpl.
  rewrite bind_run.
  destruct (e_highlight ed); [rewrite highlight_text_run|]; simpl;
    by destruct (remember E fp _) as [w [[]|e]].
Qed.

Lemma remove_first_absent (name : string) (l : list pyval) :
  existsb (is_str name) l = false → remove_first name l = l.
Proof.
  induction l as [|v l IH]; simpl; [done|].
  intros H. apply orb_false_iff in H as [-> Hl]. by rewrite IH.
Qed.

Lemma get_after_save_other (key other : string) (v dflt : pyval) (r : result unit)
    (st : Settings.store) :
  other ≠ key →
  Settings.get_setting other dflt (Settings.save_settings r {[key := v]} st)
  = Settings.get_setting other dflt st.
Proof.
  intros Hne. unfold Settings.get_setting, Settings.save_settings.
  rewrite dict_truthy_singleton. destruct r; simpl; [|done].
  by rewrite dict_update_lookup_old by (by apply lookup_singleton_ne).
Qed.

Lemma save_settings_run {B} (d : gmap string pyval) (k : unit → py B) (w : world) :
  (save_settings d ≫= k) w
  = k tt (with_store
            (Settings.save_settings
               (if w_disk_ok w then Return tt else Raise (PyError "OSError")) d) w).
Proof. reflexivity. Qed.

(** The end of [OpenFiles] when the settings can be written and the
    recent files are a list. *)
Lemma remember_run (E : EventBus.env) (fp : string) (w : world) (l : list pyval) :
  w_disk_ok w = true →
  Settings.get_setting "recent_files" (VList []) (w_store w) = VList l →
  remember E fp w
  = (with_bus (λ _, fst (EventBus.emit_event E "file_opened" (w_bus w)))
       (with_store
          (Settings.save_settings (Return tt)
             {["recent_files" := VList (take 20 (VStr fp :: remove_first fp l))]})
          (with_store (Settings.save_settings (Return tt) {["last_file" := VStr fp]}) w)),
     Return tt).
Proof.
  intros Hdisk Hrecent. unfold remember.
  rewrite save_settings_run, Hdisk, bind_run.
  unfold reading, lift at 1. cbn [with_store w_store].
  rewrite get_after_save_other by done. rewrite Hrecent.
  cbn [slice_copy]. rewrite bind_run. unfold lift at 1. cbn [contains].
  assert (∀ k : pyval → py unit,
            ((if existsb (is_str fp) l then lift (remove fp (VList l)) else mret (VList l))
               ≫= k)
            = k (VList (remove_first fp l))) as Hrem.
  { intros k. destruct (existsb (is_str fp) l) eqn:Hin; simpl.
    - done.
    - by rewrite remove_first_absent. }
  rewrite Hrem. rewrite !bind_run. unfold lift. cbn [insert_front first20].
  rewrite bind_run. cbv beta iota.
  rewrite save_settings_run. cbn [with_store w_disk_ok]. rewrite Hdisk.
  by rewrite emit_run.
Qed.

Lemma remember_raises (E : EventBus.env) (fp : string) (w : world) :
  (∀ l, Settings.get_setting "recent_files" (VList []) (w_store w) ≠ VList l) →
  ∃ e, remember E fp w
       = (with_store
            (Settings.save_settings
               (if w_disk_ok w then Return tt else Raise (PyError "OSError"))
               {["last_file" := VStr fp]}) w,
          Raise e).
Proof.
  intros Hno. unfold remember.
  rewrite save_settings_run, bind_run.
  unfold reading, lift at 1. cbn [with_store w_store].
  rewrite get_after_save_other by done.
  destruct (Settings.get_setting "recent_files" (VList []) (w_store w)) as [| | |t|l|d];
    cbn [slice_copy]; try (by eexists).
  - rewrite bind_run. unfold lift at 1. cbn [contains]. rewrite bind_run.
    destruct (substring fp t); unfold lift; simpl; by eexists.
  - by destruct (Hno l).
Qed.

Lemma is_str_spec (name : string) (v : pyval) : is_str name v = true ↔ v = VStr name.
Proof.
  destruct v; simpl; try (split; [discriminate | congruence]).
  destruct (String.eqb_spec s name); split; congruence.
Qed.

Lemma remove_first_sublist (name : string) (l : list pyval) :
  sublist (remove_first name l) l.
Proof.
  induction l as [|v l IH]; simpl; [constructor|].
  destruct (is_str name v); [by constructor | by constructor].
Qed.

Lemma remove_first_NoDup (name : string) (l : list pyval) :
  NoDup l → VStr name ∉ remove_first name l.
Proof.
  induction l as [|v l IH]; simpl; intros Hnd.
  - apply not_elem_of_nil.
  - apply NoDup_cons in Hnd as [Hv Hnd].
    destruct (is_str name v) eqn:Hs.
    + apply is_str_spec in Hs. by subst v.
    + apply not_elem_of_cons. split; [|by apply IH].
      intros Heq. symmetry in Heq. apply is_str_spec in Heq. congruence.
Qed.

Lemma universal_newlines_no_cr_bounded (n : nat) (s : string) :
  String.length s ≤ n → has_char cr (universal_newlines s) = false.
Proof.
  revert s. induction n as [|n IH]; intros s Hlen.
  - destruct s; [done | simpl in Hlen; lia].
  - destruct s as [|c rest]; [done|]. simpl in Hlen. simpl.
    destruct (Ascii.eqb c cr) eqn:Hc; simpl.
    + destruct rest as [|c' rest']; [done|]. simpl in Hlen.
      destruct (Ascii.eqb c' lf); apply IH; simpl; lia.
    + rewrite Hc. simpl. apply IH. lia.
Qed.

Lemma universal_newlines_id (s : string) :
  has_char cr s = false → universal_newlines s = s.
Proof.
  induction s as [|c rest IH]; simpl; [done|].
  intros H. apply orb_false_iff in H as [-> Hrest]. by rewrite IH.
Qed.

(** X27: how [OpenFiles] fails.  A cancelled dialog changes nothing.  A
    file that cannot be read changes nothing but for one error dialog
    with the exception's text.  And when the file is read but the
    persisted [recent_files] is not a list, the failure comes late: the
    text has already been replaced and the file name set, one error
    dialog is shown, the list of recent files stays as it was and
    [file_opened] is not emitted. *)
Theorem open_files_reports_failures (E : EventBus.env) (fp : string) (ed : editor) :
  (fp = "" → OpenFiles E fp ed = ed)
  ∧ (∀ e, fp ≠ "" → e_disk ed fp = Raise e →
       OpenFiles E fp ed = showerror "読み込みエラー" (EventBus.exc_text e) ed)
  ∧ (∀ raw, fp ≠ "" → e_disk ed fp = Return raw →
       (∀ l, Settings.get_setting "recent_files" (VList []) (w_store (e_world ed))
             ≠ VList l) →
       let ed' := OpenFiles E fp ed in
       e_text ed' = universal_newlines raw
       ∧ e_file ed' = Some fp
       ∧ (∃ message, e_dialogs ed' = e_dialogs ed ++ [("読み込みエラー", message)])
       ∧ Settings.get_setting "recent_files" (VList []) (w_store (e_world ed'))
         = Settings.get_setting "recent_files" (VList []) (w_store (e_world ed))
       ∧ w_bus (e_world ed') = w_bus (highlighted_world E ed)).
Proof.
  split; [|split].
  - intros ->. reflexivity.
  - intros e Hfp He. unfold OpenFiles.
    destruct (String.eqb_spec fp "") as [|_]; [done|]. by rewrite He.
  - intros raw Hfp Hraw Hno ed'. subst ed'.
    rewrite (open_files_run E fp raw ed Hfp Hraw).
    destruct (remember_raises E fp (highlighted_world E ed)) as [e ->].
    { unfold highlighted_world. by destruct (e_highlight ed). }
    cbn [showerror on_world e_text e_file e_dialogs e_world with_store w_store w_bus].
    split; [done|]. split; [done|]. split; [by eexists|]. split; [|done].
    rewrite get_after_save_other by done.
    unfold highlighted_world. by destruct (e_highlight ed).
Qed.

(** X28: opening a readable file while the settings can be written and
    the persisted [recent_files] is a list: the editor shows the file's
    text with every line ending turned into [\n] (no carriage return is
    left), the file name and the title are set, no dialog is shown,
    [last_file] is the path, and the list of recent files has the path
    first, its earlier occurrence removed, the other entries in their
    order, cut to 20 entries; a list without duplicates stays without
    duplicates; the listeners of [file_opened] are notified after those
    of [text_changed], which are notified only when highlighting is on. *)
Theorem open_files_remembers_most_recent_first (E : EventBus.env) (fp raw : string)
    (ed : editor) (l : list pyval) :
  fp ≠ "" →
  e_disk ed fp = Return raw →
  w_disk_ok (e_world ed) = true →
  Settings.get_setting "recent_files" (VList []) (w_store (e_world ed)) = VList l →
  let ed' := OpenFiles E fp ed in
  let recent := take 20 (VStr fp :: remove_first fp l) in
  e_text ed' = universal_newlines raw
  ∧ has_char cr (e_text ed') = false
  ∧ e_file ed' = Some fp
  ∧ e_title ed' = "sedit [" +:+ fp +:+ "]"
  ∧ e_dialogs ed' = e_dialogs ed
  ∧ Settings.get_setting "last_file" VNone (w_store (e_world ed')) = VStr fp
  ∧ Settings.get_setting "recent_files" (VList []) (w_store (e_world ed')) = VList recent
  ∧ head recent = Some (VStr fp)
  ∧ length recent ≤ 20
  ∧ sublist (tail recent) l
  ∧ (NoDup l → NoDup recent)
  ∧ EventBus.dispatched (w_bus (e_world ed'))
    = EventBus.dispatched (w_bus (e_world ed))
      ++ (if e_highlight ed
          then omap (EventBus.dispatch_of E)
                 (default [] (EventBus.EVENT_LISTENERS (w_bus (e_world ed)) !! "text_changed"))
          else [])
      ++ omap (EventBus.dispatch_of E)
           (default [] (EventBus.EVENT_LISTENERS (w_bus (e_world ed)) !! "file_opened")).
Proof.
  intros Hfp Hraw Hdisk Hrecent ed' recent. subst ed'.
  rewrite (open_files_run E fp raw ed Hfp Hraw).
  rewrite (remember_run E fp (highlighted_world E ed) l);
    [| unfold highlighted_world; by destruct (e_highlight ed)
     | unfold highlighted_world; by destruct (e_highlight ed)].
  cbn [on_world e_text e_file e_title e_dialogs e_world with_bus with_store w_store w_bus].
  split; [done|].
  split; [by apply (universal_newlines_no_cr_bounded (String.length raw))|].
  do 3 (split; [done|]).
  split; [by rewrite get_after_save_other, get_after_save by done|].
  split; [by rewrite get_after_save|].
  split; [done|].
  split; [subst recent; rewrite length_take; lia|].
  split.
  { subst recent. simpl. etrans; [apply sublist_take | apply remove_first_sublist]. }
  split.
  { intros Hnd. subst recent. eapply sublist_NoDup; [|apply sublist_take].
    apply NoDup_cons. split; [by apply remove_first_NoDup|].
    eapply sublist_NoDup; [exact Hnd | apply remove_first_sublist]. }
  unfold EventBus.emit_event.
  destruct (emit_loop_spec E
              (default [] (EventBus.EVENT_LISTENERS (w_bus (highlighted_world E ed))
                           !! "file_opened"))
              (w_bus (highlighted_world E ed))) as (_ & _ & ->).
  unfold highlighted_world. destruct (e_highlight ed); cbn [with_bus w_bus]; [|done].
  unfold EventBus.emit_event.
  destruct (emit_loop_spec E
              (default [] (EventBus.EVENT_LISTENERS (w_bus (e_world ed)) !! "text_changed"))
              (w_bus (e_world ed))) as (_ & -> & ->).
  by rewrite <- app_assoc.
Qed.

Lemma open_files_remembers_most_recent_first_witness :
  let ed' := OpenFiles Samples.calm "notes.py" Samples.desk in
  let recent := take 20 (VStr "notes.py" :: remove_first "notes.py" [VStr "old.py"]) in
  e_text ed' = universal_newlines "x = 1"
  ∧ has_char cr (e_text ed') = false
  ∧ e_file ed' = Some "notes.py"
  ∧ e_title ed' = "sedit [" +:+ "notes.py" +:+ "]"
  ∧ e_dialogs ed' = e_dialogs Samples.desk
  ∧ Settings.get_setting "last_file" VNone (w_store (e_world ed')) = VStr "notes.py"
  ∧ Settings.get_setting "recent_files" (VList []) (w_store (e_world ed')) = VList recent
  ∧ head recent = Some (VStr "notes.py")
  ∧ length recent ≤ 20
  ∧ sublist (tail recent) [VStr "old.py"]
  ∧ (NoDup [VStr "old.py"] → NoDup recent)
  ∧ EventBus.dispatched (w_bus (e_world ed'))
    = EventBus.dispatched (w_bus (e_world Samples.desk))
      ++ (if e_highlight Samples.desk
          then omap (EventBus.dispatch_of Samples.calm)
                 (default [] (EventBus.EVENT_LISTENERS (w_bus (e_world Samples.desk))
                              !! "text_changed"))
          else [])
      ++ omap (EventBus.dispatch_of Samples.calm)
           (default [] (EventBus.EVENT_LISTENERS (w_bus (e_world Samples.desk))
                        !! "file_opened")).
Proof.
  apply (open_files_remembers_most_recent_first Samples.calm "notes.py" "x = 1"
           Samples.desk [VStr "old.py"]).
  - discriminate.
  - reflexivity.
  - reflexivity.
  - vm_compute. reflexivity.
Defined.

Lemma save_files_run (E : EventBus.env) (fp : string) (ed : editor) :
  fp ≠ "" → e_write ed fp = Written →
  SaveFiles E fp ed
  = mkEditor (with_bus (λ _, fst (EventBus.emit_event E "file_saved" (w_bus (e_world ed))))
                       (e_world ed))
             (e_text ed) ("sedit [" +:+ fp +:+ "]") (Some fp) (e_highlight ed)
             (λ p, if String.eqb p fp then Return (e_text ed) else e_disk ed p)
             (e_write ed) (e_dialogs ed).
Proof.
  intros Hfp Hw. unfold SaveFiles.
  destruct (String.eqb_spec fp "") as [|_]; [done|]. rewrite Hw.
  cbn [e_world]. by rewrite emit_run.
Qed.

(** X29: saving to a path and opening that path again gives the text
    back.  After a save that was written the editor's text and dialogs
    are as before, the file name is the path and the file holds the
    text; opening that path then shows the text with its line endings
    normalised, so exactly the saved text when it holds no carriage
    return; and this does not depend on the settings being writable or
    well formed. *)
Theorem save_then_open_round_trip (E : EventBus.env) (fp : string) (ed : editor) :
  fp ≠ "" →
  e_write ed fp = Written →
  let saved := SaveFiles E fp ed in
  let reopened := OpenFiles E fp saved in
  e_text saved = e_text ed
  ∧ e_file saved = Some fp
  ∧ e_dialogs saved = e_dialogs ed
  ∧ e_disk saved fp = Return (e_text ed)
  ∧ e_text reopened = universal_newlines (e_text ed)
  ∧ e_file reopened = Some fp
  ∧ (has_char cr (e_text ed) = false → e_text reopened = e_text ed).
Proof.
  intros Hfp Hw saved reopened.
  assert (e_disk saved fp = Return (e_text ed)) as Hdisk.
  { subst saved. rewrite (save_files_run E fp ed Hfp Hw). cbn [e_disk].
    by rewrite String.eqb_refl. }
  assert (e_text reopened = universal_newlines (e_text ed) ∧ e_file reopened = Some fp)
    as [Htext Hfile].
  { subst reopened. rewrite (open_files_run E fp (e_text ed) saved Hfp Hdisk).
    by destruct (remember E fp (highlighted_world E saved)) as [w [[]|e]]. }
  subst saved. rewrite (save_files_run E fp ed Hfp Hw) in *. cbn [e_text e_file e_dialogs].
  repeat (split; [done|]).
  intros Hcr. rewrite Htext. by apply universal_newlines_id.
Qed.

Lemma save_then_open_round_trip_witness :
  let saved := SaveFiles Samples.calm "draft.py" Samples.desk in
  let reopened := OpenFiles Samples.calm "draft.py" saved in
  e_text saved = e_text Samples.desk
  ∧ e_file saved = Some "draft.py"
  ∧ e_dialogs saved = e_dialogs Samples.desk
  ∧ e_disk saved "draft.py" = Return (e_text Samples.desk)
  ∧ e_text reopened = universal_newlines (e_text Samples.desk)
  ∧ e_file reopened = Some "draft.py"
  ∧ (has_char cr (e_text Samples.desk) = false → e_text reopened = e_text Samples.desk).
Proof.
  apply (save_then_open_round_trip Samples.calm "draft.py" Samples.desk).
  - discriminate.
  - reflexivity.
Defined.

End Editor_facts.
(* ===================================================================== *)
(** ** The facade's per-extension settings *)
(* ===================================================================== *)

Section Facade_facts.
Import Extensions Facade.

Lemma save_extensions_lookup (r : result unit) (ex : pyval) (st : Settings.store) :
  Settings.SETTINGS st !! "extensions" = Some ex →
  Settings.SETTINGS (Settings.save_settings r {["extensions" := ex]} st) !! "extensions"
  = Some ex.
Proof.
  intros Hex. unfold Settings.save_settings. rewrite dict_truthy_singleton.
  destruct r; simpl; [|done].
  by rewrite (dict_update_lookup_new _ _ _ ex) by apply lookup_singleton_eq.
Qed.

Lemma save_extensions_lookup_new (ex : pyval) (st : Settings.store) :
  Settings.SETTINGS (Settings.save_settings (Return tt) {["extensions" := ex]} st)
    !! "extensions"
  = Some ex.
Proof.
  unfold Settings.save_settings. rewrite dict_truthy_singleton. simpl.
  by rewrite (dict_update_lookup_new _ _ _ ex) by apply lookup_singleton_eq.
Qed.

Lemma set_extension_settings_dict (name : string) (obj : pyval) (w : world)
    (l : list (string * pyval)) :
  Settings.SETTINGS (w_store w) !! "extensions" = Some (VDict l) →
  set_extension_settings name obj w
  = (with_store
       (Settings.save_settings
          (if w_disk_ok w then Return tt else Raise (PyError "OSError"))
          {["extensions" := VDict (alist_set name obj l)]})
       (with_store (mutate "extensions" (VDict (alist_set name obj l))) w),
     Return tt).
Proof. intros H. unfold set_extension_settings, reading. by rewrite H. Qed.

Lemma set_extension_settings_fresh (name : string) (obj : pyval) (w : world) :
  Settings.SETTINGS (w_store w) !! "extensions" = None →
  set_extension_settings name obj w
  = (with_store
       (Settings.save_settings
          (if w_disk_ok w then Return tt else Raise (PyError "OSError"))
          {["extensions" := VDict [(name, obj)]]}) w,
     Return tt).
Proof. intros H. unfold set_extension_settings, reading. by rewrite H. Qed.

(** X30: [set_extension_settings(obj)] followed by
    [get_extension_settings()] for the same extension.  When [SETTINGS]
    already holds a dict under ['extensions'], the new value is read back
    even if the settings file cannot be written: the dict is changed in
    place before [save_settings] runs.  When the key is missing, the
    value is read back only if the file could be written; otherwise it
    is lost and the empty dict is read.  When the key holds something
    that is not a dict, the item assignment raises before [save_settings]
    is reached, and nothing has changed. *)
Theorem set_extension_settings_then_get (name : string) (obj : pyval) (w : world) :
  let w' := fst (set_extension_settings name obj w) in
  match Settings.SETTINGS (w_store w) !! "extensions" with
  | Some (VDict l) =>
      snd (set_extension_settings name obj w) = Return tt
      ∧ get_extension_settings name w' = (w', Return obj)
  | Some _ =>
      ∃ e, set_extension_settings name obj w = (w, Raise e)
  | None =>
      snd (set_extension_settings name obj w) = Return tt
      ∧ get_extension_settings name w'
        = (w', Return (if w_disk_ok w then obj else VDict []))
  end.
Proof.
  simpl.
  destruct (Settings.SETTINGS (w_store w) !! "extensions") as [cur|] eqn:Hcur.
  - destruct cur as [| | | |l'|l];
      try (eexists; unfold set_extension_settings, reading; rewrite Hcur; reflexivity).
    rewrite (set_extension_settings_dict name obj w l Hcur). cbn [fst snd].
    split; [done|].
    unfold get_extension_settings, reading. cbn [with_store w_store].
    rewrite save_extensions_lookup by apply lookup_insert_eq.
    by rewrite alist_get_set_eq.
  - rewrite (set_extension_settings_fresh name obj w Hcur). cbn [fst snd].
    split; [done|].
    unfold get_extension_settings, reading. cbn [with_store w_store].
    destruct (w_disk_ok w).
    + rewrite save_extensions_lookup_new. simpl. by rewrite String.eqb_refl.
    + cbn [Settings.save_settings]. by rewrite Hcur.
Qed.

End Facade_facts.
